(** * The compositor supervisor of [packages/renderer/src/compositor]

    A shallow embedding of [startCompositor]: the closure state of the
    function becomes the record [State], its event handlers and the three
    methods of the returned object become functions on that record.

    - Numbers are IEEE doubles in the source.  The model has [NaN] and
      the integers up to [2^53] ([jsnum]), which is what the indices and
      lengths of the protocol are; [Number] is [None] for a Number that
      is neither (one with a fraction, a larger one, an infinity).  A
      status field of that kind is not 1; for a length field of that
      kind the handler is [Unmodelled].
    - [while (true)] loops and the self-call of [processInput] are given a
      fuel argument; running out of fuel is reported as [Spinning], with
      the state reached so far.  (A self-call without end exhausts the
      call stack of an engine, which then throws a RangeError out of the
      handler; the model shows it as [Spinning] with every fuel.)
    - Promises are numbered, and every call of a [resolve] or [reject]
      callback is recorded in [settled].

    The last part embeds the finders of the codemod
    [packages/cli/src/codemods/update-default-props] and the splicing of
    the file that it rewrites. *)

From Stdlib Require Import List ZArith NArith Lia Bool String Ascii.
From Stdlib.Strings Require Import Byte.
Import ListNotations.
Open Scope Z_scope.
Set Warnings "-register-all".

(** ** Runtime values *)

(** A Node [Buffer]: a sequence of bytes.  The code never writes into a
    buffer, so the sharing that [subarray] introduces is not observable. *)
Definition Buffer := list byte.

(** A JavaScript string: its sequence of UTF-16 code units. *)
Definition jsstring := list N.

Definition fromCharCode (b : option byte) : N :=
  match b with
  | Some c => Byte.to_N c
  | None => 0%N          (* String.fromCharCode(undefined) is the NUL character *)
  end.

(** A string literal of the source (ASCII only). *)
Definition js (s : string) : jsstring :=
  map Byte.to_N (list_byte_of_string s).

Arguments js : simpl never.

(** [Buffer.from(s)] for an ASCII literal. *)
Definition Buffer_from (s : string) : Buffer := list_byte_of_string s.

Definition jsstring_eqb (a b : jsstring) : bool :=
  if list_eq_dec N.eq_dec a b then true else false.

(** The Numbers the code computes with. *)
Inductive jsnum :=
| NaN
| Int (z : Z).

Definition jsadd (a b : jsnum) : jsnum :=
  match a, b with
  | Int x, Int y => Int (x + y)
  | _, _ => NaN
  end.

Definition jssub (a b : jsnum) : jsnum :=
  match a, b with
  | Int x, Int y => Int (x - y)
  | _, _ => NaN
  end.

(** [a < b]; every comparison with [NaN] is false. *)
Definition jslt (a b : jsnum) : bool :=
  match a, b with
  | Int x, Int y => x <? y
  | _, _ => false
  end.

(** [a === b] on Numbers. *)
Definition jsstricteq (a b : jsnum) : bool :=
  match a, b with
  | Int x, Int y => x =? y
  | _, _ => false
  end.

(** [status === 1] for the result of [Number]: a Number outside the
    fragment ([None]) is not [1]. *)
Definition is_one (status : option jsnum) : bool :=
  match status with
  | Some n => jsstricteq n (Int 1)
  | None => false
  end.

(** *** [Number(string)] *)

Definition is_digit (c : N) : bool := ((48 <=? c) && (c <=? 57))%N.

(** White space and line terminators, which [Number] strips. *)
Definition is_StrWhiteSpaceChar (c : N) : bool :=
  existsb (N.eqb c)
    [9; 10; 11; 12; 13; 32; 160; 5760; 8232; 8233; 8239; 8287; 12288; 65279]%N
  || ((8192 <=? c) && (c <=? 8202))%N.

Definition decimal_value (s : jsstring) : Z :=
  fold_left (fun acc c => 10 * acc + (Z.of_N c - 48)) s 0.

(** Up to [2^53] every integer is a double, and so are the sums and
    differences that the code forms of a length and an index of a
    buffer, once [subarray] has clamped them. *)
Definition MAX_EXACT : Z := 2 ^ 53.

(** [StrWhiteSpace] at the two ends of the string is not part of the
    literal. *)
Fixpoint strip_start (s : jsstring) : jsstring :=
  match s with
  | c :: rest => if is_StrWhiteSpaceChar c then strip_start rest else s
  | [] => []
  end.

Definition strip (s : jsstring) : jsstring :=
  rev (strip_start (rev (strip_start s))).

(** [DecimalDigits]: the longest run of digits at the start of [s], and
    what follows it. *)
Fixpoint DecimalDigits (s : jsstring) : jsstring * jsstring :=
  match s with
  | c :: rest =>
      if is_digit c
      then let (digits, after) := DecimalDigits rest in (c :: digits, after)
      else ([], s)
  | [] => ([], [])
  end.

Definition is_empty (s : jsstring) : bool :=
  match s with
  | [] => true
  | _ :: _ => false
  end.

(** The mathematical value of an unsigned literal: [Infinity], or
    [significand * 10 ^ exponent]. *)
Inductive MV :=
| MV_Infinity
| MV_decimal (significand exponent : Z).

(** [ExponentPart], or nothing, up to the end of the literal: the
    exponent ([0] when there is no exponent part); [None] when [s] is
    neither. *)
Definition ExponentPart (s : jsstring) : option Z :=
  match s with
  | [] => Some 0
  | indicator :: signedInteger =>
      if ((indicator =? 101) || (indicator =? 69))%N then      (* e E *)
        let (negative, digits) :=
          match signedInteger with
          | sign :: digits =>
              if (sign =? 43)%N then (false, digits)           (* + *)
              else if (sign =? 45)%N then (true, digits)       (* - *)
              else (false, signedInteger)
          | [] => (false, [])
          end in
        if forallb is_digit digits && negb (is_empty digits)
        then Some (if negative then - decimal_value digits else decimal_value digits)
        else None
      else None
  end.

(** [StrUnsignedDecimalLiteral]: [Infinity], or digits with an optional
    fraction and an optional exponent part, where the digits before or
    the digits behind the dot may be missing, not both. *)
Definition StrUnsignedDecimalLiteral (s : jsstring) : option MV :=
  if jsstring_eqb s (js "Infinity") then Some MV_Infinity
  else
    let (intDigits, afterInt) := DecimalDigits s in
    let '(fracDigits, afterFrac, hasDigits) :=
      match afterInt with
      | dot :: afterDot =>
          if (dot =? 46)%N then                                (* . *)
            let (fracDigits, afterFrac) := DecimalDigits afterDot in
            (fracDigits, afterFrac, negb (is_empty intDigits) || negb (is_empty fracDigits))
          else ([], afterInt, negb (is_empty intDigits))
      | [] => ([], [], negb (is_empty intDigits))
      end in
    if hasDigits then
      match ExponentPart afterFrac with
      | Some exponent =>
          Some (MV_decimal (decimal_value (intDigits ++ fracDigits))
                  (exponent - Z.of_nat (List.length fracDigits)))
      | None => None
      end
    else None.

(** The value of a digit in a radix up to 16. *)
Definition digit_of (radix : Z) (c : N) : option Z :=
  let v :=
    if is_digit c then Z.of_N c - 48
    else if ((97 <=? c) && (c <=? 102))%N then Z.of_N c - 87   (* a .. f *)
    else if ((65 <=? c) && (c <=? 70))%N then Z.of_N c - 55    (* A .. F *)
    else radix in
  if v <? radix then Some v else None.

Fixpoint radix_value (radix : Z) (digits : jsstring) (acc : Z) : option Z :=
  match digits with
  | [] => Some acc
  | c :: rest =>
      match digit_of radix c with
      | Some d => radix_value radix rest (radix * acc + d)
      | None => None
      end
  end.

(** [NonDecimalIntegerLiteral]: [0x], [0o] or [0b] and at least one
    digit of the radix. *)
Definition NonDecimalIntegerLiteral (s : jsstring) : option Z :=
  match s with
  | zero :: letter :: (_ :: _) as digits =>
      if (zero =? 48)%N then
        if ((letter =? 120) || (letter =? 88))%N then radix_value 16 digits 0
        else if ((letter =? 111) || (letter =? 79))%N then radix_value 8 digits 0
        else if ((letter =? 98) || (letter =? 66))%N then radix_value 2 digits 0
        else None
      else None
  | _ => None
  end.

(** [StrNumericLiteral]: whether the literal has a minus sign, and the
    value of what follows the sign; [None] when [s] is no numeric
    literal. *)
Definition StrNumericLiteral (s : jsstring) : option (bool * MV) :=
  match NonDecimalIntegerLiteral s with
  | Some v => Some (false, MV_decimal v 0)
  | None =>
      match s with
      | sign :: unsigned =>
          if (sign =? 43)%N then option_map (pair false) (StrUnsignedDecimalLiteral unsigned)
          else if (sign =? 45)%N then option_map (pair true) (StrUnsignedDecimalLiteral unsigned)
          else option_map (pair false) (StrUnsignedDecimalLiteral s)
      | [] => None
      end
  end.

(** [floor (log2 (a / b))], for positive [a] and [b]. *)
Definition floor_log2 (a b : Z) : Z :=
  let k := Z.log2 a - Z.log2 b in
  if a * 2 ^ Z.max (- k) 0 <? b * 2 ^ Z.max k 0 then k - 1 else k.

(** [a / b] rounded to the nearest integer, and to the even one of two
    that are equally near. *)
Definition round_half_even (a b : Z) : Z :=
  let q := a / b in
  let r := 2 * (a mod b) in
  if r <? b then q
  else if b <? r then q + 1
  else if Z.even q then q else q + 1.

(** The double next to [a / b], for positive [a] and [b], when it is an
    integer up to [2^53]: the quotient rounded to 53 significant bits
    (or to a multiple of [2^-1074], for a subnormal), ties to even. *)
Definition integer_double (a b : Z) : option Z :=
  let j := Z.max (floor_log2 a b) (-1022) - 52 in     (* the last bit counts 2^j *)
  let significand := round_half_even (a * 2 ^ Z.max (- j) 0) (b * 2 ^ Z.max j 0) in
  if 0 <=? j then
    if significand * 2 ^ j <=? MAX_EXACT then Some (significand * 2 ^ j) else None
  else if significand mod 2 ^ (- j) =? 0 then Some (significand / 2 ^ (- j))
  else None.

(** [Number s].  [NaN] when [s] is no [StringNumericLiteral]; the
    integer when the Number value of the literal, the double next to
    its mathematical value, is an integer up to [2^53] in magnitude
    ([-0] is [Int 0]: nothing in the code tells the two zeros apart);
    [None] for every other Number: one that has a fraction, is larger,
    or is infinite.  (For a literal of more than 20 significant digits
    the standard leaves the last bit to the implementation; V8, the
    engine of Node, rounds to the nearest double, as does this.) *)
Definition Number (s : jsstring) : option jsnum :=
  match strip s with
  | [] => Some (Int 0)
  | text =>
      match StrNumericLiteral text with
      | None => Some NaN
      | Some (_, MV_Infinity) => None
      | Some (negative, MV_decimal significand exponent) =>
          if significand =? 0 then Some (Int 0)
          else
            match integer_double (significand * 10 ^ Z.max exponent 0)
                                 (10 ^ Z.max (- exponent) 0) with
            | Some n => Some (Int (if negative then - n else n))
            | None => None
            end
      end
  end.

(** *** Buffers *)

(** [buf[i]]: [None] is [undefined], the value of an index out of range. *)
Definition buf_get (buf : Buffer) (i : Z) : option byte :=
  if i <? 0 then None else nth_error buf (Z.to_nat i).

Definition buf_length (buf : Buffer) : Z := Z.of_nat (List.length buf).

Fixpoint startsWith (value buf : Buffer) : bool :=
  match value, buf with
  | [], _ => true
  | v :: vs, b :: bs => Byte.eqb v b && startsWith vs bs
  | _ :: _, [] => false
  end.

(** [buf.indexOf(value)]: the first position at which [value] occurs,
    [-1] when there is none. *)
Fixpoint indexOf (buf value : Buffer) : Z :=
  if startsWith value buf then 0
  else match buf with
       | [] => -1
       | _ :: rest =>
           let r := indexOf rest value in
           if r =? -1 then -1 else 1 + r
       end.

(** The offset clamping of [Buffer.prototype.subarray]: [NaN] is [0], a
    negative offset counts from the end, and the result lies in
    [0 .. length]. *)
Definition adjustOffset (offset : jsnum) (length : Z) : Z :=
  match offset with
  | NaN => 0
  | Int o =>
      if o =? 0 then 0
      else if o <? 0 then (if 0 <? o + length then o + length else 0)
      else if o <? length then o
      else length
  end.

(** [buf.subarray(start, end)]; [end] is [None] when the argument is
    omitted. *)
Definition subarray (buf : Buffer) (start : jsnum) (end_ : option jsnum) : Buffer :=
  let srcLength := buf_length buf in
  let s := adjustOffset start srcLength in
  let e := match end_ with
           | Some x => adjustOffset x srcLength
           | None => srcLength
           end in
  let newLength := if s <? e then e - s else 0 in
  firstn (Z.to_nat newLength) (skipn (Z.to_nat s) buf).

(** [Buffer.concat(list)]. *)
Definition Buffer_concat (l : list Buffer) : Buffer := List.concat l.

(** *** JSON values and the runtime *)

(** A value that [JSON.parse] returns.  A Number carries the text that
    [ToString] makes of it, the only use the code has for it. *)
Inductive json :=
| JNull
| JBool (b : bool)
| JNumber (text : jsstring)
| JString (s : jsstring)
| JArray (items : list json)
| JObject (props : list (jsstring * json)).

Fixpoint prop_lookup (k : jsstring) (props : list (jsstring * json)) : option json :=
  match props with
  | [] => None
  | (k', v) :: rest => if jsstring_eqb k k' then Some v else prop_lookup k rest
  end.

(** [v.k] for the two names the code reads, [error] and [backtrace], which
    no prototype defines.  The outer [None] is the TypeError of a property
    read on [null]; [Some None] is [undefined]. *)
Definition get_property (v : json) (k : jsstring) : option (option json) :=
  match v with
  | JNull => None
  | JObject props => Some (prop_lookup k props)
  | _ => Some None
  end.

(** [ToString] of a parsed value; [None] is the TypeError of an object
    whose own [toString] property hides the inherited method. *)
Fixpoint ToString (v : json) : option jsstring :=
  match v with
  | JNull => Some (js "null")
  | JBool true => Some (js "true")
  | JBool false => Some (js "false")
  | JNumber text => Some text
  | JString s => Some s
  | JArray items =>
      (fix join (l : list json) : option jsstring :=
         match l with
         | [] => Some []
         | x :: r =>
             match (match x with JNull => Some [] | _ => ToString x end), join r with
             | Some a, Some b =>
                 Some (match r with [] => a | _ :: _ => a ++ js "," ++ b end)
             | _, _ => None
             end
         end) items
  | JObject props =>
      match prop_lookup (js "toString") props with
      | Some _ => None
      | None => Some (js "[object Object]")
      end
  end.

(** The value of a template substitution [${v}]; [v] is [None] for
    [undefined]. *)
Definition substitution (v : option json) : option jsstring :=
  match v with
  | None => Some (js "undefined")
  | Some x => ToString x
  end.

(** The two built-ins that the model leaves to the runtime. *)
Class Runtime := {
  (** [buf.toString('utf8')] *)
  toString_utf8 : Buffer -> jsstring;
  (** [JSON.parse(s)]; [None] when it throws a SyntaxError *)
  JSON_parse : jsstring -> option json
}.

(** *** [Map<string, V>]: the entries in insertion order, keys distinct *)

Definition JsMap (V : Type) := list (jsstring * V).

Section JsMap.
Context {V : Type}.

Fixpoint Map_get (k : jsstring) (m : JsMap V) : option V :=
  match m with
  | [] => None
  | (k', v) :: rest => if jsstring_eqb k k' then Some v else Map_get k rest
  end.

Definition Map_has (k : jsstring) (m : JsMap V) : bool :=
  match Map_get k m with Some _ => true | None => false end.

(** [m.set(k, v)]: an existing key keeps its place. *)
Fixpoint Map_set (k : jsstring) (v : V) (m : JsMap V) : JsMap V :=
  match m with
  | [] => [(k, v)]
  | (k', v') :: rest =>
      if jsstring_eqb k k' then (k', v) :: rest else (k', v') :: Map_set k v rest
  end.

Fixpoint Map_delete (k : jsstring) (m : JsMap V) : JsMap V :=
  match m with
  | [] => []
  | (k', v') :: rest =>
      if jsstring_eqb k k' then rest else (k', v') :: Map_delete k rest
  end.

(** [Array.from(m.values())] *)
Definition Map_values (m : JsMap V) : list V := map snd m.
End JsMap.

(** ** The state of [startCompositor] *)

(** A promise, by the order of its creation. *)
Definition promise := nat.

(** A call of one of the two callbacks of a promise. *)
Inductive call :=
| ResolveWith (data : Buffer)        (* resolve(data) *)
| ResolveVoid                        (* resolve() *)
| RejectWith (message : jsstring).   (* reject(new Error(message)) *)

(** [type Waiter = {resolve, reject}]: the two callbacks of one promise. *)
Definition Waiter := promise.

Inductive RunningStatus :=
| running
| quit_with_error (error : jsstring)
| quit_without_error.

(** ['success' | 'error'] *)
Inductive statusType := status_success | status_error.

(** Modelled from the spec: the logger ([../logger]) is not among the
    sources; a call of [Log.verboseAdvanced] is recorded as one verbose
    entry with its tag and its text. *)
Record LogEntry := { tag : jsstring; message : jsstring }.

(** A line written to the child's stdin: [JSON.stringify(composed) + '\n']
    or ['EOF\n']. *)
Inductive stdin_line :=
| ComposedLine (nonce : jsstring) (command : jsstring) (params : json)
| EOFLine.

Record State := mkState {
  stderrChunks : list Buffer;
  outputBuffer : Buffer;
  waiters : JsMap Waiter;
  runningStatus : RunningStatus;
  missingData : option jsnum;          (* null | {dataMissing} *)
  unprocessedBuffers : list Buffer;
  resolve : option promise;            (* the stored callbacks of waitForDone *)
  reject : option promise;
  (* what the closure does to its environment *)
  verboseLog : list LogEntry;
  stdin : list stdin_line;
  settled : list (promise * call);     (* callback calls, oldest first *)
  nextPromise : promise
}.

Definition set_stderrChunks v (s : State) :=
  mkState v (outputBuffer s) (waiters s) (runningStatus s) (missingData s)
    (unprocessedBuffers s) (resolve s) (reject s) (verboseLog s) (stdin s)
    (settled s) (nextPromise s).
Definition set_outputBuffer v (s : State) :=
  mkState (stderrChunks s) v (waiters s) (runningStatus s) (missingData s)
    (unprocessedBuffers s) (resolve s) (reject s) (verboseLog s) (stdin s)
    (settled s) (nextPromise s).
Definition set_waiters v (s : State) :=
  mkState (stderrChunks s) (outputBuffer s) v (runningStatus s) (missingData s)
    (unprocessedBuffers s) (resolve s) (reject s) (verboseLog s) (stdin s)
    (settled s) (nextPromise s).
Definition set_runningStatus v (s : State) :=
  mkState (stderrChunks s) (outputBuffer s) (waiters s) v (missingData s)
    (unprocessedBuffers s) (resolve s) (reject s) (verboseLog s) (stdin s)
    (settled s) (nextPromise s).
Definition set_missingData v (s : State) :=
  mkState (stderrChunks s) (outputBuffer s) (waiters s) (runningStatus s) v
    (unprocessedBuffers s) (resolve s) (reject s) (verboseLog s) (stdin s)
    (settled s) (nextPromise s).
Definition set_unprocessedBuffers v (s : State) :=
  mkState (stderrChunks s) (outputBuffer s) (waiters s) (runningStatus s)
    (missingData s) v (resolve s) (reject s) (verboseLog s) (stdin s)
    (settled s) (nextPromise s).
Definition set_resolve v (s : State) :=
  mkState (stderrChunks s) (outputBuffer s) (waiters s) (runningStatus s)
    (missingData s) (unprocessedBuffers s) v (reject s) (verboseLog s) (stdin s)
    (settled s) (nextPromise s).
Definition set_reject v (s : State) :=
  mkState (stderrChunks s) (outputBuffer s) (waiters s) (runningStatus s)
    (missingData s) (unprocessedBuffers s) (resolve s) v (verboseLog s) (stdin s)
    (settled s) (nextPromise s).
Definition set_verboseLog v (s : State) :=
  mkState (stderrChunks s) (outputBuffer s) (waiters s) (runningStatus s)
    (missingData s) (unprocessedBuffers s) (resolve s) (reject s) v (stdin s)
    (settled s) (nextPromise s).
Definition set_stdin v (s : State) :=
  mkState (stderrChunks s) (outputBuffer s) (waiters s) (runningStatus s)
    (missingData s) (unprocessedBuffers s) (resolve s) (reject s) (verboseLog s) v
    (settled s) (nextPromise s).
Definition set_settled v (s : State) :=
  mkState (stderrChunks s) (outputBuffer s) (waiters s) (runningStatus s)
    (missingData s) (unprocessedBuffers s) (resolve s) (reject s) (verboseLog s)
    (stdin s) v (nextPromise s).
Definition set_nextPromise v (s : State) :=
  mkState (stderrChunks s) (outputBuffer s) (waiters s) (runningStatus s)
    (missingData s) (unprocessedBuffers s) (resolve s) (reject s) (verboseLog s)
    (stdin s) (settled s) v.

(** The state in which [startCompositor] returns. *)
Definition initial : State :=
  {| stderrChunks := [];
     outputBuffer := Buffer_from "";
     waiters := [];
     runningStatus := running;
     missingData := None;
     unprocessedBuffers := [];
     resolve := None;
     reject := None;
     verboseLog := [];
     stdin := [];
     settled := [];
     nextPromise := O |}.

(** A callback call on promise [p]. *)
Definition settle (p : promise) (c : call) (s : State) : State :=
  set_settled (settled s ++ [(p, c)]) s.

(** [new Promise(executor)]: the promise and the state in which the
    executor starts. *)
Definition newPromise (s : State) : promise * State :=
  (nextPromise s, set_nextPromise (S (nextPromise s)) s).

Definition verboseAdvanced (t : jsstring) (msg : jsstring) (s : State) : State :=
  set_verboseLog (verboseLog s ++ [{| tag := t; message := msg |}]) s.

Definition separator : Buffer := Buffer_from "remotion_buffer:".

(** How a handler ends. *)
Inductive outcome :=
| Returned (s : State)    (* it returned, leaving the closure in state [s] *)
| Spinning (s : State)    (* it was still running, in state [s], when the fuel ran out *)
| Unmodelled.             (* a length field that is a Number outside the fragment *)



(** The state that an outcome shows, if any. *)
Definition state_of (o : outcome) : option State :=
  match o with
  | Returned s | Spinning s => Some s
  | Unmodelled => None
  end.

Definition is_colon (nextDigit : option byte) : bool :=
  match nextDigit with
  | Some c => Byte.eqb c x3a
  | None => false
  end.

(** One of the three [while (true)] loops of [processInput], from index
    [separatorIndex] with the characters [acc] read so far.  The first two
    loops step over the colon that ends them ([skipColon]), the third does
    not.  The result is the index and the string at the [break]; [None]
    when the fuel runs out. *)
Fixpoint scanField (fuel : nat) (buf : Buffer) (skipColon : bool)
    (separatorIndex : Z) (acc : jsstring) : option (Z * jsstring) :=
  match fuel with
  | O => None
  | S fuel' =>
      let nextDigit := buf_get buf separatorIndex in
      if is_colon nextDigit then
        Some (if skipColon then separatorIndex + 1 else separatorIndex, acc)
      else
        scanField fuel' buf skipColon (separatorIndex + 1)
          (acc ++ [fromCharCode nextDigit])
  end.

Section Compositor.
Context {RT : Runtime}.

(** The message of the rejection of an error frame: the [try] block,
    and the [catch] block when [JSON.parse], a property read or a
    template substitution throws. *)
Definition rejection_message (data : Buffer) : jsstring :=
  let raw := toString_utf8 data in
  match JSON_parse raw with
  | Some parsed =>
      match get_property parsed (js "error"), get_property parsed (js "backtrace") with
      | Some e, Some b =>
          match substitution e, substitution b with
          | Some es, Some bs => js "Compositor error: " ++ es ++ [10%N] ++ bs
          | _, _ => raw
          end
      | _, _ => raw
      end
  | None => raw
  end.

Definition onMessage (status : statusType) (nonce : jsstring) (data : Buffer)
    (s : State) : State :=
  let s :=
    if jsstring_eqb nonce (js "0")
    then verboseAdvanced (js "compositor") (toString_utf8 data) s
    else s in
  match Map_get nonce (waiters s) with
  | Some waiter =>
      let s :=
        match status with
        | status_error => settle waiter (RejectWith (rejection_message data)) s
        | status_success => settle waiter (ResolveWith data) s
        end in
      set_waiters (Map_delete nonce (waiters s)) s
  | None => s
  end.

Fixpoint processInput (fuel : nat) (s : State) : outcome :=
  match fuel with
  | O => Spinning s
  | S fuel' =>
      let separatorIndex := indexOf (outputBuffer s) separator in
      if separatorIndex =? -1 then Returned s
      else
        let separatorIndex := separatorIndex + buf_length separator in
        match scanField fuel' (outputBuffer s) true separatorIndex [] with
        | None => Spinning s
        | Some (separatorIndex, nonceString) =>
        match scanField fuel' (outputBuffer s) true separatorIndex [] with
        | None => Spinning s
        | Some (separatorIndex, lengthString) =>
        match scanField fuel' (outputBuffer s) false separatorIndex [] with
        | None => Spinning s
        | Some (separatorIndex, statusString) =>
        match Number lengthString with
        | Some length =>
            let status := Number statusString in
            let dataLength := buf_length (outputBuffer s) - separatorIndex - 1 in
            if jslt (Int dataLength) length then
              Returned (set_missingData (Some (jssub length (Int dataLength))) s)
            else
              let data :=
                subarray (outputBuffer s) (Int (separatorIndex + 1))
                  (Some (jsadd (Int (separatorIndex + 1)) length)) in
              let s1 :=
                onMessage (if is_one status then status_error else status_success)
                  nonceString data s in
              let s2 := set_missingData None s1 in
              let s3 :=
                set_outputBuffer
                  (subarray (outputBuffer s2)
                     (jsadd (jsadd (Int separatorIndex) length) (Int 1)) None) s2 in
              processInput fuel' s3
        | None => Unmodelled
        end end end end
  end.

(** [child.stdout.on('data', ...)] *)
Definition onStdoutData (fuel : nat) (data : Buffer) (s : State) : outcome :=
  let s := set_unprocessedBuffers (unprocessedBuffers s ++ [data]) s in
  let separatorIndex := indexOf data separator in
  let s :=
    if separatorIndex =? -1 then
      match missingData s with
      | Some dataMissing =>
          set_missingData (Some (jssub dataMissing (Int (buf_length data)))) s
      | None => s
      end
    else s in
  if (separatorIndex =? -1)
     && match missingData s with
        | None => true
        | Some dataMissing => jslt (Int 0) dataMissing
        end
  then Returned s
  else
    let s := set_unprocessedBuffers (outputBuffer s :: unprocessedBuffers s) s in
    let s := set_outputBuffer (Buffer_concat (unprocessedBuffers s)) s in
    let s := set_unprocessedBuffers [] s in
    processInput fuel s.

(** [child.stderr.on('data', ...)] *)
Definition onStderrData (data : Buffer) (s : State) : State :=
  set_stderrChunks (stderrChunks s ++ [data]) s.

Definition rejectAll (message : jsstring) (waitersToKill : list Waiter)
    (s : State) : State :=
  fold_left (fun s waiter => settle waiter (RejectWith message) s) waitersToKill s.

(** [code === 0] for the exit code of the child, which is [None] for
    [null]. *)
Definition is_zero (code : option Z) : bool :=
  match code with
  | Some c => c =? 0
  | None => false
  end.

(** [child.on('close', ...)] *)
Definition onClose (code : option Z) (s : State) : State :=
  let waitersToKill := Map_values (waiters s) in
  if is_zero code then
    let s := set_runningStatus quit_without_error s in
    let s := match resolve s with
             | Some p => settle p ResolveVoid s
             | None => s
             end in
    let s := rejectAll (js "Compositor already quit") waitersToKill s in
    set_waiters [] s
  else
    let errorMessage := toString_utf8 (Buffer_concat (stderrChunks s)) in
    let s := set_runningStatus (quit_with_error errorMessage) s in
    let error := js "Compositor panicked: " ++ errorMessage in
    let s := rejectAll error waitersToKill s in
    let s := set_waiters [] s in
    match reject s with
    | Some p => settle p (RejectWith error) s
    | None => s
    end.

(** [waitForDone()]: the promise it returns and the state after its
    executor has run. *)
Definition waitForDone (s : State) : promise * State :=
  let (p, s) := newPromise s in
  match runningStatus s with
  | quit_without_error =>
      (p, settle p (RejectWith (js "Compositor already quit")) s)
  | quit_with_error error =>
      (p, settle p (RejectWith (js "Compositor already quit: " ++ error)) s)
  | running => (p, set_reject (Some p) (set_resolve (Some p) s))
  end.

(** [finishCommands()]; [inl] is the message of the Error it throws. *)
Definition finishCommands (s : State) : jsstring + State :=
  match runningStatus s with
  | quit_with_error error => inl (js "Compositor already quit: " ++ error)
  | quit_without_error => inl (js "Compositor already quit")
  | running => inr (set_stdin (stdin s ++ [EOFLine]) s)
  end.

(** [executeCommand(command, params)]; [inl] is the message of the Error
    it throws.  Modelled from the spec: [makeNonce] ([./make-nonce]) is
    not among the sources, "an opaque unique-string source"; its result
    for this call is the argument [nonce]. *)
Definition executeCommand (nonce : jsstring) (command : jsstring) (params : json)
    (s : State) : jsstring + promise * State :=
  match runningStatus s with
  | quit_without_error => inl (js "Compositor already quit")
  | quit_with_error error => inl (js "Compositor quit: " ++ error)
  | running =>
      let (p, s) := newPromise s in
      let s := set_stdin (stdin s ++ [ComposedLine nonce command params]) s in
      inr (p, set_waiters (Map_set nonce p (waiters s)) s)
  end.

(** *** Runs *)

(** What happens to the compositor: events of the child and calls of
    the three methods. *)
Inductive event :=
| StdoutData (data : Buffer)
| StderrData (data : Buffer)
| Close (code : option Z)
| ExecuteCommand (nonce command : jsstring) (params : json)
| FinishCommands
| WaitForDone.

Definition step (fuel : nat) (s : State) (e : event) : outcome :=
  match e with
  | StdoutData data => onStdoutData fuel data s
  | StderrData data => Returned (onStderrData data s)
  | Close code => Returned (onClose code s)
  | ExecuteCommand nonce command params =>
      match executeCommand nonce command params s with
      | inl _ => Returned s
      | inr (_, s') => Returned s'
      end
  | FinishCommands =>
      match finishCommands s with
      | inl _ => Returned s
      | inr s' => Returned s'
      end
  | WaitForDone => Returned (snd (waitForDone s))
  end.

(** The events of [t] one after the other; the run ends with the first
    handler that does not return. *)
Fixpoint run (fuel : nat) (s : State) (t : list event) : outcome :=
  match t with
  | [] => Returned s
  | e :: t' =>
      match step fuel s e with
      | Returned s' => run fuel s' t'
      | o => o
      end
  end.

(** The number of [close] events in a run; a child closes once. *)
Fixpoint closes (t : list event) : nat :=
  match t with
  | [] => O
  | Close _ :: t' => S (closes t')
  | _ :: t' => closes t'
  end.

Definition is_WaitForDone (e : event) : bool :=
  match e with WaitForDone => true | _ => false end.

Definition is_Close (e : event) : bool :=
  match e with Close _ => true | _ => false end.

End Compositor.

(** ** Frames on the wire *)

(** The bytes of one frame:
    [remotion_buffer:<nonce>:<length>:<status>:<payload>]. *)
Definition frame (nonce lengthField statusField payload : Buffer) : Buffer :=
  separator ++ nonce ++ x3a :: lengthField ++ x3a :: statusField ++ x3a :: payload.

Definition no_colon (field : Buffer) : Prop :=
  Forall (fun b => Byte.eqb b x3a = false) field.

(** [s] is a decimal numeral of [n]. *)
Definition decimal_of (s : Buffer) (n : Z) : Prop :=
  s <> [] /\ forallb is_digit (map Byte.to_N s) = true
  /\ decimal_value (map Byte.to_N s) = n.

(** A frame is well formed when its nonce has no colon, its length field
    is a decimal numeral of the length of the payload, and its status is
    [0] or [1].  A buffer is shorter than [2^53] bytes. *)
Definition well_formed (nonce lengthField statusField payload : Buffer) : Prop :=
  no_colon nonce
  /\ decimal_of lengthField (buf_length payload)
  /\ buf_length payload <= MAX_EXACT
  /\ (statusField = Buffer_from "0" \/ statusField = Buffer_from "1").

(** ** A runtime for the examples *)

Definition quote : string := String (ascii_of_nat 34) EmptyString.

(** The payload of the error frame of the spec's scenario:
    an object with the fields [error] and [backtrace]. *)
Definition error_payload_text : string :=
  ("{" ++ quote ++ "error" ++ quote ++ ":" ++ quote ++ "bad" ++ quote ++ ","
   ++ quote ++ "backtrace" ++ quote ++ ":" ++ quote ++ "at foo" ++ quote ++ "}")%string.

(** [JSON.parse] on the texts that the examples use: the empty object,
    the error payload, and words that are not JSON. *)
Definition example_JSON_parse (s : jsstring) : option json :=
  if jsstring_eqb s (js "{}") then Some (JObject [])
  else if jsstring_eqb s (js error_payload_text) then
    Some (JObject [(js "error", JString (js "bad"));
                   (js "backtrace", JString (js "at foo"))])
  else None.

(** ASCII text decodes to the code units of its bytes. *)
Definition example_runtime : Runtime :=
  {| toString_utf8 := map Byte.to_N;
     JSON_parse := example_JSON_parse |}.

(** A state with one pending command: [executeCommand] was called once
    and [makeNonce] returned [nonce]. *)
Definition one_pending (nonce : string) : State :=
  set_waiters [(js nonce, O)] (set_nextPromise 1%nat initial).

(** ** Promises *)

(** The promises of which a callback has been called, in the order of
    the calls. *)
Definition settled_ids (s : State) : list promise := map fst (settled s).

(** The fate of promise [p]: the first call of one of its callbacks (a
    later call has no effect on a promise); [None] while it is pending. *)
Definition fate (p : promise) (s : State) : option call :=
  option_map snd (find (fun c => Nat.eqb (fst c) p) (settled s)).

(** The bookkeeping of promises is consistent: no promise had two
    callback calls, the waiters are distinct pending promises, and the
    stored [waitForDone] callbacks belong to a promise that is not a
    waiter and that is pending as long as the child runs. *)
Definition consistent (s : State) : Prop :=
  NoDup (settled_ids s)
  /\ (forall p, In p (settled_ids s) -> (p < nextPromise s)%nat)
  /\ NoDup (Map_values (waiters s))
  /\ (forall p, In p (Map_values (waiters s)) ->
        (p < nextPromise s)%nat /\ ~ In p (settled_ids s))
  /\ (forall p, resolve s = Some p \/ reject s = Some p ->
        (p < nextPromise s)%nat
        /\ ~ In p (Map_values (waiters s))
        /\ (runningStatus s = running -> ~ In p (settled_ids s))).

(** Promise [p] exists, none of its callbacks is stored anywhere, and
    none was called. *)
Definition abandoned (p : promise) (s : State) : Prop :=
  (p < nextPromise s)%nat
  /\ ~ In p (Map_values (waiters s))
  /\ resolve s <> Some p
  /\ reject s <> Some p
  /\ ~ In p (settled_ids s).

(** The call [h?.(...)] of a stored callback, as an entry of [settled]. *)
Definition optional_call (h : option promise) (c : call) : list (promise * call) :=
  match h with
  | Some p => [(p, c)]
  | None => []
  end.

(** The message of the Error with which the [close] handler rejects
    after a crash. *)
Definition panic_message {RT : Runtime} (s : State) : jsstring :=
  js "Compositor panicked: " ++ toString_utf8 (Buffer_concat (stderrChunks s)).

(** The states of a compositor whose child closes at most once. *)
Definition reachable {RT : Runtime} (s : State) : Prop :=
  exists fuel t, (closes t <= 1)%nat /\ run fuel initial t = Returned s.

(** Neither a call of [waitForDone] nor the [close] event. *)
Definition ordinary (e : event) : bool :=
  negb (is_WaitForDone e) && negb (is_Close e).

(** The child has quit with status [rs] and no waiter is left. *)
Definition quit_as (rs : RunningStatus) (s : State) : Prop :=
  rs <> running /\ runningStatus s = rs /\ waiters s = [].

(** How many [close] events can still come: one while the child runs. *)
Definition closes_left (s : State) : nat :=
  match runningStatus s with
  | running => 1%nat
  | _ => O
  end.

(** Promise [p] exists, is not a waiter, and is pending as long as the
    child runs: what holds of a promise of [waitForDone]. *)
Definition done_promise (p : promise) (s : State) : Prop :=
  (p < nextPromise s)%nat
  /\ ~ In p (Map_values (waiters s))
  /\ (runningStatus s = running -> ~ In p (settled_ids s)).

(** The bytes after a marker hold fewer than three colons: the header
    of the frame is not complete yet. *)
Inductive incomplete_header : Buffer -> Prop :=
| in_nonce (f1 : Buffer) :
    no_colon f1 -> incomplete_header f1
| in_length (f1 f2 : Buffer) :
    no_colon f1 -> no_colon f2 -> incomplete_header (f1 ++ x3a :: f2)
| in_status (f1 f2 f3 : Buffer) :
    no_colon f1 -> no_colon f2 -> no_colon f3 ->
    incomplete_header (f1 ++ x3a :: f2 ++ x3a :: f3).

(** ** The rest of the module *)

(** [getIdealMaximumFrameCacheItems], for the reading [freeMemory] of
    [os.freemem()], a number of bytes.  [Math.floor(freeMemory / (1024 *
    1024 * 6))] is the integer quotient: for a number of bytes below
    [2^53] the rounded quotient of the doubles does not reach the next
    integer. *)
Definition getIdealMaximumFrameCacheItems (freeMemory : Z) : Z :=
  let max := freeMemory / (1024 * 1024 * 6) in
  Z.max 500 (Z.min max 2000).

(** The bytes that the parser holds: the buffer and the chunks queued
    behind it. *)
Definition pending (s : State) : Buffer :=
  outputBuffer s ++ Buffer_concat (unprocessedBuffers s).

(** The stderr chunks of a run, in their order. *)
Fixpoint stderr_of (t : list event) : list Buffer :=
  match t with
  | [] => []
  | StderrData data :: t' => data :: stderr_of t'
  | _ :: t' => stderr_of t'
  end.

(** The calls of [executeCommand] in a run that use nonce [k]. *)
Definition uses_nonce (k : jsstring) (e : event) : bool :=
  match e with
  | ExecuteCommand nonce _ _ => jsstring_eqb nonce k
  | _ => false
  end.

(** A frame as the child writes it, with the noise in front of it. *)
Record Frame := {
  noise_before : Buffer;
  nonce_field : Buffer;
  length_field : Buffer;
  status_field : Buffer;
  payload_bytes : Buffer
}.

Definition encode (f : Frame) : Buffer :=
  noise_before f
  ++ frame (nonce_field f) (length_field f) (status_field f) (payload_bytes f).

Definition well_formed_frame (f : Frame) : Prop :=
  indexOf (noise_before f) separator = -1
  /\ well_formed (nonce_field f) (length_field f) (status_field f) (payload_bytes f).

(** The call of [onMessage] that a frame stands for. *)
Definition dispatch {RT : Runtime} (s : State) (f : Frame) : State :=
  onMessage
    (if jsstring_eqb (map Byte.to_N (status_field f)) (js "1")
     then status_error else status_success)
    (map Byte.to_N (nonce_field f)) (payload_bytes f) s.

(** The state of a parser that has handed on all it held. *)
Definition drained (s : State) : State :=
  set_unprocessedBuffers [] (set_outputBuffer [] (set_missingData None s)).

(** The lines that the calls of a run write to the child's stdin while
    the child runs: those of the calls before the first [close] event. *)
Fixpoint stdin_of (t : list event) : list stdin_line :=
  match t with
  | [] => []
  | Close _ :: _ => []
  | ExecuteCommand nonce command params :: t' =>
      ComposedLine nonce command params :: stdin_of t'
  | FinishCommands :: t' => EOFLine :: stdin_of t'
  | _ :: t' => stdin_of t'
  end.

(** The callback call that [onMessage] makes for a frame whose nonce has
    a waiter. *)
Definition frame_call {RT : Runtime} (f : Frame) : call :=
  if jsstring_eqb (map Byte.to_N (status_field f)) (js "1")
  then RejectWith (rejection_message (payload_bytes f))
  else ResolveWith (payload_bytes f).

(** ** The codemod [update-default-props]

    [packages/cli/src/codemods/update-default-props.ts] finds the
    [defaultProps] of a composition in the text of a source file and
    puts new ones in their place.  The three finders and the splicing of
    the new file are embedded; the formatting of the result by prettier,
    which [updateDefaultProps] ends with, is not. *)

(** [value] stands at the start of [s]. *)
Fixpoint str_prefix (value s : jsstring) : bool :=
  match value, s with
  | [], _ => true
  | v :: vs, c :: cs => N.eqb v c && str_prefix vs cs
  | _ :: _, [] => false
  end.

(** The first index at which [value] occurs in [s], where [s] is the
    rest of a string from its index [i] on; [-1] when there is none. *)
Fixpoint str_search (value s : jsstring) (i : Z) : Z :=
  if str_prefix value s then i
  else match s with
       | [] => -1
       | _ :: cs => str_search value cs (i + 1)
       end.

Definition str_length (s : jsstring) : Z := Z.of_nat (List.length s).

(** [s.indexOf(value, position)]: the search starts at [position],
    clamped to [0 .. s.length]. *)
Definition String_indexOf (s value : jsstring) (position : Z) : Z :=
  let start := Z.min (Z.max position 0) (str_length s) in
  str_search value (skipn (Z.to_nat start) s) start.

(** [s[i]]: [None] is [undefined]. *)
Definition char_at (s : jsstring) (i : Z) : option N :=
  if i <? 0 then None else nth_error s (Z.to_nat i).

(** [s.substring(start, end)]; without [end] the substring goes to the
    end of [s].  Both arguments are clamped to [0 .. s.length], and
    swapped when the first is the larger. *)
Definition substring (s : jsstring) (start : Z) (end_ : option Z) : jsstring :=
  let len := str_length s in
  let a := Z.min (Z.max start 0) len in
  let b := match end_ with
           | Some e => Z.min (Z.max e 0) len
           | None => len
           end in
  firstn (Z.to_nat (Z.max a b - Z.min a b)) (skipn (Z.to_nat (Z.min a b)) s).

(** What a function of the codemod does: it returns a value or throws
    an Error with a message; [StillLooping] is a loop that has used up
    its fuel. *)
Inductive attempt (A : Type) :=
| Value (a : A)
| Throws (message : jsstring)
| StillLooping.

Arguments Value {A} a.
Arguments Throws {A} message.
Arguments StillLooping {A}.

(** The five spellings of the [id] attribute that [findStarter] looks
    for, in the order in which it tries them.  (The last one has no
    closing brace in the source.) *)
Definition id_spellings (compositionId : jsstring) : list jsstring :=
  [ js "id=" ++ js quote ++ compositionId ++ js quote;
    js "id='" ++ compositionId ++ js "'";
    js "id={'" ++ compositionId ++ js "'}";
    js "id={" ++ js quote ++ compositionId ++ js quote ++ js "}";
    js "id={`" ++ compositionId ++ js "`" ].

Definition findStarter (input compositionId : jsstring) : attempt Z :=
  let format1 := String_indexOf input (js "id=" ++ js quote ++ compositionId ++ js quote) 0 in
  if -1 <? format1 then Value format1 else
  let format2 := String_indexOf input (js "id='" ++ compositionId ++ js "'") 0 in
  if -1 <? format2 then Value format2 else
  let format3 := String_indexOf input (js "id={'" ++ compositionId ++ js "'}") 0 in
  if -1 <? format3 then Value format3 else
  let format4 :=
    String_indexOf input (js "id={" ++ js quote ++ compositionId ++ js quote ++ js "}") 0 in
  if -1 <? format4 then Value format4 else
  let format5 := String_indexOf input (js "id={`" ++ compositionId ++ js "`") 0 in
  if -1 <? format5 then Value format5 else
  Throws (js "Could not find composition ID " ++ compositionId ++ js " in file").

(** A position, or [Infinity]. *)
Inductive bound := Finite (position : Z) | Infinity.

Definition below (position : Z) (b : bound) : bool :=
  match b with
  | Finite z => position <? z
  | Infinity => true
  end.

Definition is_comma (c : option N) : bool :=
  match c with
  | Some c => N.eqb c 44
  | None => false
  end.

(** The loop of [findEnder], from [currentPosition] on. *)
Fixpoint findEnder_from (fuel : nat) (input : jsstring) (position : Z)
    (maxPosition : bound) (currentPosition : Z) : attempt (Z * Z) :=
  match fuel with
  | O => StillLooping
  | S fuel' =>
      if below currentPosition maxPosition then
        let next := String_indexOf input (js "}}") (currentPosition + 1) in
        if next =? -1 then Throws (js "Could not find end of defaultProps")
        else
          let currentPosition := next in
          let nextChar := char_at input (next + 1) in
          if is_comma nextChar
          then findEnder_from fuel' input position maxPosition currentPosition
          else Value (position, currentPosition + 1)
      else Throws (js "did not find string")
  end.

Definition findEnder (fuel : nat) (input : jsstring) (position : Z)
    (maxPosition : bound) : attempt (Z * Z) :=
  findEnder_from fuel input position maxPosition position.

Definition findTerminators (input : jsstring) (position : Z) : bound :=
  let nextComposition := String_indexOf input (js "<Composition") position in
  if -1 <? nextComposition then Finite nextComposition else
  let nextStill := String_indexOf input (js "<Still") position in
  if -1 <? nextStill then Finite nextStill else
  Infinity.

Definition START_TOKEN : jsstring := js "defaultProps={".

(** [updateDefaultProps] up to [newFile]: the new text of the file with
    [startPos] and [endPos], the range that prettier is then asked to
    format.  [stringified] is [JSON.stringify(newDefaultProps)].  (An
    Error thrown in [updateDefaultProps], an [async] function, rejects
    the promise that the function returns.) *)
Definition newFile (fuel : nat) (input compositionId stringified : jsstring)
    : attempt (jsstring * Z * Z) :=
  match findStarter input compositionId with
  | Throws message => Throws message
  | StillLooping => StillLooping
  | Value starter =>
      let start := String_indexOf input START_TOKEN starter in
      if start =? -1
      then Throws (js "Could not find defaultProps in <Composition> tag")
      else
        let maxEnd := findTerminators input starter in
        match findEnder fuel input (start + str_length START_TOKEN) maxEnd with
        | Throws message => Throws message
        | StillLooping => StillLooping
        | Value (startPos, endPos) =>
            Value (substring input 0 (Some startPos)
                   ++ stringified
                   ++ substring input endPos None,
                   startPos, endPos)
        end
  end.

(** * Properties *)

(** ** Buffers and the header loops *)

Lemma buf_get_app_r (pre rest : Buffer) :
  buf_get (pre ++ rest) (buf_length pre) = hd_error rest.
Proof.
  unfold buf_get, buf_length.
  destruct (Z.ltb_spec (Z.of_nat (List.length pre)) 0) as [H|_]; [lia|].
  rewrite Nat2Z.id, nth_error_app2 by lia.
  rewrite Nat.sub_diag. destruct rest; reflexivity.
Qed.

(** A loop that starts at a field which a colon ends reads the field and
    stops at the colon, when it has fuel for it. *)
Lemma scanField_field (field : Buffer) :
  no_colon field ->
  forall fuel pre rest skipColon acc,
    (List.length field < fuel)%nat ->
    scanField fuel (pre ++ field ++ x3a :: rest) skipColon (buf_length pre) acc
    = Some (buf_length pre + buf_length field + (if skipColon then 1 else 0),
            acc ++ map Byte.to_N field).
Proof.
  induction 1 as [|b field Hb Hfield IH]; intros fuel pre rest skipColon acc Hfuel.
  - destruct fuel as [|fuel]; [simpl in Hfuel; lia|].
    simpl. rewrite buf_get_app_r. simpl.
    rewrite app_nil_r. unfold buf_length. simpl.
    destruct skipColon; f_equal; f_equal; lia.
  - destruct fuel as [|fuel]; [simpl in Hfuel; lia|].
    cbn [scanField]. rewrite buf_get_app_r.
    cbn [app hd_error is_colon fromCharCode]. rewrite Hb.
    specialize (IH fuel (pre ++ [b]) rest skipColon (acc ++ [Byte.to_N b])).
    rewrite <- app_assoc in IH. cbn [app] in IH.
    replace (buf_length (pre ++ [b])) with (buf_length pre + 1) in IH
      by (unfold buf_length; rewrite length_app; simpl; lia).
    rewrite IH by (simpl in Hfuel; lia).
    unfold buf_length. cbn [List.length map].
    rewrite <- app_assoc. cbn [app].
    f_equal. f_equal. lia.
Qed.

(** Without a colon at or after the index, the loop never breaks. *)
Lemma scanField_spins (buf : Buffer) (skipColon : bool) :
  forall fuel separatorIndex acc,
    (forall j, separatorIndex <= j -> is_colon (buf_get buf j) = false) ->
    scanField fuel buf skipColon separatorIndex acc = None.
Proof.
  induction fuel as [|fuel IH]; intros i acc Hno; [reflexivity|].
  simpl. rewrite (Hno i) by lia.
  apply IH. intros j Hj. apply Hno. lia.
Qed.

(** A loop that breaks has found a colon, at or after its start. *)
Lemma scanField_break (buf : Buffer) (skipColon : bool) :
  forall fuel separatorIndex acc j str,
    scanField fuel buf skipColon separatorIndex acc = Some (j, str) ->
    let colon := if skipColon then j - 1 else j in
    separatorIndex <= colon /\ is_colon (buf_get buf colon) = true.
Proof.
  induction fuel as [|fuel IH]; intros i acc j str H; [discriminate|].
  simpl in H.
  destruct (is_colon (buf_get buf i)) eqn:Hc.
  - inversion H; subst. destruct skipColon; simpl.
    + replace (i + 1 - 1) with i by lia. split; [lia|assumption].
    + split; [lia|assumption].
  - apply IH in H. simpl in *. destruct H. split; [lia|assumption].
Qed.

Lemma startsWith_app (value rest : Buffer) : startsWith value (value ++ rest) = true.
Proof.
  induction value as [|v value IH]; [reflexivity|].
  simpl. rewrite IH, andb_true_r. apply Byte.byte_dec_lb. reflexivity.
Qed.

Lemma indexOf_startsWith (buf value : Buffer) :
  startsWith value buf = true -> indexOf buf value = 0.
Proof. intros H. destruct buf; simpl; rewrite H; reflexivity. Qed.

Lemma indexOf_cons (b : byte) (buf value : Buffer) :
  indexOf (b :: buf) value
  = if startsWith value (b :: buf) then 0
    else if indexOf buf value =? -1 then -1 else 1 + indexOf buf value.
Proof. reflexivity. Qed.

Lemma indexOf_nonneg (value : Buffer) :
  forall buf, indexOf buf value = -1 \/ 0 <= indexOf buf value.
Proof.
  induction buf as [|b buf IH].
  - simpl. destruct (startsWith value []); [right|left]; lia.
  - rewrite indexOf_cons.
    destruct (startsWith value (b :: buf)); [right; lia|].
    destruct (Z.eqb_spec (indexOf buf value) (-1)); [left; reflexivity|right; lia].
Qed.

Lemma buf_length_app (a b : Buffer) : buf_length (a ++ b) = buf_length a + buf_length b.
Proof. unfold buf_length. rewrite length_app. lia. Qed.

Lemma buf_length_cons (x : byte) (b : Buffer) : buf_length (x :: b) = 1 + buf_length b.
Proof. unfold buf_length. simpl List.length. lia. Qed.

Lemma buf_length_nonneg (b : Buffer) : 0 <= buf_length b.
Proof. unfold buf_length. lia. Qed.

Lemma skipn_buf_length (pre l : Buffer) :
  skipn (Z.to_nat (buf_length pre)) (pre ++ l) = l.
Proof.
  unfold buf_length. rewrite Nat2Z.id, skipn_app, skipn_all, Nat.sub_diag.
  reflexivity.
Qed.

Lemma firstn_buf_length (a l : Buffer) :
  firstn (Z.to_nat (buf_length a)) (a ++ l) = a.
Proof.
  unfold buf_length. rewrite Nat2Z.id, firstn_app, Nat.sub_diag, firstn_all.
  simpl. apply app_nil_r.
Qed.

(** The slice that starts after a non-empty prefix. *)
Lemma subarray_middle (pre mid rest : Buffer) :
  0 < buf_length pre ->
  subarray (pre ++ mid ++ rest) (Int (buf_length pre))
    (Some (Int (buf_length pre + buf_length mid))) = mid.
Proof.
  intros Hpre. unfold subarray, adjustOffset.
  rewrite !buf_length_app.
  pose proof (buf_length_nonneg mid). pose proof (buf_length_nonneg rest).
  destruct (Z.eqb_spec (buf_length pre) 0); [lia|].
  destruct (Z.ltb_spec (buf_length pre) 0); [lia|].
  destruct (Z.eqb_spec (buf_length pre + buf_length mid) 0); [lia|].
  destruct (Z.ltb_spec (buf_length pre + buf_length mid) 0); [lia|].
  assert (Hs : (if buf_length pre <? buf_length pre + (buf_length mid + buf_length rest)
                then buf_length pre
                else buf_length pre + (buf_length mid + buf_length rest)) = buf_length pre).
  { destruct (Z.ltb_spec (buf_length pre) (buf_length pre + (buf_length mid + buf_length rest))); lia. }
  assert (He : (if buf_length pre + buf_length mid <? buf_length pre + (buf_length mid + buf_length rest)
                then buf_length pre + buf_length mid
                else buf_length pre + (buf_length mid + buf_length rest))
               = buf_length pre + buf_length mid).
  { destruct (Z.ltb_spec (buf_length pre + buf_length mid)
                (buf_length pre + (buf_length mid + buf_length rest))); lia. }
  rewrite Hs, He, skipn_buf_length.
  destruct (Z.ltb_spec (buf_length pre) (buf_length pre + buf_length mid)) as [Hlt|Hge].
  - replace (buf_length pre + buf_length mid - buf_length pre) with (buf_length mid) by lia.
    apply firstn_buf_length.
  - assert (buf_length mid = 0) by lia.
    destruct mid; [reflexivity|]. rewrite buf_length_cons in *.
    pose proof (buf_length_nonneg mid). lia.
Qed.

Lemma subarray_tail (pre rest : Buffer) :
  0 < buf_length pre ->
  subarray (pre ++ rest) (Int (buf_length pre)) None = rest.
Proof.
  intros Hpre. unfold subarray, adjustOffset.
  rewrite !buf_length_app.
  pose proof (buf_length_nonneg rest).
  destruct (Z.eqb_spec (buf_length pre) 0); [lia|].
  destruct (Z.ltb_spec (buf_length pre) 0); [lia|].
  assert (Hs : (if buf_length pre <? buf_length pre + buf_length rest
                then buf_length pre else buf_length pre + buf_length rest) = buf_length pre).
  { destruct (Z.ltb_spec (buf_length pre) (buf_length pre + buf_length rest)); lia. }
  rewrite Hs, skipn_buf_length.
  destruct (Z.ltb_spec (buf_length pre) (buf_length pre + buf_length rest)) as [Hlt|Hge].
  - replace (buf_length pre + buf_length rest - buf_length pre) with (buf_length rest) by lia.
    unfold buf_length. rewrite Nat2Z.id. apply firstn_all.
  - assert (buf_length rest = 0) by lia.
    destruct rest; [reflexivity|]. rewrite buf_length_cons in *.
    pose proof (buf_length_nonneg rest). lia.
Qed.

(** ** The marker after noise *)

Lemma startsWith_nth (value : Buffer) :
  forall buf, startsWith value buf = true ->
  forall i x, nth_error value i = Some x -> nth_error buf i = Some x.
Proof.
  induction value as [|v value IH]; intros buf H i x Hi.
  - destruct i; discriminate.
  - destruct buf as [|b buf]; [discriminate|]. simpl in H.
    apply andb_prop in H. destruct H as [Hv Hrest].
    apply Byte.byte_dec_bl in Hv. subst b.
    destruct i; simpl in *; [exact Hi|]. apply (IH buf Hrest i x Hi).
Qed.

Lemma startsWith_long (value : Buffer) :
  forall noise rest, (List.length value <= List.length noise)%nat ->
  startsWith value (noise ++ rest) = startsWith value noise.
Proof.
  induction value as [|v value IH]; intros noise rest Hlen; [reflexivity|].
  destruct noise as [|b noise]; simpl in Hlen; [lia|].
  simpl. rewrite IH by lia. reflexivity.
Qed.

(** The colon of the marker is its last byte. *)
Lemma separator_colon_last k :
  nth_error separator k = Some x3a -> k = 15%nat.
Proof.
  do 16 (destruct k as [|k]; [vm_compute; congruence|]).
  destruct k; discriminate.
Qed.

(** The marker does not overlap itself: it cannot start inside noise
    and end inside a marker that follows the noise. *)
Lemma startsWith_after_noise noise rest :
  noise <> [] ->
  startsWith separator (noise ++ separator ++ rest) = true ->
  startsWith separator noise = true.
Proof.
  intros Hne H.
  destruct (Nat.le_gt_cases (List.length separator) (List.length noise)) as [Hlong|Hshort].
  - rewrite startsWith_long in H by exact Hlong. exact H.
  - exfalso. change (List.length separator) with 16%nat in Hshort.
    pose proof (startsWith_nth separator _ H 15%nat x3a eq_refl) as H15.
    rewrite nth_error_app2 in H15 by lia.
    rewrite nth_error_app1 in H15 by (change (List.length separator) with 16%nat; lia).
    apply separator_colon_last in H15.
    destruct noise as [|b noise]; [congruence|]. cbn [List.length] in H15. lia.
Qed.

(** Noise that does not contain the marker does not hide the marker
    that follows it. *)
Lemma indexOf_after_noise noise rest :
  indexOf noise separator = -1 ->
  indexOf (noise ++ separator ++ rest) separator = buf_length noise.
Proof.
  induction noise as [|b noise IH]; intros Hno.
  - cbn [app]. apply indexOf_startsWith, startsWith_app.
  - rewrite indexOf_cons in Hno.
    destruct (startsWith separator (b :: noise)) eqn:Hs; [discriminate|].
    destruct (Z.eqb_spec (indexOf noise separator) (-1)) as [Hn|Hn].
    2:{ pose proof (indexOf_nonneg separator noise). lia. }
    change ((b :: noise) ++ separator ++ rest) with (b :: (noise ++ separator ++ rest)).
    rewrite indexOf_cons, (IH Hn).
    destruct (startsWith separator (b :: noise ++ separator ++ rest)) eqn:Hs'.
    + apply (startsWith_after_noise (b :: noise) rest) in Hs'; congruence.
    + rewrite buf_length_cons.
      destruct (Z.eqb_spec (buf_length noise) (-1)); [|reflexivity].
      pose proof (buf_length_nonneg noise). lia.
Qed.

(** ** One step of the parser *)

Section Parser.
Context {RT : Runtime}.

Lemma onMessage_outputBuffer status nonce data s :
  outputBuffer (onMessage status nonce data s) = outputBuffer s.
Proof.
  unfold onMessage.
  destruct (jsstring_eqb nonce (js "0")); simpl;
    destruct (Map_get nonce (waiters s)); try reflexivity;
    destruct status; reflexivity.
Qed.

(** A buffer in which a frame follows noise without a marker, the
    length field of the frame denoting the length of its payload: the
    parser hands the frame to [onMessage], drops the noise and the frame
    from the buffer, and goes on with the bytes after the frame. *)
Lemma processInput_frame_status fuel s noise nonce lengthField statusField payload rest :
  outputBuffer s = noise ++ frame nonce lengthField statusField payload ++ rest ->
  indexOf noise separator = -1 ->
  no_colon nonce -> no_colon lengthField -> no_colon statusField ->
  Number (map Byte.to_N lengthField) = Some (Int (buf_length payload)) ->
  (List.length nonce < fuel)%nat ->
  (List.length lengthField < fuel)%nat ->
  (List.length statusField < fuel)%nat ->
  processInput (S fuel) s
  = processInput fuel
      (set_outputBuffer rest
         (set_missingData None
            (onMessage
               (if is_one (Number (map Byte.to_N statusField))
                then status_error else status_success)
               (map Byte.to_N nonce) payload s))).
Proof.
  intros Hbuf Hnoise Hn Hl Hs HNl Fn Fl Fs.
  cbn [processInput]. rewrite Hbuf.
  set (buf := noise ++ frame nonce lengthField statusField payload ++ rest).
  assert (H0 : indexOf buf separator = buf_length noise).
  { unfold buf, frame. rewrite <- app_assoc. apply indexOf_after_noise, Hnoise. }
  rewrite H0.
  destruct (Z.eqb_spec (buf_length noise) (-1)) as [Hneg|_];
    [pose proof (buf_length_nonneg noise); lia|].
  set (pre1 := noise ++ separator).
  set (pre2 := pre1 ++ nonce ++ [x3a]).
  set (pre3 := pre2 ++ lengthField ++ [x3a]).
  set (pre4 := pre3 ++ statusField ++ [x3a]).
  assert (E1 : buf = pre1 ++ nonce ++ x3a
                     :: (lengthField ++ x3a :: statusField ++ x3a :: payload ++ rest)).
  { unfold buf, frame, pre1. repeat (rewrite <- ?app_assoc; cbn [app]). reflexivity. }
  assert (E2 : buf = pre2 ++ lengthField ++ x3a :: (statusField ++ x3a :: payload ++ rest)).
  { unfold buf, frame, pre2, pre1. repeat (rewrite <- ?app_assoc; cbn [app]). reflexivity. }
  assert (E3 : buf = pre3 ++ statusField ++ x3a :: (payload ++ rest)).
  { unfold buf, frame, pre3, pre2, pre1. repeat (rewrite <- ?app_assoc; cbn [app]). reflexivity. }
  assert (E4 : buf = pre4 ++ payload ++ rest).
  { unfold buf, frame, pre4, pre3, pre2, pre1.
    repeat (rewrite <- ?app_assoc; cbn [app]). reflexivity. }
  assert (L1 : buf_length noise + buf_length separator = buf_length pre1).
  { unfold pre1. rewrite buf_length_app. reflexivity. }
  assert (L2 : buf_length pre1 + buf_length nonce + 1 = buf_length pre2).
  { unfold pre2. rewrite !buf_length_app, buf_length_cons. change (buf_length []) with 0. lia. }
  assert (L3 : buf_length pre2 + buf_length lengthField + 1 = buf_length pre3).
  { unfold pre3. rewrite !buf_length_app, buf_length_cons. change (buf_length []) with 0. lia. }
  assert (L4 : buf_length pre3 + buf_length statusField + 0 + 1 = buf_length pre4).
  { unfold pre4. rewrite !buf_length_app, buf_length_cons. change (buf_length []) with 0. lia. }
  assert (P4 : 0 < buf_length pre4).
  { pose proof (buf_length_nonneg pre3). pose proof (buf_length_nonneg statusField). lia. }
  rewrite L1.
  rewrite E1 at 1. rewrite (scanField_field nonce Hn) by assumption.
  cbn [app]. rewrite L2.
  rewrite E2 at 1. rewrite (scanField_field lengthField Hl) by assumption.
  cbn [app]. rewrite L3.
  rewrite E3 at 1. rewrite (scanField_field statusField Hs) by assumption.
  cbn [app]. rewrite HNl.
  rewrite E4 at 1.
  rewrite !buf_length_app.
  assert (Hlt : jslt (Int (buf_length pre4 + (buf_length payload + buf_length rest)
                           - (buf_length pre3 + buf_length statusField + 0) - 1))
                  (Int (buf_length payload)) = false).
  { cbn [jslt]. apply Z.ltb_ge. pose proof (buf_length_nonneg rest). lia. }
  rewrite Hlt. cbn [jsadd].
  f_equal.
  replace (buf_length pre3 + buf_length statusField + 0 + 1 + buf_length payload)
    with (buf_length pre4 + buf_length payload) by lia.
  rewrite L4, E4, subarray_middle by assumption.
  cbn [outputBuffer set_missingData].
  rewrite onMessage_outputBuffer, Hbuf. fold buf.
  replace (buf_length pre3 + buf_length statusField + 0 + buf_length payload + 1)
    with (buf_length (pre4 ++ payload)) by (rewrite buf_length_app; lia).
  rewrite E4, app_assoc, subarray_tail
    by (rewrite buf_length_app; pose proof (buf_length_nonneg payload); lia).
  reflexivity.
Qed.

(** The same for a status field of which [Number] is known. *)
Lemma processInput_frame fuel s noise nonce lengthField statusField payload rest status :
  outputBuffer s = noise ++ frame nonce lengthField statusField payload ++ rest ->
  indexOf noise separator = -1 ->
  no_colon nonce -> no_colon lengthField -> no_colon statusField ->
  Number (map Byte.to_N lengthField) = Some (Int (buf_length payload)) ->
  Number (map Byte.to_N statusField) = Some status ->
  (List.length nonce < fuel)%nat ->
  (List.length lengthField < fuel)%nat ->
  (List.length statusField < fuel)%nat ->
  processInput (S fuel) s
  = processInput fuel
      (set_outputBuffer rest
         (set_missingData None
            (onMessage (if jsstricteq status (Int 1) then status_error else status_success)
               (map Byte.to_N nonce) payload s))).
Proof.
  intros Hbuf Hnoise Hn Hl Hs HNl HNs Fn Fl Fs.
  rewrite (processInput_frame_status fuel s noise nonce lengthField statusField payload rest)
    by assumption.
  rewrite HNs. reflexivity.
Qed.

End Parser.

(** ** The waiter map *)

Section MapLemmas.
Context {V : Type}.
Implicit Types (m : JsMap V) (k : jsstring) (v : V).

Lemma jsstring_eqb_eq (a b : jsstring) : jsstring_eqb a b = true <-> a = b.
Proof.
  unfold jsstring_eqb. destruct (list_eq_dec N.eq_dec a b); split; congruence.
Qed.

Lemma Map_get_In k m v : Map_get k m = Some v -> In v (Map_values m).
Proof.
  induction m as [|[k' v'] m IH]; simpl; [discriminate|].
  destruct (jsstring_eqb k k'); intros H.
  - left. congruence.
  - right. apply IH, H.
Qed.

Lemma Map_delete_subset k m v :
  In v (Map_values (Map_delete k m)) -> In v (Map_values m).
Proof.
  induction m as [|[k' v'] m IH]; simpl; [tauto|].
  destruct (jsstring_eqb k k'); simpl; intuition.
Qed.

Lemma Map_delete_NoDup k m :
  NoDup (Map_values m) -> NoDup (Map_values (Map_delete k m)).
Proof.
  induction m as [|[k' v'] m IH]; simpl; intros H; [constructor|].
  inversion H as [|? ? Hnot Hrest]; subst.
  destruct (jsstring_eqb k k'); [assumption|].
  simpl. constructor; [|apply IH, Hrest].
  intros Hin. apply Hnot. eapply Map_delete_subset, Hin.
Qed.

(** Once its key is deleted, a value that occurs once is gone. *)
Lemma Map_delete_gone k m v :
  Map_get k m = Some v -> NoDup (Map_values m) ->
  ~ In v (Map_values (Map_delete k m)).
Proof.
  induction m as [|[k' v'] m IH]; simpl; [discriminate|].
  intros Hget Hnd. inversion Hnd as [|? ? Hnot Hrest]; subst.
  destruct (jsstring_eqb k k').
  - inversion Hget; subst. assumption.
  - simpl. intros [->|Hin].
    + apply Hnot. eapply Map_get_In, Hget.
    + exact (IH Hget Hrest Hin).
Qed.

Lemma Map_set_subset k v m x :
  In x (Map_values (Map_set k v m)) -> x = v \/ In x (Map_values m).
Proof.
  induction m as [|[k' v'] m IH]; simpl.
  - intuition.
  - destruct (jsstring_eqb k k'); simpl; intuition.
Qed.

Lemma Map_set_NoDup k v m :
  NoDup (Map_values m) -> ~ In v (Map_values m) ->
  NoDup (Map_values (Map_set k v m)).
Proof.
  induction m as [|[k' v'] m IH]; simpl; intros Hnd Hv.
  - constructor; [tauto|constructor].
  - inversion Hnd as [|? ? Hnot Hrest]; subst.
    destruct (jsstring_eqb k k'); simpl.
    + constructor; [tauto|assumption].
    + constructor; [|apply IH; tauto].
      intros Hin. apply Map_set_subset in Hin. destruct Hin; subst; tauto.
Qed.

Lemma Map_get_set_same k v m : Map_get k (Map_set k v m) = Some v.
Proof.
  induction m as [|[k' v'] m IH]; simpl.
  - assert (H : jsstring_eqb k k = true) by (apply jsstring_eqb_eq; reflexivity).
    rewrite H. reflexivity.
  - destruct (jsstring_eqb k k') eqn:E; simpl; rewrite E; [reflexivity|apply IH].
Qed.
End MapLemmas.

(** ** What the handlers keep *)

Section Keeps.
Context {RT : Runtime}.

(** A property that [onMessage] and the two assignments of the parser
    keep holds wherever [processInput] stops. *)
Lemma processInput_keeps (P : State -> Prop) :
  (forall status nonce data s, P s -> P (onMessage status nonce data s)) ->
  (forall v s, P s -> P (set_missingData v s)) ->
  (forall v s, P s -> P (set_outputBuffer v s)) ->
  forall fuel s s', P s -> state_of (processInput fuel s) = Some s' -> P s'.
Proof.
  intros Hmsg Hmiss Hout.
  induction fuel as [|fuel IH]; intros s s' HP H.
  - simpl in H. congruence.
  - cbn [processInput] in H.
    destruct (indexOf (outputBuffer s) separator =? -1); [simpl in H; congruence|].
    destruct (scanField fuel (outputBuffer s) true _ []) as [[i1 nonceString]|];
      [|simpl in H; congruence].
    destruct (scanField fuel (outputBuffer s) true i1 []) as [[i2 lengthString]|];
      [|simpl in H; congruence].
    destruct (scanField fuel (outputBuffer s) false i2 []) as [[i3 statusString]|];
      [|simpl in H; congruence].
    destruct (Number lengthString) as [len|]; [|discriminate].
    destruct (jslt _ len).
    + simpl in H. inversion H; subst. apply Hmiss, HP.
    + eapply IH; [|exact H]. apply Hout, Hmiss, Hmsg, HP.
Qed.

Lemma onStdoutData_keeps (P : State -> Prop) :
  (forall status nonce data s, P s -> P (onMessage status nonce data s)) ->
  (forall v s, P s -> P (set_missingData v s)) ->
  (forall v s, P s -> P (set_outputBuffer v s)) ->
  (forall v s, P s -> P (set_unprocessedBuffers v s)) ->
  forall fuel data s s', P s -> state_of (onStdoutData fuel data s) = Some s' -> P s'.
Proof.
  intros Hmsg Hmiss Hout Hunp fuel data s s' HP H.
  unfold onStdoutData in H.
  set (s1 := set_unprocessedBuffers (unprocessedBuffers s ++ [data]) s) in *.
  assert (HP1 : P s1) by apply Hunp, HP.
  set (s2 := if indexOf data separator =? -1
             then match missingData s1 with
                  | Some dataMissing =>
                      set_missingData (Some (jssub dataMissing (Int (buf_length data)))) s1
                  | None => s1
                  end
             else s1) in *.
  assert (HP2 : P s2).
  { unfold s2. destruct (indexOf data separator =? -1); [|exact HP1].
    destruct (missingData s1); [apply Hmiss|]; exact HP1. }
  clearbody s2.
  destruct (_ && _).
  - simpl in H. inversion H; subst. exact HP2.
  - eapply (processInput_keeps P Hmsg Hmiss Hout); [|exact H].
    apply Hunp, Hout, Hunp, HP2.
Qed.

(** *** The lifecycle changes on [close] only *)

Lemma onMessage_runningStatus status nonce data s :
  runningStatus (onMessage status nonce data s) = runningStatus s.
Proof.
  unfold onMessage.
  destruct (jsstring_eqb nonce (js "0")); simpl;
    destruct (Map_get nonce (waiters s)); try reflexivity;
    destruct status; reflexivity.
Qed.

Lemma onStdoutData_runningStatus fuel data s s' :
  state_of (onStdoutData fuel data s) = Some s' ->
  runningStatus s' = runningStatus s.
Proof.
  apply (onStdoutData_keeps (fun x => runningStatus x = runningStatus s));
    intros; try rewrite onMessage_runningStatus; auto.
Qed.

End Keeps.

(** ** The bookkeeping of promises *)

Section Consistency.
Context {RT : Runtime}.

Lemma settled_ids_settle p c s : settled_ids (settle p c s) = settled_ids s ++ [p].
Proof. unfold settled_ids, settle. simpl. rewrite map_app. reflexivity. Qed.

Lemma settled_ids_take m p c s :
  settled_ids (set_waiters m (settle p c s)) = settled_ids s ++ [p].
Proof. apply settled_ids_settle. Qed.

Lemma NoDup_snoc (l : list promise) (p : promise) :
  NoDup l -> ~ In p l -> NoDup (l ++ [p]).
Proof.
  intros Hl Hp. apply NoDup_app; [assumption|repeat constructor; simpl; tauto|].
  intros a Ha [->|[]]. tauto.
Qed.

(** The state after the waiters [ws] were rejected one by one. *)
Lemma rejectAll_eq message ws :
  forall s,
    rejectAll message ws s
    = set_settled (settled s ++ map (fun w => (w, RejectWith message)) ws) s.
Proof.
  induction ws as [|w ws IH]; intros s.
  - destruct s. unfold set_settled. simpl. rewrite app_nil_r. reflexivity.
  - unfold rejectAll in *. simpl fold_left. rewrite IH.
    unfold settle, set_settled. simpl. rewrite <- app_assoc. reflexivity.
Qed.

(** Taking the waiter of a nonce out of the map and calling one of its
    callbacks. *)
Lemma consistent_take k w c s :
  consistent s -> Map_get k (waiters s) = Some w ->
  consistent (set_waiters (Map_delete k (waiters s)) (settle w c s)).
Proof.
  intros (Hnd & Hold & Hw & Hwp & Hdone) Hget.
  pose proof (Map_get_In _ _ _ Hget) as Hin.
  destruct (Hwp w Hin) as [Hlt Hpending].
  unfold consistent. cbn [waiters set_waiters settle set_settled nextPromise
                            resolve reject runningStatus].
  change (settled_ids (set_waiters (Map_delete k (waiters s)) (settle w c s)))
    with (settled_ids (settle w c s)).
  rewrite settled_ids_settle.
  split; [apply NoDup_snoc; assumption|].
  split.
  { intros p Hp. apply in_app_or in Hp. destruct Hp as [Hp|[<-|[]]]; auto. }
  split; [apply Map_delete_NoDup, Hw|].
  split.
  { intros p Hp. pose proof (Map_delete_subset _ _ _ Hp) as Hp'.
    destruct (Hwp p Hp') as [Hplt Hpp]. split; [assumption|].
    intros Hs. apply in_app_or in Hs. destruct Hs as [Hs|[<-|[]]]; [tauto|].
    exact (Map_delete_gone _ _ _ Hget Hw Hp). }
  intros p Hp. destruct (Hdone p Hp) as (Hplt & Hpw & Hpr).
  split; [assumption|]. split.
  { intros Hp'. apply Hpw. eapply Map_delete_subset, Hp'. }
  intros Hrun Hs. apply in_app_or in Hs. destruct Hs as [Hs|[<-|[]]]; tauto.
Qed.

Lemma consistent_onMessage status nonce data s :
  consistent s -> consistent (onMessage status nonce data s).
Proof.
  intros H. unfold onMessage.
  set (s0 := if jsstring_eqb nonce (js "0")
             then verboseAdvanced (js "compositor") (toString_utf8 data) s else s).
  assert (H0 : consistent s0) by (unfold s0; destruct (jsstring_eqb nonce (js "0")); exact H).
  clearbody s0.
  destruct (Map_get nonce (waiters s0)) as [w|] eqn:Hget; [|exact H0].
  destruct status; apply (consistent_take nonce w _ s0 H0 Hget).
Qed.

Lemma consistent_onStdoutData fuel data s s' :
  consistent s -> state_of (onStdoutData fuel data s) = Some s' -> consistent s'.
Proof.
  apply (onStdoutData_keeps consistent); intros; try apply consistent_onMessage; assumption.
Qed.

Lemma consistent_executeCommand nonce command params s p s' :
  consistent s -> executeCommand nonce command params s = inr (p, s') ->
  consistent s'.
Proof.
  intros (Hnd & Hold & Hw & Hwp & Hdone) H. unfold executeCommand in H.
  destruct (runningStatus s) eqn:Hrun; try discriminate.
  simpl in H. inversion H; subst p s'. clear H.
  unfold consistent.
  cbn [waiters set_waiters set_stdin set_nextPromise nextPromise resolve reject
         runningStatus settled].
  change (settled_ids (set_waiters _ _)) with (settled_ids s).
  split; [assumption|].
  split; [intros p Hp; specialize (Hold p Hp); lia|].
  assert (Hfresh : ~ In (nextPromise s) (Map_values (waiters s))).
  { intros Hin. destruct (Hwp _ Hin). lia. }
  split; [apply Map_set_NoDup; assumption|].
  split.
  { intros p Hp. apply Map_set_subset in Hp. destruct Hp as [->|Hp].
    - split; [lia|]. intros Hs. specialize (Hold _ Hs). lia.
    - destruct (Hwp p Hp). split; [lia|assumption]. }
  intros p Hp. destruct (Hdone p Hp) as (Hplt & Hpw & Hpr).
  split; [lia|]. split; [|intros _; apply Hpr; reflexivity].
  intros Hin. apply Map_set_subset in Hin. destruct Hin as [->|Hin]; [lia|tauto].
Qed.

Lemma consistent_finishCommands s s' :
  consistent s -> finishCommands s = inr s' -> consistent s'.
Proof.
  intros H E. unfold finishCommands in E.
  destruct (runningStatus s); try discriminate. inversion E; subst. exact H.
Qed.

Lemma consistent_waitForDone s : consistent s -> consistent (snd (waitForDone s)).
Proof.
  intros (Hnd & Hold & Hw & Hwp & Hdone). unfold waitForDone, newPromise.
  cbn [runningStatus set_nextPromise].
  assert (Hfresh : ~ In (nextPromise s) (settled_ids s)).
  { intros Hin. specialize (Hold _ Hin). lia. }
  assert (Hfresh' : ~ In (nextPromise s) (Map_values (waiters s))).
  { intros Hin. destruct (Hwp _ Hin). lia. }
  destruct (runningStatus s) eqn:Hrun; cbn [snd]; unfold consistent;
    cbn [waiters settle set_settled set_nextPromise set_resolve set_reject nextPromise
           resolve reject runningStatus].
  - (* running: the callbacks are stored *)
    change (settled_ids (set_reject _ _)) with (settled_ids s).
    split; [assumption|].
    split; [intros p Hp; specialize (Hold p Hp); lia|].
    split; [assumption|].
    split; [intros p Hp; destruct (Hwp p Hp); split; [lia|assumption]|].
    intros p [Hp|Hp]; inversion Hp; subst p; (split; [lia|tauto]).
  - (* quit with error: rejected at once *)
    change (settled_ids (set_settled _ _))
      with (settled_ids (settle (nextPromise s)
              (RejectWith (js "Compositor already quit: " ++ error)) s)).
    rewrite settled_ids_settle.
    split; [apply NoDup_snoc; assumption|].
    split.
    { intros p Hp. apply in_app_or in Hp. destruct Hp as [Hp|[<-|[]]]; [|lia].
      specialize (Hold p Hp). lia. }
    split; [assumption|].
    split.
    { intros p Hp. destruct (Hwp p Hp). split; [lia|].
      intros Hs. apply in_app_or in Hs. destruct Hs as [Hs|[<-|[]]]; tauto. }
    intros p Hp. destruct (Hdone p Hp) as (Hplt & Hpw & Hpr).
    split; [lia|]. split; [assumption|]. rewrite Hrun. discriminate.
  - (* quit without error: rejected at once *)
    change (settled_ids (set_settled _ _))
      with (settled_ids (settle (nextPromise s)
              (RejectWith (js "Compositor already quit")) s)).
    rewrite settled_ids_settle.
    split; [apply NoDup_snoc; assumption|].
    split.
    { intros p Hp. apply in_app_or in Hp. destruct Hp as [Hp|[<-|[]]]; [|lia].
      specialize (Hold p Hp). lia. }
    split; [assumption|].
    split.
    { intros p Hp. destruct (Hwp p Hp). split; [lia|].
      intros Hs. apply in_app_or in Hs. destruct Hs as [Hs|[<-|[]]]; tauto. }
    intros p Hp. destruct (Hdone p Hp) as (Hplt & Hpw & Hpr).
    split; [lia|]. split; [assumption|]. rewrite Hrun. discriminate.
Qed.

End Consistency.

(** ** The [close] event *)

Section CloseEvent.
Context {RT : Runtime}.

Lemma onClose_waiters code s : waiters (onClose code s) = [].
Proof.
  unfold onClose. destruct (is_zero code); rewrite rejectAll_eq; cbn.
  - reflexivity.
  - destruct (reject s); reflexivity.
Qed.

Lemma onClose_runningStatus code s :
  runningStatus (onClose code s)
  = if is_zero code then quit_without_error
    else quit_with_error (toString_utf8 (Buffer_concat (stderrChunks s))).
Proof.
  unfold onClose. destruct (is_zero code); rewrite rejectAll_eq; cbn.
  - destruct (resolve s); reflexivity.
  - destruct (reject s); reflexivity.
Qed.

(** The callback calls of the [close] handler, in their order. *)
Lemma onClose_settled code s :
  settled (onClose code s)
  = settled s
    ++ (if is_zero code then
          optional_call (resolve s) ResolveVoid
          ++ map (fun w => (w, RejectWith (js "Compositor already quit")))
               (Map_values (waiters s))
        else
          map (fun w => (w, RejectWith (panic_message s))) (Map_values (waiters s))
          ++ optional_call (reject s) (RejectWith (panic_message s))).
Proof.
  unfold onClose, panic_message. destruct (is_zero code); rewrite rejectAll_eq; cbn.
  - destruct (resolve s); cbn; [rewrite <- app_assoc|]; reflexivity.
  - destruct (reject s); cbn; rewrite <- ?app_assoc, ?app_nil_r; reflexivity.
Qed.

Lemma onClose_nextPromise code s : nextPromise (onClose code s) = nextPromise s.
Proof.
  unfold onClose. destruct (is_zero code); rewrite rejectAll_eq; cbn.
  - destruct (resolve s); reflexivity.
  - destruct (reject s); reflexivity.
Qed.

Lemma onClose_handles code s :
  resolve (onClose code s) = resolve s /\ reject (onClose code s) = reject s.
Proof.
  unfold onClose. destruct (is_zero code); rewrite rejectAll_eq; cbn.
  - destruct (resolve s) eqn:E; cbn; rewrite ?E; split; reflexivity.
  - destruct (reject s) eqn:E; cbn; rewrite ?E; split; reflexivity.
Qed.

Lemma map_fst_calls (c : call) (ws : list promise) :
  map fst (map (fun w => (w, c)) ws) = ws.
Proof. induction ws; simpl; congruence. Qed.

Lemma consistent_onClose code s :
  runningStatus s = running -> consistent s -> consistent (onClose code s).
Proof.
  intros Hrun (Hnd & Hold & Hw & Hwp & Hdone).
  unfold consistent, settled_ids.
  rewrite onClose_waiters, onClose_settled, onClose_nextPromise, onClose_runningStatus.
  destruct (onClose_handles code s) as [-> ->].
  rewrite map_app.
  set (calls := if is_zero code then _ else _).
  assert (Hcalls : NoDup (map fst calls)
                   /\ forall p, In p (map fst calls) ->
                        (p < nextPromise s)%nat /\ ~ In p (map fst (settled s))).
  { unfold calls. destruct (is_zero code); rewrite map_app, map_fst_calls.
    - destruct (resolve s) as [p|] eqn:Hp; cbn [optional_call map fst app].
      + destruct (Hdone p (or_introl eq_refl)) as (Hlt & Hnw & Hns).
        split; [constructor; assumption|].
        intros q [<-|Hq]; [split; [assumption|apply Hns, Hrun]|apply Hwp, Hq].
      + split; [assumption|]. intros q Hq. apply Hwp, Hq.
    - destruct (reject s) as [p|] eqn:Hp; cbn [optional_call map fst app].
      + destruct (Hdone p (or_intror eq_refl)) as (Hlt & Hnw & Hns).
        split; [apply NoDup_snoc; assumption|].
        intros q Hq. apply in_app_or in Hq.
        destruct Hq as [Hq|[<-|[]]]; [apply Hwp, Hq|split; [assumption|apply Hns, Hrun]].
      + rewrite app_nil_r. split; [assumption|]. intros q Hq. apply Hwp, Hq. }
  destruct Hcalls as [Hc1 Hc2].
  split.
  { apply NoDup_app; [assumption|assumption|].
    intros a Ha Hb. destruct (Hc2 a Hb). tauto. }
  split.
  { intros p Hp. apply in_app_or in Hp. destruct Hp as [Hp|Hp]; [auto|apply Hc2, Hp]. }
  split; [constructor|].
  split; [intros p []|].
  intros p Hp. destruct (Hdone p Hp) as (Hlt & _ & _).
  split; [assumption|]. split; [intros []|].
  destruct (is_zero code); discriminate.
Qed.

End CloseEvent.

(** ** Runs *)

Section Runs.
Context {RT : Runtime}.

Lemma run_app fuel t1 : forall s s1 t2,
  run fuel s t1 = Returned s1 -> run fuel s (t1 ++ t2) = run fuel s1 t2.
Proof.
  induction t1 as [|e t1 IH]; intros s s1 t2 H; simpl in *.
  - inversion H; reflexivity.
  - destruct (step fuel s e); try discriminate. apply IH, H.
Qed.

(** Induction over a run: a property that every step of the run keeps
    holds where the run stops.  The step may use that the events still
    to come satisfy [ok]. *)
Lemma run_keeps (P : State -> Prop) (ok : event -> bool) :
  (forall fuel s e s', P s -> ok e = true ->
     state_of (step fuel s e) = Some s' -> P s') ->
  forall fuel t s s',
    forallb ok t = true -> P s -> state_of (run fuel s t) = Some s' -> P s'.
Proof.
  intros Hstep fuel t. induction t as [|e t IH]; intros s s' Hok HP H; simpl in *.
  - inversion H; subst. exact HP.
  - apply andb_prop in Hok. destruct Hok as [He Ht].
    destruct (step fuel s e) as [s1|s1|] eqn:E.
    + apply (IH s1 s' Ht); [|exact H].
      apply (Hstep fuel s e s1 HP He). rewrite E. reflexivity.
    + apply (Hstep fuel s e s' HP He). rewrite E. exact H.
    + discriminate.
Qed.

Lemma forallb_all_true (t : list event) : forallb (fun _ => true) t = true.
Proof. induction t; simpl; auto. Qed.

(** *** The lifecycle *)

Lemma step_runningStatus fuel s e s' :
  is_Close e = false -> state_of (step fuel s e) = Some s' ->
  runningStatus s' = runningStatus s.
Proof.
  intros Hc H. destruct e; simpl in *; try discriminate.
  - eapply onStdoutData_runningStatus, H.
  - inversion H; reflexivity.
  - destruct (executeCommand nonce command params s) as [m|[p s1]] eqn:E;
      simpl in H; inversion H; subst; [reflexivity|].
    unfold executeCommand in E. destruct (runningStatus s) eqn:R; try discriminate.
    simpl in E. inversion E; subst. simpl. congruence.
  - destruct (finishCommands s) as [m|s1] eqn:E; simpl in H; inversion H; subst;
      [reflexivity|].
    unfold finishCommands in E. destruct (runningStatus s) eqn:R; try discriminate.
    inversion E; subst. simpl. congruence.
  - inversion H; subst. unfold waitForDone, newPromise. cbn [runningStatus set_nextPromise].
    destruct (runningStatus s) eqn:R; simpl; exact R.
Qed.

(** *** Callback calls are never taken back *)

Lemma onMessage_settled_mono c status nonce data s :
  In c (settled s) -> In c (settled (onMessage status nonce data s)).
Proof.
  intros H. unfold onMessage.
  destruct (jsstring_eqb nonce (js "0")); simpl;
    destruct (Map_get nonce (waiters s)); try exact H;
    destruct status; simpl; apply in_or_app; left; exact H.
Qed.

Lemma step_settled_mono c fuel s e s' :
  In c (settled s) -> state_of (step fuel s e) = Some s' -> In c (settled s').
Proof.
  intros Hin H. destruct e; simpl in H.
  - revert H. apply (onStdoutData_keeps (fun x => In c (settled x)));
      intros; try apply onMessage_settled_mono; assumption.
  - inversion H; subst. exact Hin.
  - inversion H; subst. rewrite onClose_settled. apply in_or_app. left. exact Hin.
  - destruct (executeCommand nonce command params s) as [m|[p s1]] eqn:E;
      simpl in H; inversion H; subst; [exact Hin|].
    unfold executeCommand in E. destruct (runningStatus s); try discriminate.
    simpl in E. inversion E; subst. exact Hin.
  - destruct (finishCommands s) as [m|s1] eqn:E; simpl in H; inversion H; subst;
      [exact Hin|].
    unfold finishCommands in E. destruct (runningStatus s); try discriminate.
    inversion E; subst. exact Hin.
  - inversion H; subst. unfold waitForDone, newPromise. simpl.
    destruct (runningStatus s); simpl; try exact Hin; apply in_or_app; left; exact Hin.
Qed.

Lemma run_settled_mono c fuel t s s' :
  In c (settled s) -> state_of (run fuel s t) = Some s' -> In c (settled s').
Proof.
  intros Hin. apply (run_keeps (fun x => In c (settled x)) (fun _ => true)).
  - intros f x e x' HP _. apply step_settled_mono, HP.
  - apply forallb_all_true.
  - exact Hin.
Qed.

(** *** After the child has closed *)

Lemma quit_as_onMessage rs status nonce data s :
  quit_as rs s -> quit_as rs (onMessage status nonce data s).
Proof.
  intros (Hrs & Hst & Hw). unfold onMessage.
  destruct (jsstring_eqb nonce (js "0")); cbn [waiters verboseAdvanced set_verboseLog];
    rewrite Hw; cbn [Map_get]; repeat split; assumption.
Qed.

Lemma quit_as_step rs fuel s e s' :
  quit_as rs s -> is_Close e = false ->
  state_of (step fuel s e) = Some s' -> quit_as rs s'.
Proof.
  intros HQ Hc H. destruct e; simpl in *; try discriminate.
  - revert H. apply (onStdoutData_keeps (quit_as rs));
      intros; try apply quit_as_onMessage; assumption.
  - inversion H; subst. exact HQ.
  - unfold executeCommand in H. destruct (runningStatus s) eqn:R.
    + destruct HQ as (Hrs & Hst & _). congruence.
    + simpl in H. inversion H; subst s'. exact HQ.
    + simpl in H. inversion H; subst s'. exact HQ.
  - unfold finishCommands in H. destruct (runningStatus s) eqn:R.
    + destruct HQ as (Hrs & Hst & _). congruence.
    + simpl in H. inversion H; subst s'. exact HQ.
    + simpl in H. inversion H; subst s'. exact HQ.
  - inversion H; subst s'. unfold waitForDone, newPromise.
    cbn [runningStatus set_nextPromise].
    destruct (runningStatus s) eqn:R.
    + destruct HQ as (Hrs & Hst & _). congruence.
    + exact HQ.
    + exact HQ.
Qed.

Lemma closes_0_forallb t : closes t = O -> forallb (fun e => negb (is_Close e)) t = true.
Proof.
  induction t as [|e t IH]; [reflexivity|]. destruct e; simpl; auto; discriminate.
Qed.

Lemma quit_as_run rs fuel t s s' :
  quit_as rs s -> closes t = O -> state_of (run fuel s t) = Some s' -> quit_as rs s'.
Proof.
  intros HQ Hc. apply (run_keeps (quit_as rs) (fun e => negb (is_Close e))).
  - intros f x e x' HP He. apply quit_as_step; [exact HP|].
    destruct (is_Close e); [discriminate|reflexivity].
  - apply closes_0_forallb, Hc.
  - exact HQ.
Qed.

End Runs.

(** ** Every promise has at most one callback call *)

Section AtMostOnce.
Context {RT : Runtime}.

Lemma consistent_step fuel s e s' :
  consistent s -> (is_Close e = true -> runningStatus s = running) ->
  state_of (step fuel s e) = Some s' -> consistent s'.
Proof.
  intros HC Hclose H. destruct e; simpl in H.
  - eapply consistent_onStdoutData; eassumption.
  - inversion H; subst. exact HC.
  - inversion H; subst. apply consistent_onClose; [apply Hclose; reflexivity|exact HC].
  - destruct (executeCommand nonce command params s) as [m|[p s1]] eqn:E;
      simpl in H; inversion H; subst; [exact HC|].
    eapply consistent_executeCommand; eassumption.
  - destruct (finishCommands s) as [m|s1] eqn:E; simpl in H; inversion H; subst;
      [exact HC|].
    eapply consistent_finishCommands; eassumption.
  - inversion H; subst. apply consistent_waitForDone, HC.
Qed.

Lemma consistent_run fuel t : forall s s',
  consistent s -> (closes t <= closes_left s)%nat ->
  state_of (run fuel s t) = Some s' -> consistent s'.
Proof.
  induction t as [|e t IH]; intros s s' HC Hb H; simpl in H.
  - inversion H; subst. exact HC.
  - assert (Hclose : is_Close e = true -> runningStatus s = running).
    { intros He. destruct e; try discriminate. simpl in Hb. unfold closes_left in Hb.
      destruct (runningStatus s); [reflexivity|lia|lia]. }
    destruct (step fuel s e) as [s1|s1|] eqn:E; [|inversion H; subst|discriminate].
    + assert (HC1 : consistent s1).
      { apply (consistent_step fuel s e s1 HC Hclose). rewrite E. reflexivity. }
      apply (IH s1 s' HC1); [|exact H].
      destruct (is_Close e) eqn:He.
      * destruct e; try discriminate. simpl in Hb. simpl in E. inversion E; subst s1.
        unfold closes_left in *. rewrite onClose_runningStatus.
        destruct (runningStatus s); destruct (is_zero code); lia.
      * assert (R : runningStatus s1 = runningStatus s).
        { apply (step_runningStatus fuel s e s1 He). rewrite E. reflexivity. }
        unfold closes_left in *. rewrite R.
        destruct e; simpl in Hb; try discriminate; exact Hb.
    + apply (consistent_step fuel s e s' HC Hclose). rewrite E. reflexivity.
Qed.

Lemma consistent_initial : consistent initial.
Proof.
  unfold consistent, initial, settled_ids; simpl.
  split; [constructor|]. split; [intros p []|].
  split; [constructor|]. split; [intros p []|].
  intros p [H|H]; discriminate.
Qed.

Lemma reachable_consistent s : reachable s -> consistent s.
Proof.
  intros (fuel & t & Hc & H).
  apply (consistent_run fuel t initial s consistent_initial Hc).
  rewrite H. reflexivity.
Qed.

(** C5.  In every run of a compositor whose child closes at most once,
    whatever frames arrive (duplicates of a nonce included) and whenever
    the child closes, no promise gets a second callback call: the caller
    of [executeCommand] is delivered at most one resolution, success or
    failure.  This holds where the run returns and also where a handler
    is still running. *)
Theorem at_most_one_resolution fuel t s :
  (closes t <= 1)%nat ->
  state_of (run fuel initial t) = Some s ->
  forall p : promise, (count_occ Nat.eq_dec (settled_ids s) p <= 1)%nat.
Proof.
  intros Hc H.
  assert (HC : consistent s) by exact (consistent_run fuel t initial s consistent_initial Hc H).
  destruct HC as (Hnd & _). apply NoDup_count_occ, Hnd.
Qed.

End AtMostOnce.

(** ** After the child has closed *)

Section AfterClose.
Context {RT : Runtime}.

(** C2.  From the [close] event on, whatever happens next (the child
    closes once): the waiter map is empty, every waiter that was pending
    when the child closed has been rejected, and [executeCommand] throws
    at once, "Compositor already quit" after exit code 0 and otherwise
    "Compositor quit: " followed by the stderr output accumulated until
    the close. *)
Theorem after_close fuel s code post s' :
  closes post = O ->
  state_of (run fuel s (Close code :: post)) = Some s' ->
  waiters s' = []
  /\ (forall nonce w, Map_get nonce (waiters s) = Some w ->
        In (w, RejectWith (if is_zero code then js "Compositor already quit"
                           else panic_message s))
           (settled s'))
  /\ (forall nonce command params,
        executeCommand nonce command params s'
        = inl (if is_zero code then js "Compositor already quit"
               else js "Compositor quit: "
                    ++ toString_utf8 (Buffer_concat (stderrChunks s)))).
Proof.
  intros Hpost H. cbn [run step] in H.
  set (rs := if is_zero code then quit_without_error
             else quit_with_error (toString_utf8 (Buffer_concat (stderrChunks s)))).
  assert (HQ : quit_as rs (onClose code s)).
  { unfold quit_as. rewrite onClose_runningStatus, onClose_waiters.
    repeat split. unfold rs. destruct (is_zero code); discriminate. }
  destruct (quit_as_run rs fuel post _ s' HQ Hpost H) as (_ & Hst & Hw).
  split; [exact Hw|]. split.
  - intros nonce w Hget.
    apply (run_settled_mono _ fuel post (onClose code s) s'); [|exact H].
    rewrite onClose_settled. apply in_or_app. right.
    pose proof (Map_get_In _ _ _ Hget) as Hin.
    destruct (is_zero code); apply in_or_app; [right|left];
      apply (in_map (fun w => (w, RejectWith _))), Hin.
  - intros nonce command params. unfold executeCommand. rewrite Hst.
    unfold rs. destruct (is_zero code); reflexivity.
Qed.

End AfterClose.

(** ** [waitForDone] *)

Section WaitForDone.
Context {RT : Runtime}.

Lemma fate_pending p s : ~ In p (settled_ids s) -> fate p s = None.
Proof.
  unfold fate, settled_ids. induction (settled s) as [|[q c] l IH]; simpl; [reflexivity|].
  intros H. destruct (Nat.eqb_spec q p); [tauto|]. apply IH. tauto.
Qed.

Lemma find_call_app p (l l' : list (promise * call)) :
  ~ In p (map fst l) ->
  find (fun c => Nat.eqb (fst c) p) (l ++ l') = find (fun c => Nat.eqb (fst c) p) l'.
Proof.
  induction l as [|[q c] l IH]; simpl; [reflexivity|].
  intros H. destruct (Nat.eqb_spec q p); [tauto|]. apply IH. tauto.
Qed.

Lemma find_call_here p c (l : list (promise * call)) :
  find (fun c => Nat.eqb (fst c) p) ((p, c) :: l) = Some (p, c).
Proof. simpl. rewrite Nat.eqb_refl. reflexivity. Qed.

(** The promise whose callbacks are stored is settled by the [close]
    event: resolved after exit code 0, rejected otherwise. *)
Lemma stored_handle_settles p code s :
  consistent s -> runningStatus s = running ->
  resolve s = Some p -> reject s = Some p ->
  fate p (onClose code s)
  = Some (if is_zero code then ResolveVoid else RejectWith (panic_message s)).
Proof.
  intros (_ & _ & _ & _ & Hdone) Hrun Hres Hrej.
  destruct (Hdone p (or_introl Hres)) as (_ & Hnw & Hns). specialize (Hns Hrun).
  unfold fate. rewrite onClose_settled, find_call_app by exact Hns.
  rewrite Hres, Hrej. destruct (is_zero code); cbn [optional_call app].
  - rewrite find_call_here. reflexivity.
  - rewrite find_call_app by (rewrite map_fst_calls; exact Hnw).
    rewrite find_call_here. reflexivity.
Qed.

Lemma ordinary_step_handles fuel s e s' :
  ordinary e = true -> state_of (step fuel s e) = Some s' ->
  resolve s' = resolve s /\ reject s' = reject s.
Proof.
  intros Ho H. destruct e; simpl in *; try discriminate.
  - revert H.
    apply (onStdoutData_keeps (fun x => resolve x = resolve s /\ reject x = reject s));
      auto.
    intros status nonce d x Hx. unfold onMessage.
    destruct (jsstring_eqb nonce (js "0")); simpl;
      destruct (Map_get nonce (waiters x)); try exact Hx; destruct status; exact Hx.
  - inversion H; subst. split; reflexivity.
  - destruct (executeCommand nonce command params s) as [m|[p s1]] eqn:E;
      simpl in H; inversion H; subst; [split; reflexivity|].
    unfold executeCommand in E. destruct (runningStatus s); try discriminate.
    simpl in E. inversion E; subst. split; reflexivity.
  - destruct (finishCommands s) as [m|s1] eqn:E; simpl in H; inversion H; subst;
      [split; reflexivity|].
    unfold finishCommands in E. destruct (runningStatus s); try discriminate.
    inversion E; subst. split; reflexivity.
Qed.

Lemma ordinary_not_Close e : ordinary e = true -> is_Close e = false.
Proof. unfold ordinary. destruct (is_Close e), (is_WaitForDone e); simpl; congruence. Qed.

Lemma ordinary_closes t : forallb ordinary t = true -> closes t = O.
Proof.
  induction t as [|e t IH]; [reflexivity|]. simpl. intros H.
  apply andb_prop in H. destruct H as [He Ht].
  destruct e; try (apply IH, Ht). discriminate.
Qed.

(** Ordinary events leave the child running and the stored callbacks in
    place. *)
Lemma ordinary_run fuel t s s' :
  forallb ordinary t = true -> run fuel s t = Returned s' ->
  runningStatus s' = runningStatus s /\ resolve s' = resolve s /\ reject s' = reject s.
Proof.
  intros Ho H.
  apply (run_keeps
           (fun x => runningStatus x = runningStatus s
                     /\ resolve x = resolve s /\ reject x = reject s)
           ordinary) with (fuel := fuel) (t := t) (s := s); auto.
  - intros f x e x' (H1 & H2 & H3) He Hx.
    destruct (ordinary_step_handles f x e x' He Hx) as [H4 H5].
    rewrite (step_runningStatus f x e x' (ordinary_not_Close e He) Hx).
    repeat split; congruence.
  - rewrite H. reflexivity.
Qed.

End WaitForDone.

Section WaitForDoneClaims.
Context {RT : Runtime}.

Lemma waitForDone_promise s : fst (waitForDone s) = nextPromise s.
Proof. unfold waitForDone, newPromise. simpl. destruct (runningStatus s); reflexivity. Qed.

Lemma waitForDone_running s :
  runningStatus s = running ->
  snd (waitForDone s)
  = set_reject (Some (nextPromise s))
      (set_resolve (Some (nextPromise s)) (set_nextPromise (S (nextPromise s)) s)).
Proof. intros H. unfold waitForDone, newPromise. simpl. rewrite H. reflexivity. Qed.

Lemma fresh_not_settled s : consistent s -> ~ In (nextPromise s) (settled_ids s).
Proof. intros (_ & Hold & _) Hin. specialize (Hold _ Hin). lia. Qed.

(** Once the callbacks of promise [p] are stored, ordinary events leave
    them in place and the [close] event calls one of them. *)
Lemma stored_handle_run p fuel mid code s1 s2 :
  consistent s1 -> runningStatus s1 = running ->
  resolve s1 = Some p -> reject s1 = Some p ->
  forallb ordinary mid = true -> run fuel s1 mid = Returned s2 ->
  fate p (onClose code s2)
  = Some (if is_zero code then ResolveVoid else RejectWith (panic_message s2)).
Proof.
  intros HC1 Hrun Hres Hrej Hmid Hrun2.
  assert (HC2 : consistent s2).
  { apply (consistent_run fuel mid s1 s2 HC1).
    - rewrite (ordinary_closes mid Hmid). lia.
    - rewrite Hrun2. reflexivity. }
  destruct (ordinary_run fuel mid s1 s2 Hmid Hrun2) as (R & Hres2 & Hrej2).
  apply stored_handle_settles; congruence.
Qed.

(** C8.  The promise that [waitForDone] returns
    - is rejected with "Compositor already quit" when the child has
      already exited with code 0 (rejected, not resolved);
    - is rejected with "Compositor already quit: " and the stored
      stderr text when the child has already crashed, the stored text
      being the stderr output decoded at the [close] event;
    - is pending when the child runs, and then, after any events other
      than a further [waitForDone], the [close] event resolves it for
      exit code 0 and otherwise rejects it with "Compositor panicked: "
      and the stderr output. *)
Theorem waitForDone_outcomes s :
  reachable s ->
  let p := fst (waitForDone s) in
  let s1 := snd (waitForDone s) in
  match runningStatus s with
  | quit_without_error =>
      fate p s1 = Some (RejectWith (js "Compositor already quit"))
  | quit_with_error stderr =>
      fate p s1 = Some (RejectWith (js "Compositor already quit: " ++ stderr))
  | running =>
      fate p s1 = None
      /\ (forall fuel mid code s2,
            forallb ordinary mid = true -> run fuel s1 mid = Returned s2 ->
            fate p (onClose code s2)
            = Some (if is_zero code then ResolveVoid
                    else RejectWith (panic_message s2)))
      /\ (forall code, is_zero code = false ->
            runningStatus (onClose code s)
            = quit_with_error (toString_utf8 (Buffer_concat (stderrChunks s))))
  end.
Proof.
  intros Hreach p s1. pose proof (reachable_consistent s Hreach) as HC.
  pose proof (fresh_not_settled s HC) as Hfresh.
  assert (Hp : p = nextPromise s) by apply waitForDone_promise.
  destruct (runningStatus s) eqn:Hrun.
  - assert (Hs1 : s1 = set_reject (Some (nextPromise s))
                         (set_resolve (Some (nextPromise s))
                            (set_nextPromise (S (nextPromise s)) s)))
      by (apply waitForDone_running, Hrun).
    split; [|split].
    + apply fate_pending. rewrite Hp, Hs1. exact Hfresh.
    + intros fuel mid code s2 Hmid Hrun2.
      apply (stored_handle_run p fuel mid code s1 s2); try assumption.
      * apply consistent_waitForDone, HC.
      * rewrite Hs1. exact Hrun.
      * rewrite Hs1, Hp. reflexivity.
      * rewrite Hs1, Hp. reflexivity.
    + intros code Hz. rewrite onClose_runningStatus, Hz. reflexivity.
  - unfold s1, waitForDone, newPromise. cbn [runningStatus set_nextPromise].
    rewrite Hrun. cbn [snd]. unfold fate, settle. cbn [settled set_settled set_nextPromise].
    rewrite Hp, find_call_app by exact Hfresh.
    rewrite find_call_here. reflexivity.
  - unfold s1, waitForDone, newPromise. cbn [runningStatus set_nextPromise].
    rewrite Hrun. cbn [snd]. unfold fate, settle. cbn [settled set_settled set_nextPromise].
    rewrite Hp, find_call_app by exact Hfresh.
    rewrite find_call_here. reflexivity.
Qed.

(** *** A promise that a second call has replaced *)

Lemma done_promise_onMessage p status nonce data s :
  done_promise p s -> done_promise p (onMessage status nonce data s).
Proof.
  intros H. unfold onMessage.
  set (s0 := if jsstring_eqb nonce (js "0")
             then verboseAdvanced (js "compositor") (toString_utf8 data) s else s).
  assert (H0 : done_promise p s0) by (unfold s0; destruct (jsstring_eqb nonce (js "0")); exact H).
  clearbody s0. destruct H0 as (Hlt & Hnw & Hns).
  destruct (Map_get nonce (waiters s0)) as [w|] eqn:Hget; [|repeat split; assumption].
  pose proof (Map_get_In _ _ _ Hget) as Hin.
  assert (Hgoal : forall c, done_promise p
                    (set_waiters (Map_delete nonce (waiters (settle w c s0))) (settle w c s0))).
  { intros c. unfold done_promise. rewrite settled_ids_take.
    cbn [waiters set_waiters settle set_settled nextPromise runningStatus].
    split; [exact Hlt|]. split.
    - intros Hp. apply Hnw. eapply Map_delete_subset, Hp.
    - intros Hrun Hs. apply in_app_or in Hs. destruct Hs as [Hs|[<-|[]]]; tauto. }
  destruct status; apply Hgoal.
Qed.

Lemma done_promise_step p fuel s e s' :
  done_promise p s -> state_of (step fuel s e) = Some s' -> done_promise p s'.
Proof.
  intros HD H. destruct e; simpl in H.
  - revert H. apply (onStdoutData_keeps (done_promise p));
      intros; try apply done_promise_onMessage; assumption.
  - inversion H; subst. exact HD.
  - inversion H; subst. destruct HD as (Hlt & _ & _). unfold done_promise.
    rewrite onClose_nextPromise, onClose_waiters, onClose_runningStatus.
    split; [exact Hlt|]. split; [intros []|].
    destruct (is_zero code); discriminate.
  - destruct HD as (Hlt & Hnw & Hns).
    unfold executeCommand in H. destruct (runningStatus s) eqn:R;
      simpl in H; inversion H; subst s'; unfold done_promise; try rewrite R;
      try (repeat split; solve [assumption | discriminate]).
    cbn [nextPromise set_waiters waiters set_stdin set_nextPromise runningStatus].
    split; [lia|]. split.
    + intros Hin. apply Map_set_subset in Hin. destruct Hin as [->|Hin]; [lia|tauto].
    + intros _. apply Hns. reflexivity.
  - destruct HD as (Hlt & Hnw & Hns).
    unfold finishCommands in H. destruct (runningStatus s) eqn:R;
      simpl in H; inversion H; subst s'; unfold done_promise; try rewrite R;
      try (repeat split; solve [assumption | discriminate]).
    cbn. split; [exact Hlt|]. split; [exact Hnw|]. intros _. apply Hns. reflexivity.
  - destruct HD as (Hlt & Hnw & Hns). inversion H; subst s'.
    unfold waitForDone, newPromise. cbn [runningStatus set_nextPromise].
    destruct (runningStatus s) eqn:R; cbn [snd]; unfold done_promise; cbn.
    + split; [lia|]. split; [exact Hnw|]. intros _. apply Hns. reflexivity.
    + rewrite R. split; [lia|]. split; [exact Hnw|]. discriminate.
    + rewrite R. split; [lia|]. split; [exact Hnw|]. discriminate.
Qed.

Lemma abandoned_onMessage p status nonce data s :
  abandoned p s -> abandoned p (onMessage status nonce data s).
Proof.
  intros H. unfold onMessage.
  set (s0 := if jsstring_eqb nonce (js "0")
             then verboseAdvanced (js "compositor") (toString_utf8 data) s else s).
  assert (H0 : abandoned p s0) by (unfold s0; destruct (jsstring_eqb nonce (js "0")); exact H).
  clearbody s0. destruct H0 as (Hlt & Hnw & Hres & Hrej & Hns).
  destruct (Map_get nonce (waiters s0)) as [w|] eqn:Hget; [|repeat split; assumption].
  pose proof (Map_get_In _ _ _ Hget) as Hin.
  assert (Hgoal : forall c, abandoned p
                    (set_waiters (Map_delete nonce (waiters (settle w c s0))) (settle w c s0))).
  { intros c. unfold abandoned. rewrite settled_ids_take.
    cbn [waiters set_waiters settle set_settled nextPromise resolve reject].
    split; [exact Hlt|]. split.
    - intros Hp. apply Hnw. eapply Map_delete_subset, Hp.
    - split; [exact Hres|]. split; [exact Hrej|].
      intros Hs. apply in_app_or in Hs. destruct Hs as [Hs|[<-|[]]]; tauto. }
  destruct status; apply Hgoal.
Qed.

Lemma abandoned_step p fuel s e s' :
  abandoned p s -> state_of (step fuel s e) = Some s' -> abandoned p s'.
Proof.
  intros HA H. destruct e; simpl in H.
  - revert H. apply (onStdoutData_keeps (abandoned p));
      intros; try apply abandoned_onMessage; assumption.
  - inversion H; subst. exact HA.
  - inversion H; subst. destruct HA as (Hlt & Hnw & Hres & Hrej & Hns).
    unfold abandoned, settled_ids.
    rewrite onClose_nextPromise, onClose_waiters, onClose_settled.
    destruct (onClose_handles code s) as [-> ->].
    split; [exact Hlt|]. split; [intros []|]. split; [exact Hres|]. split; [exact Hrej|].
    rewrite map_app. intros Hin. apply in_app_or in Hin. destruct Hin as [Hin|Hin]; [tauto|].
    destruct (is_zero code); rewrite map_app, map_fst_calls in Hin;
      apply in_app_or in Hin; destruct Hin as [Hin|Hin]; try tauto.
    + destruct (resolve s) as [q|]; simpl in Hin; [|tauto].
      destruct Hin as [<-|[]]. congruence.
    + destruct (reject s) as [q|]; simpl in Hin; [|tauto].
      destruct Hin as [<-|[]]. congruence.
  - destruct HA as (Hlt & Hnw & Hres & Hrej & Hns).
    unfold executeCommand in H. destruct (runningStatus s) eqn:R;
      simpl in H; inversion H; subst s'; unfold abandoned;
      try (repeat split; assumption).
    cbn [nextPromise set_waiters waiters set_stdin set_nextPromise resolve reject].
    split; [lia|]. split.
    + intros Hin. apply Map_set_subset in Hin. destruct Hin as [->|Hin]; [lia|tauto].
    + repeat split; assumption.
  - unfold finishCommands in H. destruct (runningStatus s) eqn:R;
      simpl in H; inversion H; subst s'; exact HA.
  - destruct HA as (Hlt & Hnw & Hres & Hrej & Hns). inversion H; subst s'.
    unfold waitForDone, newPromise. cbn [runningStatus set_nextPromise].
    destruct (runningStatus s) eqn:R; cbn [snd]; unfold abandoned.
    + cbn. split; [lia|]. split; [exact Hnw|].
      split; [intros E; inversion E; lia|]. split; [intros E; inversion E; lia|exact Hns].
    + cbn [nextPromise settle set_settled set_nextPromise waiters resolve reject].
      change (settled_ids (set_settled _ _))
        with (settled_ids (settle (nextPromise s)
                (RejectWith (js "Compositor already quit: " ++ error)) s)).
      rewrite settled_ids_settle.
      split; [lia|]. split; [exact Hnw|]. split; [exact Hres|]. split; [exact Hrej|].
      intros Hin. apply in_app_or in Hin. destruct Hin as [Hin|[E|[]]]; [tauto|lia].
    + cbn [nextPromise settle set_settled set_nextPromise waiters resolve reject].
      change (settled_ids (set_settled _ _))
        with (settled_ids (settle (nextPromise s)
                (RejectWith (js "Compositor already quit")) s)).
      rewrite settled_ids_settle.
      split; [lia|]. split; [exact Hnw|]. split; [exact Hres|]. split; [exact Hrej|].
      intros Hin. apply in_app_or in Hin. destruct Hin as [Hin|[E|[]]]; [tauto|lia].
Qed.

End WaitForDoneClaims.

Section SecondCall.
Context {RT : Runtime}.

Lemma running_run fuel t s s' :
  closes t = O -> state_of (run fuel s t) = Some s' ->
  runningStatus s' = runningStatus s.
Proof.
  intros Hc.
  apply (run_keeps (fun x => runningStatus x = runningStatus s)
           (fun e => negb (is_Close e))); auto.
  - intros f x e x' HP He Hx. rewrite <- HP.
    apply (step_runningStatus f x e x'); [|exact Hx].
    destruct (is_Close e); [discriminate|reflexivity].
  - apply closes_0_forallb, Hc.
Qed.

(** C10.  A call of [waitForDone] returns promise [p1]; later, the child
    still running, a second call returns [p2].  The second call
    overwrites the stored callbacks: they are now those of [p2].
    Whatever happens afterwards, no callback of [p1] is ever called, so
    [p1] never settles; the [close] event settles [p2] alone. *)
Theorem second_waitForDone_replaces s fuel0 between s' :
  reachable s -> runningStatus s = running ->
  closes between = O ->
  run fuel0 (snd (waitForDone s)) between = Returned s' ->
  let p1 := fst (waitForDone s) in
  let p2 := fst (waitForDone s') in
  let s2 := snd (waitForDone s') in
  p1 <> p2
  /\ resolve s2 = Some p2 /\ reject s2 = Some p2
  /\ (forall fuel t s3, state_of (run fuel s2 t) = Some s3 -> fate p1 s3 = None)
  /\ (forall fuel mid code s3,
        forallb ordinary mid = true -> run fuel s2 mid = Returned s3 ->
        fate p2 (onClose code s3)
        = Some (if is_zero code then ResolveVoid else RejectWith (panic_message s3))).
Proof.
  intros Hreach Hrun Hbetween Hrun1 p1 p2 s2.
  pose proof (reachable_consistent s Hreach) as HC.
  assert (Hp1 : p1 = nextPromise s) by apply waitForDone_promise.
  assert (Hp2 : p2 = nextPromise s') by apply waitForDone_promise.
  set (s1 := snd (waitForDone s)) in *.
  assert (Hs1 : s1 = set_reject (Some (nextPromise s))
                       (set_resolve (Some (nextPromise s))
                          (set_nextPromise (S (nextPromise s)) s)))
    by (apply waitForDone_running, Hrun).
  assert (HC1 : consistent s1) by apply consistent_waitForDone, HC.
  assert (Hrun' : runningStatus s' = running).
  { rewrite (running_run fuel0 between s1 s' Hbetween) by (rewrite Hrun1; reflexivity).
    rewrite Hs1. exact Hrun. }
  assert (HC' : consistent s').
  { apply (consistent_run fuel0 between s1 s' HC1); [rewrite Hbetween; lia|].
    rewrite Hrun1. reflexivity. }
  assert (HD1 : done_promise p1 s1).
  { destruct HC as (_ & Hold & _ & Hwp & _). rewrite Hp1, Hs1. unfold done_promise. cbn.
    split; [lia|]. split.
    - intros Hin. destruct (Hwp _ Hin). lia.
    - intros _ Hin. specialize (Hold _ Hin). lia. }
  assert (HD' : done_promise p1 s').
  { apply (run_keeps (done_promise p1) (fun _ => true)) with (fuel := fuel0) (t := between) (s := s1).
    - intros f x e x' HP _. apply done_promise_step, HP.
    - apply forallb_all_true.
    - exact HD1.
    - rewrite Hrun1. reflexivity. }
  destruct HD' as (Hlt & Hnw & Hns). specialize (Hns Hrun').
  assert (Hs2 : s2 = set_reject (Some (nextPromise s'))
                       (set_resolve (Some (nextPromise s'))
                          (set_nextPromise (S (nextPromise s')) s')))
    by (apply waitForDone_running, Hrun').
  assert (Hne : p1 <> p2) by (rewrite Hp2; lia).
  split; [exact Hne|].
  split; [rewrite Hs2, Hp2; reflexivity|].
  split; [rewrite Hs2, Hp2; reflexivity|].
  split.
  - intros fuel t s3 H3.
    assert (HA : abandoned p1 s2).
    { rewrite Hs2. unfold abandoned. cbn.
      split; [lia|]. split; [exact Hnw|].
      split; [intros E; inversion E; lia|]. split; [intros E; inversion E; lia|exact Hns]. }
    assert (HA3 : abandoned p1 s3).
    { apply (run_keeps (abandoned p1) (fun _ => true)) with (fuel := fuel) (t := t) (s := s2).
      - intros f x e x' HP _. apply abandoned_step, HP.
      - apply forallb_all_true.
      - exact HA.
      - exact H3. }
    apply fate_pending. destruct HA3 as (_ & _ & _ & _ & H). exact H.
  - intros fuel mid code s3 Hmid H3.
    apply (stored_handle_run p2 fuel mid code s2 s3); try assumption.
    + apply consistent_waitForDone, HC'.
    + rewrite Hs2. exact Hrun'.
    + rewrite Hs2, Hp2. reflexivity.
    + rewrite Hs2, Hp2. reflexivity.
Qed.

End SecondCall.

(** ** Frame dispatch *)

Section Dispatch.
Context {RT : Runtime}.

(** What [onMessage] does for a nonce that has a waiter. *)
Lemma onMessage_waiter status nonce data s waiter :
  Map_get nonce (waiters s) = Some waiter ->
  settled (onMessage status nonce data s)
  = settled s
    ++ [(waiter, match status with
                 | status_success => ResolveWith data
                 | status_error => RejectWith (rejection_message data)
                 end)]
  /\ waiters (onMessage status nonce data s) = Map_delete nonce (waiters s).
Proof.
  intros Hget. unfold onMessage.
  destruct (jsstring_eqb nonce (js "0"));
    cbn [waiters verboseAdvanced set_verboseLog]; rewrite Hget;
    destruct status; split; reflexivity.
Qed.

(** C7, amended.  An error frame whose nonce has a waiter rejects that
    waiter
    - with "Compositor error: <error>\n<backtrace>" when the payload
      parses as a JSON object whose fields [error] and [backtrace] are
      strings;
    - with the payload decoded as UTF-8 when [JSON.parse] throws on it.
    (A payload that parses as JSON but lacks the fields is not rejected
    with the raw text: see the counterexample.) *)
Theorem error_frame_rejection nonce data s waiter :
  Map_get nonce (waiters s) = Some waiter ->
  (forall props e b,
      JSON_parse (toString_utf8 data) = Some (JObject props) ->
      prop_lookup (js "error") props = Some (JString e) ->
      prop_lookup (js "backtrace") props = Some (JString b) ->
      settled (onMessage status_error nonce data s)
      = settled s ++ [(waiter, RejectWith (js "Compositor error: " ++ e ++ [10%N] ++ b))])
  /\ (JSON_parse (toString_utf8 data) = None ->
      settled (onMessage status_error nonce data s)
      = settled s ++ [(waiter, RejectWith (toString_utf8 data))]).
Proof.
  intros Hget.
  destruct (onMessage_waiter status_error nonce data s waiter Hget) as [-> _].
  split.
  - intros props e b Hparse He Hb. unfold rejection_message.
    rewrite Hparse. cbn [get_property]. rewrite He, Hb. reflexivity.
  - intros Hparse. unfold rejection_message. rewrite Hparse. reflexivity.
Qed.

(** A frame with nonce "0" makes [onMessage] add one verbose log entry,
    tagged [compositor], with the payload decoded as UTF-8; and when no
    waiter is registered under "0", the frame leaves the waiter map as
    it is and calls no callback. *)
Lemma onMessage_diagnostic status data s :
  verboseLog (onMessage status (js "0") data s)
  = verboseLog s ++ [{| tag := js "compositor"; message := toString_utf8 data |}]
  /\ (Map_get (js "0") (waiters s) = None ->
      waiters (onMessage status (js "0") data s) = waiters s
      /\ settled (onMessage status (js "0") data s) = settled s).
Proof.
  unfold onMessage.
  assert (E : jsstring_eqb (js "0") (js "0") = true) by reflexivity.
  rewrite E. cbn [waiters verboseAdvanced set_verboseLog]. split.
  - destruct (Map_get (js "0") (waiters s)); [destruct status|]; reflexivity.
  - intros ->. split; reflexivity.
Qed.

End Dispatch.

(** ** Header fields *)

Lemma digit_not_colon b : is_digit (Byte.to_N b) = true -> Byte.eqb b x3a = false.
Proof.
  intros H. destruct (Byte.eqb b x3a) eqn:E; [|reflexivity].
  apply Byte.byte_dec_bl in E. subst b. discriminate.
Qed.

Lemma digits_no_colon l : forallb is_digit (map Byte.to_N l) = true -> no_colon l.
Proof.
  induction l as [|b l IH]; simpl; intros H; [constructor|].
  apply andb_prop in H. destruct H as [Hb Hl].
  constructor; [apply digit_not_colon, Hb|apply IH, Hl].
Qed.

(** *** [Number] on decimal numerals *)

Lemma digit_not_white c : is_digit c = true -> is_StrWhiteSpaceChar c = false.
Proof.
  unfold is_digit. intros H. apply andb_prop in H. destruct H as [H1 H2].
  apply N.leb_le in H1, H2.
  unfold is_StrWhiteSpaceChar. cbn [existsb].
  repeat match goal with
         | |- context [N.eqb c ?k] => destruct (N.eqb_spec c k); [lia|]
         end.
  cbn [orb]. destruct (N.leb_spec 8192 c); [lia|reflexivity].
Qed.

Lemma digits_strip_start s : forallb is_digit s = true -> strip_start s = s.
Proof.
  destruct s as [|c s]; [reflexivity|]. cbn [forallb strip_start]. intros H.
  apply andb_prop in H. rewrite (digit_not_white c (proj1 H)). reflexivity.
Qed.

Lemma digits_rev s : forallb is_digit s = true -> forallb is_digit (rev s) = true.
Proof.
  intros H. apply forallb_forall. intros c Hc. apply in_rev in Hc.
  exact (proj1 (forallb_forall is_digit s) H c Hc).
Qed.

Lemma digits_strip s : forallb is_digit s = true -> strip s = s.
Proof.
  intros H. unfold strip.
  rewrite (digits_strip_start s H), (digits_strip_start (rev s) (digits_rev s H)).
  apply rev_involutive.
Qed.

Lemma digits_DecimalDigits s : forallb is_digit s = true -> DecimalDigits s = (s, []).
Proof.
  induction s as [|c s IH]; [reflexivity|]. cbn [forallb DecimalDigits]. intros H.
  apply andb_prop in H. destruct H as [Hc Hs]. rewrite Hc, (IH Hs). reflexivity.
Qed.

Lemma digit_is_not c k : is_digit c = true -> (57 < k)%N \/ (k < 48)%N -> (c =? k)%N = false.
Proof.
  unfold is_digit. intros H Hk. apply andb_prop in H. destruct H as [H1 H2].
  apply N.leb_le in H1, H2. destruct (N.eqb_spec c k); [lia|reflexivity].
Qed.

Lemma digits_not_NonDecimal s :
  forallb is_digit s = true -> NonDecimalIntegerLiteral s = None.
Proof.
  destruct s as [|zero [|letter [|d ds]]]; try reflexivity.
  cbn [forallb NonDecimalIntegerLiteral]. intros H.
  apply andb_prop in H. destruct H as [_ H].
  apply andb_prop in H. destruct H as [Hl _].
  destruct (zero =? 48)%N; [|reflexivity].
  rewrite !(digit_is_not letter) by (assumption || lia). reflexivity.
Qed.

Lemma digits_unsigned s :
  s <> [] -> forallb is_digit s = true ->
  StrUnsignedDecimalLiteral s = Some (MV_decimal (decimal_value s) 0).
Proof.
  intros Hne H. unfold StrUnsignedDecimalLiteral.
  destruct (jsstring_eqb s (js "Infinity")) eqn:E.
  { apply jsstring_eqb_eq in E. subst s. discriminate. }
  rewrite (digits_DecimalDigits s H).
  destruct s as [|c s]; [congruence|]. cbn [is_empty negb ExponentPart List.length].
  rewrite app_nil_r. reflexivity.
Qed.

Lemma digits_literal s :
  s <> [] -> forallb is_digit s = true ->
  StrNumericLiteral s = Some (false, MV_decimal (decimal_value s) 0).
Proof.
  intros Hne H. unfold StrNumericLiteral.
  rewrite (digits_not_NonDecimal s H), (digits_unsigned s Hne H).
  destruct s as [|c s]; [congruence|].
  cbn [forallb] in H. apply andb_prop in H. destruct H as [Hc _].
  rewrite !(digit_is_not c) by (assumption || lia). reflexivity.
Qed.

(** An integer up to [2^53] is a double. *)
Lemma integer_double_exact n : 0 < n <= MAX_EXACT -> integer_double n 1 = Some n.
Proof.
  intros Hn. unfold MAX_EXACT in Hn.
  destruct (Z.log2_spec n (proj1 Hn)) as [Hlo Hhi].
  assert (Hk0 : 0 <= Z.log2 n) by apply Z.log2_nonneg.
  assert (Hk : Z.log2 n <= 53).
  { change 53 with (Z.log2 (2 ^ 53)). apply Z.log2_le_mono. lia. }
  unfold integer_double, floor_log2.
  change (Z.log2 1) with 0. rewrite Z.sub_0_r.
  rewrite (Z.max_r (- Z.log2 n) 0), (Z.max_l (Z.log2 n) 0) by lia.
  change (2 ^ 0) with 1. rewrite Z.mul_1_r, Z.mul_1_l.
  destruct (Z.ltb_spec n (2 ^ Z.log2 n)) as [|_]; [lia|].
  rewrite (Z.max_l (Z.log2 n) (-1022)) by lia.
  destruct (Z.eq_dec (Z.log2 n) 53) as [E|E].
  - assert (n = 2 ^ 53) by (rewrite E in Hlo; lia). subst n. reflexivity.
  - set (j := Z.log2 n - 52) in *.
    assert (Hj : j <= 0) by (unfold j; lia).
    rewrite (Z.max_l (- j) 0), (Z.max_r j 0) by lia.
    change (2 ^ 0) with 1. rewrite Z.mul_1_r.
    assert (Hp : 0 < 2 ^ (- j)) by (apply Z.pow_pos_nonneg; lia).
    unfold round_half_even.
    rewrite Z.div_1_r, Z.mod_1_r. cbn [Z.mul Z.ltb Z.compare].
    destruct (Z.leb_spec 0 j) as [H0|H0].
    + assert (j = 0) by lia. replace (- j) with 0 by lia.
      replace (2 ^ j) with 1 by (subst j; rewrite H; reflexivity).
      change (2 ^ 0) with 1. rewrite !Z.mul_1_r.
      destruct (Z.leb_spec n MAX_EXACT) as [|Hgt]; [reflexivity|unfold MAX_EXACT in Hgt; lia].
    + rewrite Z.mod_mul by lia. cbn [Z.eqb]. rewrite Z.div_mul by lia. reflexivity.
Qed.

Lemma decimal_value_from_nonneg s : forall acc,
  forallb is_digit s = true -> 0 <= acc ->
  0 <= fold_left (fun acc c => 10 * acc + (Z.of_N c - 48)) s acc.
Proof.
  induction s as [|c s IH]; intros acc H Hacc; [exact Hacc|].
  cbn [forallb fold_left] in *. apply andb_prop in H. destruct H as [Hc Hs].
  apply (IH _ Hs).
  unfold is_digit in Hc. apply andb_prop in Hc. destruct Hc as [H1 _].
  apply N.leb_le in H1. lia.
Qed.

Lemma decimal_value_nonneg s : forallb is_digit s = true -> 0 <= decimal_value s.
Proof. intros H. apply decimal_value_from_nonneg; [exact H|lia]. Qed.

Lemma Number_decimal l n :
  decimal_of l n -> n <= MAX_EXACT -> Number (map Byte.to_N l) = Some (Int n).
Proof.
  intros (Hne & Hd & Hv) Hn. unfold Number.
  rewrite (digits_strip _ Hd).
  pose proof (decimal_value_nonneg _ Hd) as H0. rewrite Hv in H0.
  assert (Hs : map Byte.to_N l <> []) by (destruct l; [congruence|discriminate]).
  pose proof (digits_literal _ Hs Hd) as Hlit. rewrite Hv in Hlit.
  destruct (map Byte.to_N l) as [|c s]; [congruence|].
  rewrite Hlit.
  destruct (Z.eqb_spec n 0) as [->|Hn0]; [reflexivity|].
  change (Z.max 0 0) with 0. change (Z.max (- 0) 0) with 0. change (10 ^ 0) with 1.
  rewrite Z.mul_1_r, integer_double_exact by lia. reflexivity.
Qed.

(** [Number] on some strings that are not plain numerals. *)
Example Number_examples :
  Number (js "abc") = Some NaN /\ Number (js "1a") = Some NaN
  /\ Number (js "0x") = Some NaN /\ Number (js "1e") = Some NaN
  /\ Number (js "") = Some (Int 0) /\ Number (js " 12 ") = Some (Int 12)
  /\ Number (js "1.0") = Some (Int 1) /\ Number (js "+1") = Some (Int 1)
  /\ Number (js "0x1") = Some (Int 1) /\ Number (js "10e-1") = Some (Int 1)
  /\ Number (js "-5") = Some (Int (-5)) /\ Number (js "1e3") = Some (Int 1000)
  /\ Number (js "1.0000000000000001") = Some (Int 1)
  /\ Number (js "9007199254740993") = Some (Int 9007199254740992)
  /\ Number (js "1.5") = None /\ Number (js "1.0000000000000002") = None
  /\ Number (js "9007199254740994") = None /\ Number (js "Infinity") = None.
Proof. vm_compute. repeat split. Qed.

Lemma buf_get_past (pre field : Buffer) j :
  no_colon field -> buf_length pre <= j -> is_colon (buf_get (pre ++ field) j) = false.
Proof.
  intros Hf Hj. unfold buf_get, buf_length in *.
  destruct (Z.ltb_spec j 0); [reflexivity|].
  rewrite nth_error_app2 by lia.
  destruct (nth_error field (Z.to_nat j - List.length pre)) as [b|] eqn:E; [|reflexivity].
  apply nth_error_In in E. unfold no_colon in Hf. rewrite Forall_forall in Hf.
  apply Hf, E.
Qed.

(** A loop that starts in a field which no colon ends does not break. *)
Lemma scanField_incomplete fuel pre field skipColon acc :
  no_colon field ->
  scanField fuel (pre ++ field) skipColon (buf_length pre) acc = None.
Proof.
  intros Hf. apply scanField_spins. intros j Hj. apply buf_get_past; assumption.
Qed.

(** At an index past the end the loop reads [undefined], appends the
    NUL character and goes on. *)
Lemma scanField_past_end fuel buf skipColon separatorIndex acc :
  buf_length buf <= separatorIndex ->
  scanField (S fuel) buf skipColon separatorIndex acc
  = scanField fuel buf skipColon (separatorIndex + 1) (acc ++ [0%N]).
Proof.
  intros H. cbn [scanField].
  assert (E : buf_get buf separatorIndex = None).
  { unfold buf_get, buf_length in *. destruct (Z.ltb_spec separatorIndex 0); [reflexivity|].
    apply nth_error_None. lia. }
  rewrite E. reflexivity.
Qed.

Lemma scanField_short (field : Buffer) :
  no_colon field ->
  forall fuel pre rest skipColon acc,
    (fuel <= List.length field)%nat ->
    scanField fuel (pre ++ field ++ rest) skipColon (buf_length pre) acc = None.
Proof.
  induction 1 as [|b field Hb Hfield IH]; intros fuel pre rest skipColon acc Hfuel.
  - destruct fuel; [reflexivity|simpl in Hfuel; lia].
  - destruct fuel as [|fuel]; [reflexivity|].
    cbn [scanField]. rewrite buf_get_app_r.
    cbn [app hd_error is_colon fromCharCode]. rewrite Hb.
    specialize (IH fuel (pre ++ [b]) rest skipColon (acc ++ [Byte.to_N b])).
    rewrite <- app_assoc in IH. cbn [app] in IH.
    replace (buf_length (pre ++ [b])) with (buf_length pre + 1) in IH
      by (unfold buf_length; rewrite length_app; simpl; lia).
    apply IH. simpl in Hfuel. lia.
Qed.

(** A loop at a field that a colon ends either runs out of fuel or
    breaks at that colon. *)
Lemma scanField_cases fuel pre field rest skipColon acc :
  no_colon field ->
  scanField fuel (pre ++ field ++ x3a :: rest) skipColon (buf_length pre) acc = None
  \/ scanField fuel (pre ++ field ++ x3a :: rest) skipColon (buf_length pre) acc
     = Some (buf_length pre + buf_length field + (if skipColon then 1 else 0),
             acc ++ map Byte.to_N field).
Proof.
  intros Hf. destruct (Nat.le_gt_cases fuel (List.length field)).
  - left. apply scanField_short; assumption.
  - right. apply scanField_field; assumption.
Qed.

(** ** The parser on whole frames and on incomplete headers *)

Section ParserClaims.
Context {RT : Runtime}.

Lemma incomplete_header_spins fuel s noise tail :
  outputBuffer s = noise ++ separator ++ tail ->
  indexOf noise separator = -1 ->
  incomplete_header tail ->
  processInput fuel s = Spinning s.
Proof.
  intros Hbuf Hnoise Htail. destruct fuel as [|fuel]; [reflexivity|].
  cbn [processInput]. rewrite Hbuf, indexOf_after_noise by exact Hnoise.
  destruct (Z.eqb_spec (buf_length noise) (-1)) as [Hneg|_];
    [pose proof (buf_length_nonneg noise); lia|].
  set (pre1 := noise ++ separator).
  assert (L1 : buf_length noise + buf_length separator = buf_length pre1)
    by (unfold pre1; rewrite buf_length_app; reflexivity).
  rewrite L1.
  destruct Htail as [f1 H1|f1 f2 H1 H2|f1 f2 f3 H1 H2 H3].
  - replace (noise ++ separator ++ f1) with (pre1 ++ f1)
      by (unfold pre1; rewrite <- app_assoc; reflexivity).
    rewrite scanField_incomplete by exact H1. reflexivity.
  - replace (noise ++ separator ++ f1 ++ x3a :: f2) with (pre1 ++ f1 ++ x3a :: f2)
      by (unfold pre1; rewrite <- app_assoc; reflexivity).
    destruct (scanField_cases fuel pre1 f1 f2 true [] H1) as [->| ->]; [reflexivity|].
    replace (pre1 ++ f1 ++ x3a :: f2) with ((pre1 ++ f1 ++ [x3a]) ++ f2)
      by (repeat (rewrite <- ?app_assoc; cbn [app]); reflexivity).
    replace (buf_length pre1 + buf_length f1 + 1) with (buf_length (pre1 ++ f1 ++ [x3a]))
      by (rewrite !buf_length_app, buf_length_cons; change (buf_length []) with 0; lia).
    rewrite scanField_incomplete by exact H2. reflexivity.
  - replace (noise ++ separator ++ f1 ++ x3a :: f2 ++ x3a :: f3)
      with (pre1 ++ f1 ++ x3a :: (f2 ++ x3a :: f3))
      by (unfold pre1; rewrite <- app_assoc; reflexivity).
    destruct (scanField_cases fuel pre1 f1 (f2 ++ x3a :: f3) true [] H1) as [->| ->];
      [reflexivity|].
    set (pre2 := pre1 ++ f1 ++ [x3a]).
    replace (pre1 ++ f1 ++ x3a :: f2 ++ x3a :: f3) with (pre2 ++ f2 ++ x3a :: f3)
      by (unfold pre2; repeat (rewrite <- ?app_assoc; cbn [app]); reflexivity).
    replace (buf_length pre1 + buf_length f1 + 1) with (buf_length pre2)
      by (unfold pre2; rewrite !buf_length_app, buf_length_cons;
          change (buf_length []) with 0; lia).
    destruct (scanField_cases fuel pre2 f2 f3 true [] H2) as [->| ->]; [reflexivity|].
    replace (pre2 ++ f2 ++ x3a :: f3) with ((pre2 ++ f2 ++ [x3a]) ++ f3)
      by (repeat (rewrite <- ?app_assoc; cbn [app]); reflexivity).
    replace (buf_length pre2 + buf_length f2 + 1) with (buf_length (pre2 ++ f2 ++ [x3a]))
      by (rewrite !buf_length_app, buf_length_cons; change (buf_length []) with 0; lia).
    rewrite scanField_incomplete by exact H3. reflexivity.
Qed.

(** C4 (what the code does).  On a buffer that holds the marker but
    not yet the three colons of the header, one call of [processInput]
    never returns: whatever the fuel, it is still in one of the three
    header loops, which has run past the end of the buffer and goes on
    reading [undefined]. *)
Theorem incomplete_header_never_returns fuel s noise tail :
  outputBuffer s = noise ++ separator ++ tail ->
  indexOf noise separator = -1 ->
  incomplete_header tail ->
  processInput fuel s = Spinning s
  /\ forall skipColon i acc,
       buf_length (outputBuffer s) <= i ->
       scanField (S fuel) (outputBuffer s) skipColon i acc
       = scanField fuel (outputBuffer s) skipColon (i + 1) (acc ++ [0%N]).
Proof.
  intros Hbuf Hnoise Htail. split.
  - eapply incomplete_header_spins; eassumption.
  - intros skipColon i acc Hi. apply scanField_past_end, Hi.
Qed.

End ParserClaims.

Section RoundTrip.
Context {RT : Runtime}.

Lemma Buffer_concat_snoc l d : Buffer_concat (l ++ [d]) = Buffer_concat l ++ d.
Proof. unfold Buffer_concat. rewrite concat_app. simpl. rewrite app_nil_r. reflexivity. Qed.

Lemma onMessage_unprocessedBuffers status nonce data s :
  unprocessedBuffers (onMessage status nonce data s) = unprocessedBuffers s.
Proof.
  unfold onMessage.
  destruct (jsstring_eqb nonce (js "0")); simpl;
    destruct (Map_get nonce (waiters s)); try reflexivity;
    destruct status; reflexivity.
Qed.

Lemma indexOf_frame nonce lengthField statusField payload :
  indexOf (frame nonce lengthField statusField payload) separator = 0.
Proof. apply indexOf_startsWith. unfold frame. apply startsWith_app. Qed.

(** C6.  The buffer holds, after noise without a marker, a well-formed
    success frame with payload [P], of any length and with any bytes,
    and a waiter is registered under the nonce of the frame.  Then
    [processInput] (given fuel for the header) calls the [resolve]
    callback of that waiter with exactly the bytes [P], removes the
    waiter, and goes on with the bytes after the frame; when there are
    none it returns. *)
Theorem success_frame_round_trip fuel s noise nonce lengthField payload rest waiter :
  outputBuffer s = noise ++ frame nonce lengthField (Buffer_from "0") payload ++ rest ->
  indexOf noise separator = -1 ->
  well_formed nonce lengthField (Buffer_from "0") payload ->
  Map_get (map Byte.to_N nonce) (waiters s) = Some waiter ->
  (List.length nonce + List.length lengthField + 1 < fuel)%nat ->
  exists s1,
    settled s1 = settled s ++ [(waiter, ResolveWith payload)]
    /\ waiters s1 = Map_delete (map Byte.to_N nonce) (waiters s)
    /\ outputBuffer s1 = rest
    /\ processInput (S fuel) s = processInput fuel s1
    /\ (rest = [] -> processInput (S fuel) s = Returned s1).
Proof.
  intros Hbuf Hnoise (Hn & Hdec & Hmax & _) Hget Hfuel.
  rewrite (processInput_frame fuel s noise nonce lengthField (Buffer_from "0") payload rest
             (Int 0) Hbuf Hnoise Hn);
    [ | apply digits_no_colon; apply Hdec
      | repeat constructor
      | apply Number_decimal; assumption
      | reflexivity
      | lia | lia | simpl; lia ].
  cbn [jsstricteq Z.eqb].
  destruct (onMessage_waiter status_success (map Byte.to_N nonce) payload s waiter Hget)
    as [Hsettled Hwaiters].
  eexists. split; [|split; [|split; [|split; [reflexivity|]]]].
  - cbn [settled set_outputBuffer set_missingData]. exact Hsettled.
  - cbn [waiters set_outputBuffer set_missingData]. exact Hwaiters.
  - reflexivity.
  - intros ->. destruct fuel as [|fuel]; [lia|]. reflexivity.
Qed.

(** The first scenario of the spec, for any frame: a success frame that
    arrives as one chunk while the parser holds no marker. *)
Lemma frame_in_one_chunk fuel s nonce lengthField payload waiter :
  indexOf (outputBuffer s ++ Buffer_concat (unprocessedBuffers s)) separator = -1 ->
  well_formed nonce lengthField (Buffer_from "0") payload ->
  Map_get (map Byte.to_N nonce) (waiters s) = Some waiter ->
  (List.length nonce + List.length lengthField + 2 < fuel)%nat ->
  exists s',
    onStdoutData fuel (frame nonce lengthField (Buffer_from "0") payload) s = Returned s'
    /\ settled s' = settled s ++ [(waiter, ResolveWith payload)]
    /\ waiters s' = Map_delete (map Byte.to_N nonce) (waiters s)
    /\ outputBuffer s' = [] /\ unprocessedBuffers s' = [] /\ missingData s' = None.
Proof.
  intros Hnoise (Hn & Hdec & Hmax & _) Hget Hfuel.
  set (data := frame nonce lengthField (Buffer_from "0") payload).
  unfold onStdoutData. fold data.
  assert (Hidx : indexOf data separator = 0) by apply indexOf_frame.
  rewrite Hidx. cbn [Z.eqb andb].
  set (s0 := set_unprocessedBuffers [] _).
  assert (Hbuf : outputBuffer s0
                 = (outputBuffer s ++ Buffer_concat (unprocessedBuffers s)) ++ data ++ []).
  { unfold s0. cbn [outputBuffer set_outputBuffer set_unprocessedBuffers unprocessedBuffers].
    change (Buffer_concat (outputBuffer s :: unprocessedBuffers s ++ [data]))
      with (outputBuffer s ++ Buffer_concat (unprocessedBuffers s ++ [data])).
    rewrite Buffer_concat_snoc, app_nil_r, app_assoc. reflexivity. }
  assert (Hw0 : waiters s0 = waiters s) by reflexivity.
  assert (Hs0 : settled s0 = settled s) by reflexivity.
  assert (Hu0 : unprocessedBuffers s0 = []) by reflexivity.
  clearbody s0.
  destruct fuel as [|fuel]; [lia|].
  rewrite (processInput_frame fuel s0 _ nonce lengthField (Buffer_from "0") payload []
             (Int 0) Hbuf Hnoise Hn);
    [ | apply digits_no_colon; apply Hdec
      | repeat constructor
      | apply Number_decimal; assumption
      | reflexivity
      | lia | lia | simpl; lia ].
  cbn [jsstricteq Z.eqb].
  destruct (onMessage_waiter status_success (map Byte.to_N nonce) payload s0 waiter)
    as [Hsettled Hwaiters]; [rewrite Hw0; exact Hget|].
  destruct fuel as [|fuel]; [lia|].
  eexists. split; [reflexivity|].
  cbn [settled waiters outputBuffer unprocessedBuffers missingData
         set_outputBuffer set_missingData].
  rewrite Hsettled, Hwaiters, Hs0, Hw0, onMessage_unprocessedBuffers, Hu0.
  repeat split.
Qed.

End RoundTrip.

(** ** Fuel *)

Section Fuel.
Context {RT : Runtime}.

Lemma scanField_more_fuel buf skipColon :
  forall fuel fuel' i acc r,
    scanField fuel buf skipColon i acc = Some r -> (fuel <= fuel')%nat ->
    scanField fuel' buf skipColon i acc = Some r.
Proof.
  induction fuel as [|fuel IH]; intros fuel' i acc r H Hle; [discriminate|].
  destruct fuel' as [|fuel']; [lia|].
  cbn [scanField] in *. destruct (is_colon (buf_get buf i)); [exact H|].
  apply (IH fuel' _ _ _ H). lia.
Qed.

(** An outcome other than [Spinning] does not depend on the fuel: more
    fuel gives the same outcome. *)
Lemma processInput_more_fuel :
  forall fuel fuel' s,
    (fuel <= fuel')%nat ->
    (forall s', processInput fuel s <> Spinning s') ->
    processInput fuel' s = processInput fuel s.
Proof.
  induction fuel as [|fuel IH]; intros fuel' s Hle Hns.
  - exfalso. apply (Hns s). reflexivity.
  - destruct fuel' as [|fuel']; [lia|].
    cbn [processInput] in *.
    destruct (indexOf (outputBuffer s) separator =? -1); [reflexivity|].
    destruct (scanField fuel (outputBuffer s) true _ []) as [[i1 nonceString]|] eqn:E1;
      [|exfalso; apply (Hns s); reflexivity].
    rewrite (scanField_more_fuel _ _ fuel fuel' _ _ _ E1) by lia.
    destruct (scanField fuel (outputBuffer s) true i1 []) as [[i2 lengthString]|] eqn:E2;
      [|exfalso; apply (Hns s); reflexivity].
    rewrite (scanField_more_fuel _ _ fuel fuel' _ _ _ E2) by lia.
    destruct (scanField fuel (outputBuffer s) false i2 []) as [[i3 statusString]|] eqn:E3;
      [|exfalso; apply (Hns s); reflexivity].
    rewrite (scanField_more_fuel _ _ fuel fuel' _ _ _ E3) by lia.
    destruct (Number lengthString) as [len|]; [|reflexivity].
    destruct (jslt _ len); [reflexivity|].
    apply IH; [lia|exact Hns].
Qed.

Lemma onStdoutData_more_fuel fuel fuel' data s :
  (fuel <= fuel')%nat ->
  (forall s', onStdoutData fuel data s <> Spinning s') ->
  onStdoutData fuel' data s = onStdoutData fuel data s.
Proof.
  intros Hle Hns. unfold onStdoutData in *.
  destruct (_ && _); [reflexivity|].
  apply processInput_more_fuel; assumption.
Qed.


End Fuel.

(** ** Chunks *)

Section Chunks.
Context {RT : Runtime}.

(** The fast path of the [data] handler: a chunk without the marker,
    while no payload is awaited, is queued and nothing else happens. *)
Lemma chunk_without_marker_is_queued fuel data s :
  indexOf data separator = -1 -> missingData s = None ->
  onStdoutData fuel data s
  = Returned (set_unprocessedBuffers (unprocessedBuffers s ++ [data]) s).
Proof.
  intros Hidx Hmiss. unfold onStdoutData. rewrite Hidx, Z.eqb_refl.
  change (missingData (set_unprocessedBuffers (unprocessedBuffers s ++ [data]) s))
    with (missingData s).
  rewrite Hmiss. cbn [andb].
  change (missingData (set_unprocessedBuffers (unprocessedBuffers s ++ [data]) s))
    with (missingData s).
  rewrite Hmiss. reflexivity.
Qed.

Lemma marker_prefix_has_no_marker k :
  (k < 16)%nat -> indexOf (firstn k separator) separator = -1.
Proof. intros Hk. do 16 (destruct k as [|k]; [reflexivity|]). lia. Qed.

(** Any frame, cut inside its marker: when the second chunk contains no
    further marker, both chunks are queued and the parser is not run. *)
Lemma split_marker_is_queued fuel s k rest :
  missingData s = None -> (k < 16)%nat ->
  indexOf (skipn k (separator ++ rest)) separator = -1 ->
  run fuel s [StdoutData (firstn k (separator ++ rest));
              StdoutData (skipn k (separator ++ rest))]
  = Returned
      (set_unprocessedBuffers
         (unprocessedBuffers s
          ++ [firstn k (separator ++ rest); skipn k (separator ++ rest)]) s).
Proof.
  intros Hmiss Hk Hrest. cbn [run step].
  assert (Hfirst : indexOf (firstn k (separator ++ rest)) separator = -1).
  { rewrite firstn_app.
    replace (k - List.length separator)%nat with O
      by (change (List.length separator) with 16%nat; lia).
    cbn [firstn]. rewrite app_nil_r. apply marker_prefix_has_no_marker, Hk. }
  rewrite chunk_without_marker_is_queued by assumption.
  rewrite chunk_without_marker_is_queued by assumption.
  unfold set_unprocessedBuffers. cbn. rewrite <- app_assoc. reflexivity.
Qed.

(** C1 (what the code does).  The frame [remotion_buffer:abc:3:0:foo]
    for the pending nonce [abc] arrives in two chunks that split the
    marker.  Neither chunk contains the marker, so both are queued: the
    run returns with no callback called, the waiter still registered and
    the frame in [unprocessedBuffers].  The same bytes in one chunk
    resolve the waiter with [foo]. *)
Theorem split_marker_not_emitted fuel :
  run fuel (one_pending "abc")
    [StdoutData (Buffer_from "remotion_buf"); StdoutData (Buffer_from "fer:abc:3:0:foo")]
  = Returned
      (set_unprocessedBuffers [Buffer_from "remotion_buf"; Buffer_from "fer:abc:3:0:foo"]
         (one_pending "abc"))
  /\ run (5 + fuel) (one_pending "abc")
       [StdoutData (Buffer_from "remotion_buffer:abc:3:0:foo")]
     = Returned (set_waiters [] (settle O (ResolveWith (Buffer_from "foo"))
                                   (one_pending "abc"))).
Proof.
  split.
  - cbn [run step]. rewrite chunk_without_marker_is_queued by reflexivity.
    rewrite chunk_without_marker_is_queued by reflexivity. reflexivity.
  - reflexivity.
Qed.

End Chunks.

(** * The claims on concrete runs

    The runtime of these runs is [example_runtime]; all texts are
    ASCII. *)

(** C5 at work: a command is sent, its frame arrives twice, and the
    child exits: every promise has at most one callback call. *)
Lemma at_most_one_resolution_witness :
  let t := [ExecuteCommand (js "abc") (js "ExtractFrame") JNull;
            StdoutData (Buffer_from "remotion_buffer:abc:3:0:foo");
            StdoutData (Buffer_from "remotion_buffer:abc:3:0:foo");
            Close (Some 0)] in
  exists s,
    state_of (run (RT := example_runtime) 40 initial t) = Some s
    /\ forall p : promise, (count_occ Nat.eq_dec (settled_ids s) p <= 1)%nat.
Proof.
  intros t. eexists. split.
  - vm_compute. reflexivity.
  - apply (at_most_one_resolution (RT := example_runtime) 40 t).
    + simpl. lia.
    + vm_compute. reflexivity.
Defined.

(** C2 at work: the child crashes while [abc] is pending; afterwards
    [finishCommands] and [executeCommand] are called. *)
Lemma after_close_witness :
  let RT := example_runtime in
  let s := onStderrData (Buffer_from "boom") (one_pending "abc") in
  let post := [FinishCommands; ExecuteCommand (js "def") (js "ExtractFrame") JNull] in
  let s' := onClose (Some 1) s in
  waiters s' = []
  /\ (forall nonce w, Map_get nonce (waiters s) = Some w ->
        In (w, RejectWith (if is_zero (Some 1) then js "Compositor already quit"
                           else panic_message s))
           (settled s'))
  /\ (forall nonce command params,
        executeCommand nonce command params s'
        = inl (if is_zero (Some 1) then js "Compositor already quit"
               else js "Compositor quit: "
                    ++ toString_utf8 (Buffer_concat (stderrChunks s)))).
Proof.
  intros RT s post s'.
  apply (after_close (RT := example_runtime) 1 s (Some 1) post s').
  - reflexivity.
  - reflexivity.
Defined.

(** C6 at work: the buffer holds the frame of the first scenario of the
    spec. *)
Lemma success_frame_round_trip_witness :
  exists s1,
    settled s1 = [(O, ResolveWith (Buffer_from "foo"))]
    /\ waiters s1 = []
    /\ outputBuffer s1 = []
    /\ processInput (RT := example_runtime) 40
         (set_outputBuffer (Buffer_from "remotion_buffer:abc:3:0:foo") (one_pending "abc"))
       = processInput (RT := example_runtime) 39 s1
    /\ (@nil byte = [] ->
        processInput (RT := example_runtime) 40
          (set_outputBuffer (Buffer_from "remotion_buffer:abc:3:0:foo") (one_pending "abc"))
        = Returned s1).
Proof.
  apply (success_frame_round_trip (RT := example_runtime) 39
           (set_outputBuffer (Buffer_from "remotion_buffer:abc:3:0:foo") (one_pending "abc"))
           [] (Buffer_from "abc") (Buffer_from "3") (Buffer_from "foo") [] O).
  - reflexivity.
  - reflexivity.
  - split; [repeat constructor|]. split; [|split].
    + split; [discriminate|]. split; reflexivity.
    + vm_compute. discriminate.
    + left. reflexivity.
  - reflexivity.
  - simpl. lia.
Defined.

(** C7 at work: the error frame of the spec, and an error frame whose
    payload is not JSON. *)
Lemma error_frame_rejection_witness :
  let RT := example_runtime in
  settled (onMessage status_error (js "abc") (Buffer_from error_payload_text)
             (one_pending "abc"))
  = [(O, RejectWith (js "Compositor error: " ++ js "bad" ++ [10%N] ++ js "at foo"))]
  /\ settled (onMessage status_error (js "abc") (Buffer_from "oops") (one_pending "abc"))
     = [(O, RejectWith (js "oops"))].
Proof.
  intros RT. split.
  - apply (proj1 (error_frame_rejection (RT := example_runtime) (js "abc")
                    (Buffer_from error_payload_text) (one_pending "abc") O eq_refl)
             [(js "error", JString (js "bad")); (js "backtrace", JString (js "at foo"))]);
      reflexivity.
  - apply (proj2 (error_frame_rejection (RT := example_runtime) (js "abc")
                    (Buffer_from "oops") (one_pending "abc") O eq_refl)).
    reflexivity.
Defined.

(** C7 as stated fails: the payload [{}] of an error frame is not JSON
    with the fields [error] and [backtrace], and yet the waiter is not
    rejected with the raw payload but with the message made of two
    [undefined]. *)
Lemma error_frame_counterexample :
  JSON_parse (Runtime := example_runtime)
    (toString_utf8 (Runtime := example_runtime) (Buffer_from "{}"))
  = Some (JObject [])
  /\ option_map settled
       (state_of (onStdoutData (RT := example_runtime) 40
                    (Buffer_from "remotion_buffer:abc:2:1:{}") (one_pending "abc")))
     = Some [(O, RejectWith (js "Compositor error: undefined" ++ [10%N] ++ js "undefined"))]
  /\ option_map settled
       (state_of (onStdoutData (RT := example_runtime) 40
                    (Buffer_from "remotion_buffer:abc:2:1:{}") (one_pending "abc")))
     <> Some [(O, RejectWith (toString_utf8 (Runtime := example_runtime) (Buffer_from "{}")))].
Proof.
  split; [reflexivity|]. split; [reflexivity|].
  vm_compute. discriminate.
Qed.


(** C4 at work: the chunk [remotion_buffer:abc], a marker and the start
    of a nonce, has just been moved to the buffer. *)
Lemma incomplete_header_never_returns_witness :
  processInput (RT := example_runtime) 1000
    (set_outputBuffer (Buffer_from "remotion_buffer:abc") initial)
  = Spinning (set_outputBuffer (Buffer_from "remotion_buffer:abc") initial).
Proof.
  apply (incomplete_header_never_returns (RT := example_runtime) 1000
           (set_outputBuffer (Buffer_from "remotion_buffer:abc") initial)
           [] (Buffer_from "abc")).
  - reflexivity.
  - reflexivity.
  - apply in_nonce. repeat constructor.
Defined.

(** C8 at work: [waitForDone] after a clean exit, after a crash with
    stderr [boom], and on a running child. *)
Lemma waitForDone_outcomes_witness :
  fate (fst (waitForDone (onClose (RT := example_runtime) (Some 0) initial)))
       (snd (waitForDone (onClose (RT := example_runtime) (Some 0) initial)))
  = Some (RejectWith (js "Compositor already quit"))
  /\ fate (fst (waitForDone
                  (onClose (RT := example_runtime) (Some 1)
                     (onStderrData (Buffer_from "boom") initial))))
          (snd (waitForDone
                  (onClose (RT := example_runtime) (Some 1)
                     (onStderrData (Buffer_from "boom") initial))))
     = Some (RejectWith (js "Compositor already quit: " ++ js "boom"))
  /\ fate (fst (waitForDone initial))
          (onClose (RT := example_runtime) (Some 0)
             (snd (waitForDone initial)))
     = Some ResolveVoid.
Proof.
  split; [|split].
  - apply (waitForDone_outcomes (RT := example_runtime)
             (onClose (RT := example_runtime) (Some 0) initial)).
    exists 1%nat, [Close (Some 0)]. split; [simpl; lia|reflexivity].
  - apply (waitForDone_outcomes (RT := example_runtime)
             (onClose (RT := example_runtime) (Some 1)
                (onStderrData (Buffer_from "boom") initial))).
    exists 1%nat, [StderrData (Buffer_from "boom"); Close (Some 1)].
    split; [simpl; lia|reflexivity].
  - assert (Hr : reachable (RT := example_runtime) initial).
    { exists 1%nat, []. split; [simpl; lia|reflexivity]. }
    destruct (waitForDone_outcomes (RT := example_runtime) initial Hr) as (_ & H & _).
    apply (H 1%nat [] (Some 0)); reflexivity.
Defined.

(** C10 at work: two calls of [waitForDone] on a fresh compositor, then
    the child exits: the second promise is resolved, the first one is
    still pending. *)
Lemma second_waitForDone_replaces_witness :
  fate 1%nat (onClose (RT := example_runtime) (Some 0)
                (snd (waitForDone
                        (snd (waitForDone initial)))))
  = Some ResolveVoid
  /\ fate O (onClose (RT := example_runtime) (Some 0)
               (snd (waitForDone
                       (snd (waitForDone initial)))))
     = None.
Proof.
  assert (Hr : reachable (RT := example_runtime) initial).
  { exists 1%nat, []. split; [simpl; lia|reflexivity]. }
  destruct (second_waitForDone_replaces (RT := example_runtime) initial 1 []
              (snd (waitForDone initial))
              Hr eq_refl eq_refl eq_refl) as (_ & _ & _ & Hfirst & Hsecond).
  split.
  - apply (Hsecond 1%nat [] (Some 0)); reflexivity.
  - apply (Hfirst 1%nat [Close (Some 0)]). reflexivity.
Defined.

(** * More of the module *)

(** ** The size of the frame cache *)

(** X1.  Whatever the free memory, the size that
    [getIdealMaximumFrameCacheItems] returns lies between 500 and 2000;
    it does not shrink when the free memory grows; and between the two
    bounds it is the number of whole 6 MiB frames that fit. *)
Theorem frame_cache_items_clamped (freeMemory more : Z) :
  freeMemory <= more ->
  500 <= getIdealMaximumFrameCacheItems freeMemory <= 2000
  /\ getIdealMaximumFrameCacheItems freeMemory <= getIdealMaximumFrameCacheItems more
  /\ (500 <= freeMemory / 6291456 <= 2000 ->
      getIdealMaximumFrameCacheItems freeMemory = freeMemory / 6291456).
Proof.
  intros Hle. unfold getIdealMaximumFrameCacheItems.
  change (1024 * 1024 * 6) with 6291456.
  assert (Hdiv : freeMemory / 6291456 <= more / 6291456)
    by (apply Z.div_le_mono; lia).
  lia.
Qed.

Lemma frame_cache_items_clamped_witness :
  500 <= getIdealMaximumFrameCacheItems (2 ^ 30) <= 2000
  /\ getIdealMaximumFrameCacheItems (2 ^ 30) <= getIdealMaximumFrameCacheItems (8 * 2 ^ 30)
  /\ (500 <= 2 ^ 30 / 6291456 <= 2000 ->
      getIdealMaximumFrameCacheItems (2 ^ 30) = 2 ^ 30 / 6291456).
Proof.
  apply (frame_cache_items_clamped (2 ^ 30) (8 * 2 ^ 30)). vm_compute. discriminate.
Defined.

(** ** The lifecycle, stderr and stdin over a run *)

Section Lifecycle.
Context {RT : Runtime}.

Lemma step_stays_quit fuel s e s' :
  runningStatus s <> running -> state_of (step fuel s e) = Some s' ->
  runningStatus s' <> running.
Proof.
  intros Hq H. destruct (is_Close e) eqn:Hc.
  - destruct e; try discriminate. simpl in H. inversion H; subst.
    rewrite onClose_runningStatus. destruct (is_zero code); discriminate.
  - rewrite (step_runningStatus fuel s e s' Hc H). exact Hq.
Qed.

Lemma run_stays_quit fuel t s s' :
  runningStatus s <> running -> state_of (run fuel s t) = Some s' ->
  runningStatus s' <> running.
Proof.
  intros Hq. apply (run_keeps (fun x => runningStatus x <> running) (fun _ => true)).
  - intros f x e x' HP _. apply step_stays_quit, HP.
  - apply forallb_all_true.
  - exact Hq.
Qed.

(** X2.  A run that starts with the child running and returns: the
    child is still [running] at its end exactly when the run has no
    [close] event.  No other event ends the running state, and nothing
    brings it back. *)
Theorem running_until_close fuel t : forall s s',
  runningStatus s = running ->
  run fuel s t = Returned s' ->
  (runningStatus s' = running <-> closes t = O).
Proof.
  induction t as [|e t IH]; intros s s' Hrun H.
  - simpl in H. inversion H; subst. split; [reflexivity|intros _; exact Hrun].
  - simpl in H. destruct (step fuel s e) as [s1|s1|] eqn:E; try discriminate.
    destruct (is_Close e) eqn:Hc.
    + destruct e; try discriminate. simpl in E. inversion E; subst s1.
      split; [|discriminate]. intros Hr. exfalso.
      assert (Hq : runningStatus (onClose code s) <> running).
      { rewrite onClose_runningStatus. destruct (is_zero code); discriminate. }
      apply (run_stays_quit fuel t _ s' Hq); [rewrite H; reflexivity|exact Hr].
    + assert (R : runningStatus s1 = running).
      { rewrite (step_runningStatus fuel s e s1 Hc); [exact Hrun|rewrite E; reflexivity]. }
      rewrite (IH s1 s' R H). destruct e; try discriminate; reflexivity.
Qed.

Lemma onMessage_stderr_stdin status nonce data s :
  stderrChunks (onMessage status nonce data s) = stderrChunks s
  /\ stdin (onMessage status nonce data s) = stdin s.
Proof.
  unfold onMessage.
  destruct (jsstring_eqb nonce (js "0")); simpl;
    destruct (Map_get nonce (waiters s)); try (split; reflexivity);
    destruct status; split; reflexivity.
Qed.

Lemma onClose_stderr_stdin code s :
  stderrChunks (onClose code s) = stderrChunks s /\ stdin (onClose code s) = stdin s.
Proof.
  unfold onClose. destruct (is_zero code); rewrite rejectAll_eq; cbn.
  - destruct (resolve s); split; reflexivity.
  - destruct (reject s); split; reflexivity.
Qed.

Lemma step_stderrChunks fuel s e s' :
  state_of (step fuel s e) = Some s' ->
  stderrChunks s' = stderrChunks s ++ stderr_of [e].
Proof.
  intros H. destruct e; simpl in *; rewrite ?app_nil_r.
  - revert H. apply (onStdoutData_keeps (fun x => stderrChunks x = stderrChunks s));
      auto. intros status nonce d x Hx.
    rewrite (proj1 (onMessage_stderr_stdin status nonce d x)). exact Hx.
  - inversion H; reflexivity.
  - inversion H; subst. apply onClose_stderr_stdin.
  - unfold executeCommand in H. destruct (runningStatus s);
      simpl in H; inversion H; reflexivity.
  - unfold finishCommands in H. destruct (runningStatus s);
      simpl in H; inversion H; reflexivity.
  - inversion H; subst. unfold waitForDone, newPromise. simpl.
    destruct (runningStatus s); reflexivity.
Qed.

Lemma run_stderrChunks fuel t : forall s s',
  run fuel s t = Returned s' ->
  stderrChunks s' = stderrChunks s ++ stderr_of t.
Proof.
  induction t as [|e t IH]; intros s s' H; simpl in H.
  - inversion H; subst. simpl. rewrite app_nil_r. reflexivity.
  - destruct (step fuel s e) as [s1|s1|] eqn:E; try discriminate.
    rewrite (IH s1 s' H), (step_stderrChunks fuel s e s1) by (rewrite E; reflexivity).
    rewrite <- app_assoc. f_equal. destruct e; reflexivity.
Qed.

(** X3.  The stderr output of the child is kept chunk by chunk in the
    order of arrival, whatever else happens in between; when the child
    then closes with a code other than 0, the error of the lifecycle is
    the UTF-8 text of all of it, and [executeCommand] throws
    "Compositor quit: " followed by that text. *)
Theorem crash_reports_all_stderr fuel t code s s' :
  run fuel s t = Returned s' ->
  is_zero code = false ->
  stderrChunks s' = stderrChunks s ++ stderr_of t
  /\ runningStatus (onClose code s')
     = quit_with_error
         (toString_utf8 (Buffer_concat (stderrChunks s ++ stderr_of t)))
  /\ forall nonce command params,
       executeCommand nonce command params (onClose code s')
       = inl (js "Compositor quit: "
              ++ toString_utf8 (Buffer_concat (stderrChunks s ++ stderr_of t))).
Proof.
  intros H Hz. pose proof (run_stderrChunks fuel t s s' H) as Hs.
  split; [exact Hs|].
  assert (R : runningStatus (onClose code s')
              = quit_with_error
                  (toString_utf8 (Buffer_concat (stderrChunks s ++ stderr_of t)))).
  { rewrite onClose_runningStatus, Hz, Hs. reflexivity. }
  split; [exact R|].
  intros nonce command params. unfold executeCommand. rewrite R. reflexivity.
Qed.

Lemma step_quit_stdin fuel s e s' :
  runningStatus s <> running -> state_of (step fuel s e) = Some s' ->
  stdin s' = stdin s.
Proof.
  intros Hq H. destruct e; simpl in *.
  - revert H. apply (onStdoutData_keeps (fun x => stdin x = stdin s)); auto.
    intros status nonce d x Hx.
    rewrite (proj2 (onMessage_stderr_stdin status nonce d x)). exact Hx.
  - inversion H; reflexivity.
  - inversion H; subst. apply onClose_stderr_stdin.
  - unfold executeCommand in H. destruct (runningStatus s);
      [congruence| |]; simpl in H; inversion H; reflexivity.
  - unfold finishCommands in H. destruct (runningStatus s);
      [congruence| |]; simpl in H; inversion H; reflexivity.
  - inversion H; subst. unfold waitForDone, newPromise. simpl.
    destruct (runningStatus s); reflexivity.
Qed.

(** X4.  Once the child has quit, nothing is written to its stdin any
    more: whatever is called and whatever still arrives, the lines
    written stay what they were (neither [executeCommand] nor
    [finishCommands] writes before it throws). *)
Theorem no_stdin_write_after_quit fuel t s s' :
  runningStatus s <> running ->
  state_of (run fuel s t) = Some s' ->
  stdin s' = stdin s.
Proof.
  intros Hq H.
  assert (HP : runningStatus s' <> running /\ stdin s' = stdin s).
  { apply (run_keeps (fun x => runningStatus x <> running /\ stdin x = stdin s)
             (fun _ => true)) with (fuel := fuel) (t := t) (s := s); auto.
    - intros f x e x' [Hx1 Hx2] _ Hstep. split.
      + eapply step_stays_quit; eassumption.
      + rewrite (step_quit_stdin f x e x' Hx1 Hstep). exact Hx2.
    - apply forallb_all_true. }
  apply HP.
Qed.

End Lifecycle.

Lemma running_until_close_witness :
  runningStatus (onStderrData (Buffer_from "warning") (one_pending "abc")) = running
  <-> closes [StderrData (Buffer_from "warning")] = O.
Proof.
  apply (running_until_close (RT := example_runtime) 1
           [StderrData (Buffer_from "warning")] (one_pending "abc")
           (onStderrData (Buffer_from "warning") (one_pending "abc"))).
  - reflexivity.
  - reflexivity.
Defined.

Lemma crash_reports_all_stderr_witness :
  exists s',
    run (RT := example_runtime) 40 initial
      [StderrData (Buffer_from "bo");
       ExecuteCommand (js "abc") (js "ExtractFrame") JNull;
       StderrData (Buffer_from "om")] = Returned s'
    /\ runningStatus (onClose (RT := example_runtime) (Some 1) s')
       = quit_with_error (js "boom").
Proof.
  eexists. split; [reflexivity|].
  apply (crash_reports_all_stderr (RT := example_runtime) 40
           [StderrData (Buffer_from "bo");
            ExecuteCommand (js "abc") (js "ExtractFrame") JNull;
            StderrData (Buffer_from "om")] (Some 1) initial); reflexivity.
Defined.

Lemma no_stdin_write_after_quit_witness :
  exists s',
    state_of (run (RT := example_runtime) 40
                (onClose (RT := example_runtime) (Some 0) (one_pending "abc"))
                [FinishCommands; ExecuteCommand (js "def") (js "ExtractFrame") JNull;
                 WaitForDone]) = Some s'
    /\ stdin s' = stdin (onClose (RT := example_runtime) (Some 0) (one_pending "abc")).
Proof.
  eexists. split; [reflexivity|].
  apply (no_stdin_write_after_quit (RT := example_runtime) 40
           [FinishCommands; ExecuteCommand (js "def") (js "ExtractFrame") JNull;
            WaitForDone]
           (onClose (RT := example_runtime) (Some 0) (one_pending "abc"))).
  - discriminate.
  - reflexivity.
Defined.

(** ** The parser on several frames and on split payloads *)

Section Reassembly.
Context {RT : Runtime}.

Lemma onMessage_set_outputBuffer status nonce data v s :
  onMessage status nonce data (set_outputBuffer v s)
  = set_outputBuffer v (onMessage status nonce data s).
Proof.
  unfold onMessage.
  destruct (jsstring_eqb nonce (js "0")); cbn;
    destruct (Map_get nonce (waiters s)); try reflexivity;
    destruct status; reflexivity.
Qed.

Lemma onMessage_set_missingData status nonce data v s :
  onMessage status nonce data (set_missingData v s)
  = set_missingData v (onMessage status nonce data s).
Proof.
  unfold onMessage.
  destruct (jsstring_eqb nonce (js "0")); cbn;
    destruct (Map_get nonce (waiters s)); try reflexivity;
    destruct status; reflexivity.
Qed.

Lemma dispatch_all_set fs : forall v m s,
  fold_left dispatch fs (set_outputBuffer v (set_missingData m s))
  = set_outputBuffer v (set_missingData m (fold_left dispatch fs s)).
Proof.
  induction fs as [|f fs IH]; intros v m s; [reflexivity|].
  cbn [fold_left]. unfold dispatch at 2.
  rewrite onMessage_set_outputBuffer, onMessage_set_missingData.
  apply IH.
Qed.

(** A buffer in which a frame header follows noise without a marker,
    and fewer payload bytes than the header announces: the parser
    records how many bytes are missing and returns. *)
Lemma processInput_short_payload fuel s noise nonce lengthField statusField part L status :
  outputBuffer s = noise ++ frame nonce lengthField statusField part ->
  indexOf noise separator = -1 ->
  no_colon nonce -> no_colon lengthField -> no_colon statusField ->
  Number (map Byte.to_N lengthField) = Some (Int L) ->
  Number (map Byte.to_N statusField) = Some status ->
  buf_length part < L ->
  (List.length nonce < fuel)%nat ->
  (List.length lengthField < fuel)%nat ->
  (List.length statusField < fuel)%nat ->
  processInput (S fuel) s
  = Returned (set_missingData (Some (Int (L - buf_length part))) s).
Proof.
  intros Hbuf Hnoise Hn Hl Hs HNl HNs Hshort Fn Fl Fs.
  cbn [processInput]. rewrite Hbuf.
  set (buf := noise ++ frame nonce lengthField statusField part).
  assert (H0 : indexOf buf separator = buf_length noise).
  { unfold buf, frame. apply indexOf_after_noise, Hnoise. }
  rewrite H0.
  destruct (Z.eqb_spec (buf_length noise) (-1)) as [Hneg|_];
    [pose proof (buf_length_nonneg noise); lia|].
  set (pre1 := noise ++ separator).
  set (pre2 := pre1 ++ nonce ++ [x3a]).
  set (pre3 := pre2 ++ lengthField ++ [x3a]).
  set (pre4 := pre3 ++ statusField ++ [x3a]).
  assert (E1 : buf = pre1 ++ nonce ++ x3a
                     :: (lengthField ++ x3a :: statusField ++ x3a :: part)).
  { unfold buf, frame, pre1. repeat (rewrite <- ?app_assoc; cbn [app]). reflexivity. }
  assert (E2 : buf = pre2 ++ lengthField ++ x3a :: (statusField ++ x3a :: part)).
  { unfold buf, frame, pre2, pre1. repeat (rewrite <- ?app_assoc; cbn [app]). reflexivity. }
  assert (E3 : buf = pre3 ++ statusField ++ x3a :: part).
  { unfold buf, frame, pre3, pre2, pre1. repeat (rewrite <- ?app_assoc; cbn [app]). reflexivity. }
  assert (E4 : buf = pre4 ++ part).
  { unfold buf, frame, pre4, pre3, pre2, pre1.
    repeat (rewrite <- ?app_assoc; cbn [app]). reflexivity. }
  assert (L1 : buf_length noise + buf_length separator = buf_length pre1).
  { unfold pre1. rewrite buf_length_app. reflexivity. }
  assert (L2 : buf_length pre1 + buf_length nonce + 1 = buf_length pre2).
  { unfold pre2. rewrite !buf_length_app, buf_length_cons. change (buf_length []) with 0. lia. }
  assert (L3 : buf_length pre2 + buf_length lengthField + 1 = buf_length pre3).
  { unfold pre3. rewrite !buf_length_app, buf_length_cons. change (buf_length []) with 0. lia. }
  assert (L4 : buf_length pre3 + buf_length statusField + 0 + 1 = buf_length pre4).
  { unfold pre4. rewrite !buf_length_app, buf_length_cons. change (buf_length []) with 0. lia. }
  rewrite L1.
  rewrite E1 at 1. rewrite (scanField_field nonce Hn) by assumption.
  cbn [app]. rewrite L2.
  rewrite E2 at 1. rewrite (scanField_field lengthField Hl) by assumption.
  cbn [app]. rewrite L3.
  rewrite E3 at 1. rewrite (scanField_field statusField Hs) by assumption.
  cbn [app]. rewrite HNl, HNs.
  assert (Hd : buf_length buf - (buf_length pre3 + buf_length statusField + 0) - 1
               = buf_length part).
  { rewrite E4, buf_length_app. lia. }
  rewrite Hd. cbn [jslt jssub].
  destruct (Z.ltb_spec (buf_length part) L); [reflexivity|lia].
Qed.

(** The state in which [processInput] starts when the [data] handler
    has moved everything to the buffer. *)
Lemma onStdoutData_with_marker fuel data s :
  indexOf data separator <> -1 ->
  onStdoutData fuel data s
  = processInput fuel
      (set_unprocessedBuffers [] (set_outputBuffer (pending s ++ data) s)).
Proof.
  intros Hidx. unfold onStdoutData.
  destruct (Z.eqb_spec (indexOf data separator) (-1)) as [E|_]; [congruence|].
  cbn [andb]. f_equal. unfold pending.
  change (Buffer_concat
            (unprocessedBuffers
               (set_unprocessedBuffers
                  (outputBuffer (set_unprocessedBuffers (unprocessedBuffers s ++ [data]) s)
                   :: unprocessedBuffers
                        (set_unprocessedBuffers (unprocessedBuffers s ++ [data]) s))
                  (set_unprocessedBuffers (unprocessedBuffers s ++ [data]) s))))
    with (outputBuffer s ++ Buffer_concat (unprocessedBuffers s ++ [data])).
  rewrite Buffer_concat_snoc, app_assoc. reflexivity.
Qed.

(** A chunk without the marker while [m] bytes are awaited. *)
Lemma onStdoutData_awaited fuel data s m :
  indexOf data separator = -1 ->
  missingData s = Some (Int m) ->
  onStdoutData fuel data s
  = if 0 <? m - buf_length data then
      Returned (set_missingData (Some (Int (m - buf_length data)))
                  (set_unprocessedBuffers (unprocessedBuffers s ++ [data]) s))
    else
      processInput fuel
        (set_unprocessedBuffers []
           (set_outputBuffer (pending s ++ data)
              (set_missingData (Some (Int (m - buf_length data))) s))).
Proof.
  intros Hidx Hmiss. unfold onStdoutData. rewrite Hidx, Z.eqb_refl.
  change (missingData (set_unprocessedBuffers (unprocessedBuffers s ++ [data]) s))
    with (missingData s).
  rewrite Hmiss. cbn [andb missingData set_missingData jssub jslt].
  destruct (0 <? m - buf_length data); [reflexivity|].
  f_equal. unfold pending.
  cbn [unprocessedBuffers outputBuffer set_unprocessedBuffers set_missingData set_outputBuffer].
  change (Buffer_concat (outputBuffer s :: unprocessedBuffers s ++ [data]))
    with (outputBuffer s ++ Buffer_concat (unprocessedBuffers s ++ [data])).
  rewrite Buffer_concat_snoc, app_assoc. reflexivity.
Qed.

End Reassembly.

Section Frames.
Context {RT : Runtime}.

Lemma well_formed_fields nonce lengthField statusField payload :
  well_formed nonce lengthField statusField payload ->
  no_colon nonce /\ no_colon lengthField /\ no_colon statusField
  /\ Number (map Byte.to_N lengthField) = Some (Int (buf_length payload))
  /\ (List.length statusField = 1)%nat
  /\ exists status,
       Number (map Byte.to_N statusField) = Some status
       /\ (if jsstricteq status (Int 1) then status_error else status_success)
          = (if jsstring_eqb (map Byte.to_N statusField) (js "1")
             then status_error else status_success).
Proof.
  intros (Hn & Hdec & Hmax & Hst).
  split; [exact Hn|]. split; [apply digits_no_colon, Hdec|].
  split; [destruct Hst as [-> | ->]; repeat constructor|].
  split; [apply Number_decimal; assumption|].
  destruct Hst as [-> | ->]; (split; [reflexivity|]).
  - exists (Int 0). split; reflexivity.
  - exists (Int 1). split; reflexivity.
Qed.

Lemma encode_length f :
  (List.length (nonce_field f) + List.length (length_field f)
   + List.length (status_field f) + 19 <= List.length (encode f))%nat.
Proof.
  unfold encode, frame. rewrite !length_app. cbn [List.length].
  rewrite !length_app. cbn [List.length]. rewrite !length_app. cbn [List.length].
  change (List.length separator) with 16%nat. lia.
Qed.

(** The frames of a buffer, one call of [processInput] after the
    other. *)
Lemma processInput_frames fs : forall fuel s trailing,
  Forall well_formed_frame fs ->
  indexOf trailing separator = -1 ->
  outputBuffer s = Buffer_concat (map encode fs) ++ trailing ->
  (List.length (outputBuffer s) < fuel)%nat ->
  processInput fuel s
  = Returned
      match fs with
      | [] => s
      | _ :: _ => set_outputBuffer trailing
                    (set_missingData None (fold_left dispatch fs s))
      end.
Proof.
  induction fs as [|f fs IH]; intros fuel s trailing Hwf Htrail Hbuf Hfuel.
  - destruct fuel as [|fuel]; [lia|]. cbn [processInput].
    rewrite Hbuf. change (Buffer_concat (map encode []) ++ trailing) with trailing.
    rewrite Htrail. reflexivity.
  - inversion Hwf as [|? ? [Hnoise Hf] Hrest]; subst.
    destruct (well_formed_fields _ _ _ _ Hf)
      as (Hn & Hl & Hs & HNl & Hs1 & status & HNs & Hstatus).
    set (rest := Buffer_concat (map encode fs) ++ trailing).
    assert (Hbuf' : outputBuffer s
                    = noise_before f
                      ++ frame (nonce_field f) (length_field f) (status_field f)
                           (payload_bytes f) ++ rest).
    { rewrite Hbuf. unfold rest.
      change (Buffer_concat (map encode (f :: fs)))
        with (encode f ++ Buffer_concat (map encode fs)).
      unfold encode at 1. rewrite <- !app_assoc. reflexivity. }
    assert (Hlen : (List.length (encode f) + List.length rest
                    = List.length (outputBuffer s))%nat).
    { rewrite Hbuf'. unfold encode. rewrite !length_app. lia. }
    pose proof (encode_length f) as Henc.
    destruct fuel as [|fuel]; [lia|].
    rewrite (processInput_frame fuel s _ _ _ _ _ rest status Hbuf' Hnoise Hn Hl Hs HNl HNs)
      by lia.
    rewrite Hstatus. fold (dispatch s f).
    rewrite (IH fuel _ trailing Hrest Htrail); [|reflexivity|cbn [outputBuffer set_outputBuffer]; lia].
    f_equal. destruct fs as [|g fs].
    + unfold rest. reflexivity.
    + rewrite (dispatch_all_set (g :: fs)). reflexivity.
Qed.

(** X5.  A buffer that holds well-formed frames one after the other,
    each after noise without a marker, and then more such noise: one
    call of [processInput] (with fuel for the length of the buffer)
    returns, having handed every frame to [onMessage] in the order of
    the buffer, with status [error] for the status field [1]; what stays
    in the buffer is the noise after the last frame. *)
Theorem frames_dispatched_in_order fs fuel s trailing :
  Forall well_formed_frame fs ->
  indexOf trailing separator = -1 ->
  outputBuffer s = Buffer_concat (map encode fs) ++ trailing ->
  (List.length (outputBuffer s) < fuel)%nat ->
  processInput fuel s
  = Returned
      match fs with
      | [] => s
      | _ :: _ => set_outputBuffer trailing
                    (set_missingData None (fold_left dispatch fs s))
      end.
Proof. apply processInput_frames. Qed.

End Frames.

(** X5 at work: the fourth scenario of the spec. *)
Lemma frames_dispatched_in_order_witness :
  processInput (RT := example_runtime) 60
    (set_outputBuffer (Buffer_from "remotion_buffer:a:1:0:Xremotion_buffer:b:1:0:Y")
       (set_waiters [(js "a", O); (js "b", 1%nat)] (set_nextPromise 2%nat initial)))
  = Returned
      (set_settled [(O, ResolveWith (Buffer_from "X")); (1%nat, ResolveWith (Buffer_from "Y"))]
         (set_nextPromise 2%nat initial)).
Proof.
  apply (frames_dispatched_in_order (RT := example_runtime)
           [ {| noise_before := []; nonce_field := Buffer_from "a";
                length_field := Buffer_from "1"; status_field := Buffer_from "0";
                payload_bytes := Buffer_from "X" |};
             {| noise_before := []; nonce_field := Buffer_from "b";
                length_field := Buffer_from "1"; status_field := Buffer_from "0";
                payload_bytes := Buffer_from "Y" |} ]
           60
           (set_outputBuffer (Buffer_from "remotion_buffer:a:1:0:Xremotion_buffer:b:1:0:Y")
              (set_waiters [(js "a", O); (js "b", 1%nat)] (set_nextPromise 2%nat initial)))
           []).
  - repeat constructor; try discriminate; vm_compute; discriminate.
  - reflexivity.
  - reflexivity.
  - simpl. lia.
Defined.

(** ** Chunks that end where a frame ends *)

Section WholeFrameChunks.
Context {RT : Runtime}.

Lemma onMessage_set_unprocessedBuffers status nonce data v s :
  onMessage status nonce data (set_unprocessedBuffers v s)
  = set_unprocessedBuffers v (onMessage status nonce data s).
Proof.
  unfold onMessage.
  destruct (jsstring_eqb nonce (js "0")); cbn;
    destruct (Map_get nonce (waiters s)); try reflexivity;
    destruct status; reflexivity.
Qed.

Lemma dispatch_all_set_unprocessedBuffers fs : forall v s,
  fold_left dispatch fs (set_unprocessedBuffers v s)
  = set_unprocessedBuffers v (fold_left dispatch fs s).
Proof.
  induction fs as [|f fs IH]; intros v s; [reflexivity|].
  cbn [fold_left]. unfold dispatch at 2.
  rewrite onMessage_set_unprocessedBuffers. apply IH.
Qed.

Lemma dispatch_all_set_outputBuffer fs : forall v s,
  fold_left dispatch fs (set_outputBuffer v s)
  = set_outputBuffer v (fold_left dispatch fs s).
Proof.
  induction fs as [|f fs IH]; intros v s; [reflexivity|].
  cbn [fold_left]. unfold dispatch at 2.
  rewrite onMessage_set_outputBuffer. apply IH.
Qed.

Lemma dispatch_all_drained fs s :
  fold_left dispatch fs (drained s) = drained (fold_left dispatch fs s).
Proof.
  unfold drained.
  rewrite dispatch_all_set_unprocessedBuffers, dispatch_all_set. reflexivity.
Qed.

Lemma encode_all_has_marker f fs :
  well_formed_frame f -> indexOf (Buffer_concat (map encode (f :: fs))) separator <> -1.
Proof.
  intros [Hnoise _].
  change (Buffer_concat (map encode (f :: fs)))
    with (encode f ++ Buffer_concat (map encode fs)).
  unfold encode, frame. rewrite <- !app_assoc.
  rewrite indexOf_after_noise by exact Hnoise.
  pose proof (buf_length_nonneg (noise_before f)). lia.
Qed.

(** One chunk made of whole frames, for a parser that holds nothing. *)
Lemma whole_frames_chunk fuel fs s :
  fs <> [] -> Forall well_formed_frame fs ->
  pending s = [] ->
  (List.length (Buffer_concat (map encode fs)) < fuel)%nat ->
  onStdoutData fuel (Buffer_concat (map encode fs)) s
  = Returned (drained (fold_left dispatch fs s)).
Proof.
  intros Hne Hwf Hpend Hfuel.
  destruct fs as [|f fs]; [congruence|].
  rewrite onStdoutData_with_marker
    by (apply encode_all_has_marker; inversion Hwf; assumption).
  rewrite Hpend. cbn [app].
  rewrite (processInput_frames (f :: fs) fuel _ [] Hwf eq_refl);
    [ | cbn [outputBuffer set_outputBuffer set_unprocessedBuffers];
        rewrite app_nil_r; reflexivity
      | exact Hfuel ].
  f_equal.
  rewrite dispatch_all_set_unprocessedBuffers, dispatch_all_set_outputBuffer.
  reflexivity.
Qed.

(** Chunks made of whole frames, one after the other. *)
Lemma run_whole_frame_chunks chunks : forall fuel s,
  Forall (fun fs => fs <> [] /\ Forall well_formed_frame fs
                    /\ (List.length (Buffer_concat (map encode fs)) < fuel)%nat) chunks ->
  pending s = [] ->
  run fuel s (map (fun fs => StdoutData (Buffer_concat (map encode fs))) chunks)
  = Returned
      match chunks with
      | [] => s
      | _ :: _ => drained (fold_left dispatch (List.concat chunks) s)
      end.
Proof.
  induction chunks as [|c cs IH]; intros fuel s Hall Hpend; [reflexivity|].
  inversion Hall as [|? ? (Hne & Hwf & Hfuel) Hrest]; subst.
  cbn [map run step]. rewrite whole_frames_chunk by assumption.
  rewrite (IH fuel _ Hrest) by reflexivity.
  f_equal. destruct cs as [|c' cs].
  - cbn [List.concat]. rewrite app_nil_r. reflexivity.
  - change (List.concat (c :: c' :: cs)) with (c ++ List.concat (c' :: cs)).
    rewrite fold_left_app, dispatch_all_drained. reflexivity.
Qed.

(** X6.  Chunk boundaries that fall between frames: when the parser
    holds nothing and every chunk is made of one or more whole
    well-formed frames (each after noise without a marker), every
    [data] handler returns, the frames of all chunks have been handed to
    [onMessage] in the order of their arrival, and the parser holds
    nothing again. *)
Theorem whole_frame_chunks_dispatched chunks : forall fuel s,
  Forall (fun fs => fs <> [] /\ Forall well_formed_frame fs
                    /\ (List.length (Buffer_concat (map encode fs)) < fuel)%nat) chunks ->
  pending s = [] ->
  run fuel s (map (fun fs => StdoutData (Buffer_concat (map encode fs))) chunks)
  = Returned
      match chunks with
      | [] => s
      | _ :: _ => drained (fold_left dispatch (List.concat chunks) s)
      end.
Proof. apply run_whole_frame_chunks. Qed.

End WholeFrameChunks.

(** X6 at work: two chunks, the first with two frames. *)
Lemma whole_frame_chunks_dispatched_witness :
  run (RT := example_runtime) 60
    (set_waiters [(js "a", O); (js "b", 1%nat)] (set_nextPromise 2%nat initial))
    [StdoutData (Buffer_from "remotion_buffer:a:1:0:Xremotion_buffer:0:2:0:hi");
     StdoutData (Buffer_from "remotion_buffer:b:1:1:Y")]
  = Returned
      (set_verboseLog [{| tag := js "compositor"; message := js "hi" |}]
         (set_settled [(O, ResolveWith (Buffer_from "X")); (1%nat, RejectWith (js "Y"))]
            (set_nextPromise 2%nat initial))).
Proof.
  apply (whole_frame_chunks_dispatched (RT := example_runtime)
           [ [ {| noise_before := []; nonce_field := Buffer_from "a";
                  length_field := Buffer_from "1"; status_field := Buffer_from "0";
                  payload_bytes := Buffer_from "X" |};
               {| noise_before := []; nonce_field := Buffer_from "0";
                  length_field := Buffer_from "2"; status_field := Buffer_from "0";
                  payload_bytes := Buffer_from "hi" |} ];
             [ {| noise_before := []; nonce_field := Buffer_from "b";
                  length_field := Buffer_from "1"; status_field := Buffer_from "1";
                  payload_bytes := Buffer_from "Y" |} ] ]
           60
           (set_waiters [(js "a", O); (js "b", 1%nat)] (set_nextPromise 2%nat initial))).
  - repeat constructor; try discriminate; try (vm_compute; discriminate); simpl; lia.
  - reflexivity.
Defined.

(** ** A payload that arrives in several chunks *)

Section SplitPayload.
Context {RT : Runtime}.
Variables (noise nonce lengthField payload : Buffer) (waiter : Waiter) (fuel : nat).
Hypothesis Hnoise : indexOf noise separator = -1.
Hypothesis Hwf : well_formed nonce lengthField (Buffer_from "0") payload.
Hypothesis Hfuel : (List.length nonce + List.length lengthField + 2 < fuel)%nat.

Lemma frame_app n l st (a b : Buffer) : frame n l st (a ++ b) = frame n l st a ++ b.
Proof. unfold frame. repeat (rewrite <- ?app_assoc; cbn [app]). reflexivity. Qed.

Lemma pending_moved b m s :
  pending (set_missingData m (set_unprocessedBuffers [] (set_outputBuffer b s))) = b.
Proof. unfold pending. cbn. apply app_nil_r. Qed.

(** The buffer holds the whole frame: it is handed on and nothing
    stays. *)
Lemma emit_whole_frame s :
  outputBuffer s = noise ++ frame nonce lengthField (Buffer_from "0") payload ->
  unprocessedBuffers s = [] ->
  Map_get (map Byte.to_N nonce) (waiters s) = Some waiter ->
  exists s',
    processInput fuel s = Returned s'
    /\ settled s' = settled s ++ [(waiter, ResolveWith payload)]
    /\ waiters s' = Map_delete (map Byte.to_N nonce) (waiters s)
    /\ pending s' = [] /\ missingData s' = None.
Proof.
  intros Hbuf Hunp Hget.
  destruct Hwf as (Hn & Hdec & Hmax & _).
  destruct fuel as [|fuel']; [lia|].
  assert (Hbuf' : outputBuffer s
                  = noise ++ frame nonce lengthField (Buffer_from "0") payload ++ [])
    by (rewrite app_nil_r; exact Hbuf).
  rewrite (processInput_frame fuel' s noise nonce lengthField (Buffer_from "0") payload []
             (Int 0) Hbuf' Hnoise Hn);
    [ | apply digits_no_colon; apply Hdec
      | repeat constructor
      | apply Number_decimal; assumption
      | reflexivity
      | lia | lia | simpl; lia ].
  cbn [jsstricteq Z.eqb].
  destruct (onMessage_waiter status_success (map Byte.to_N nonce) payload s waiter Hget)
    as [Hsettled Hwaiters].
  destruct fuel' as [|fuel'']; [lia|].
  eexists. split; [reflexivity|].
  unfold pending.
  cbn [settled waiters outputBuffer unprocessedBuffers missingData
         set_outputBuffer set_missingData].
  rewrite Hsettled, Hwaiters, onMessage_unprocessedBuffers, Hunp.
  repeat split.
Qed.

(** While bytes of the payload are missing, a chunk that does not
    complete it is kept and the count of missing bytes is brought up to
    date, whether the fast path queues the chunk or the parser runs. *)
Lemma awaiting_more s received c :
  pending s = noise ++ frame nonce lengthField (Buffer_from "0") received ->
  missingData s = Some (Int (buf_length payload - buf_length received)) ->
  buf_length (received ++ c) < buf_length payload ->
  exists s1,
    onStdoutData fuel c s = Returned s1
    /\ pending s1 = noise ++ frame nonce lengthField (Buffer_from "0") (received ++ c)
    /\ missingData s1 = Some (Int (buf_length payload - buf_length (received ++ c)))
    /\ waiters s1 = waiters s /\ settled s1 = settled s.
Proof.
  intros Hpend Hmiss Hshort.
  destruct Hwf as (Hn & Hdec & Hmax & _).
  rewrite buf_length_app in *.
  destruct (Z.eq_dec (indexOf c separator) (-1)) as [Hidx|Hidx].
  - rewrite (onStdoutData_awaited fuel c s _ Hidx Hmiss).
    destruct (Z.ltb_spec 0 (buf_length payload - buf_length received - buf_length c));
      [|lia].
    eexists. split; [reflexivity|].
    unfold pending in *.
    cbn [outputBuffer unprocessedBuffers missingData waiters settled
           set_missingData set_unprocessedBuffers].
    rewrite Buffer_concat_snoc, app_assoc, Hpend, frame_app, <- app_assoc.
    repeat split. f_equal. f_equal. lia.
  - rewrite (onStdoutData_with_marker fuel c s Hidx).
    destruct fuel as [|fuel']; [lia|].
    rewrite (processInput_short_payload fuel' _ noise nonce lengthField (Buffer_from "0")
               (received ++ c) (buf_length payload) (Int 0));
      [ | cbn [outputBuffer set_outputBuffer set_unprocessedBuffers];
          rewrite Hpend, frame_app, <- app_assoc; reflexivity
        | exact Hnoise | exact Hn
        | apply digits_no_colon; apply Hdec
        | repeat constructor
        | apply Number_decimal; assumption
        | reflexivity
        | rewrite buf_length_app; lia
        | lia | lia | simpl; lia ].
    eexists. split; [reflexivity|].
    rewrite pending_moved.
    cbn [missingData waiters settled
           set_missingData set_unprocessedBuffers set_outputBuffer].
    rewrite Hpend, frame_app, buf_length_app, <- app_assoc.
    repeat split.
Qed.

(** The chunk that completes the payload makes the parser run, and the
    frame is handed on. *)
Lemma awaiting_last s received c :
  pending s = noise ++ frame nonce lengthField (Buffer_from "0") received ->
  missingData s = Some (Int (buf_length payload - buf_length received)) ->
  received ++ c = payload ->
  Map_get (map Byte.to_N nonce) (waiters s) = Some waiter ->
  exists s',
    onStdoutData fuel c s = Returned s'
    /\ settled s' = settled s ++ [(waiter, ResolveWith payload)]
    /\ waiters s' = Map_delete (map Byte.to_N nonce) (waiters s)
    /\ pending s' = [] /\ missingData s' = None.
Proof.
  intros Hpend Hmiss Hall Hget.
  assert (Hlen : buf_length payload = buf_length received + buf_length c)
    by (rewrite <- Hall; apply buf_length_app).
  destruct (Z.eq_dec (indexOf c separator) (-1)) as [Hidx|Hidx].
  - rewrite (onStdoutData_awaited fuel c s _ Hidx Hmiss).
    destruct (Z.ltb_spec 0 (buf_length payload - buf_length received - buf_length c));
      [lia|].
    set (sX := set_unprocessedBuffers [] _).
    change (settled s) with (settled sX). change (waiters s) with (waiters sX).
    apply emit_whole_frame.
    + unfold sX. cbn [outputBuffer set_outputBuffer set_unprocessedBuffers].
      rewrite Hpend, <- Hall, frame_app, <- app_assoc. reflexivity.
    + reflexivity.
    + exact Hget.
  - rewrite (onStdoutData_with_marker fuel c s Hidx).
    set (sX := set_unprocessedBuffers [] _).
    change (settled s) with (settled sX). change (waiters s) with (waiters sX).
    apply emit_whole_frame.
    + unfold sX. cbn [outputBuffer set_outputBuffer set_unprocessedBuffers].
      rewrite Hpend, <- Hall, frame_app, <- app_assoc. reflexivity.
    + reflexivity.
    + exact Hget.
Qed.

Lemma nonempty_chunks_length (cs : list Buffer) :
  cs <> [] -> Forall (fun c => c <> []) cs -> 0 < buf_length (Buffer_concat cs).
Proof.
  clear Hnoise Hwf Hfuel.
  intros Hne Hall. destruct cs as [|c cs]; [congruence|].
  inversion Hall as [|? ? Hc _]; subst.
  change (Buffer_concat (c :: cs)) with (c ++ Buffer_concat cs).
  rewrite buf_length_app. pose proof (buf_length_nonneg (Buffer_concat cs)).
  destruct c; [congruence|]. rewrite buf_length_cons.
  pose proof (buf_length_nonneg c). lia.
Qed.

(** The chunks of the rest of a payload, one after the other. *)
Lemma awaiting_chunks cs : forall s received,
  pending s = noise ++ frame nonce lengthField (Buffer_from "0") received ->
  missingData s = Some (Int (buf_length payload - buf_length received)) ->
  buf_length received < buf_length payload ->
  received ++ Buffer_concat cs = payload ->
  Forall (fun c => c <> []) cs ->
  Map_get (map Byte.to_N nonce) (waiters s) = Some waiter ->
  (exists s',
     run fuel s (map StdoutData cs) = Returned s'
     /\ settled s' = settled s ++ [(waiter, ResolveWith payload)]
     /\ waiters s' = Map_delete (map Byte.to_N nonce) (waiters s)
     /\ pending s' = [] /\ missingData s' = None)
  /\ (forall before after,
        cs = before ++ after -> after <> [] ->
        exists s1,
          run fuel s (map StdoutData before) = Returned s1
          /\ settled s1 = settled s /\ waiters s1 = waiters s).
Proof.
  induction cs as [|c cs IH]; intros s received Hpend Hmiss Hshort Hall Hne Hget.
  - exfalso. change (Buffer_concat []) with (@nil byte) in Hall.
    rewrite app_nil_r in Hall. subst. lia.
  - apply Forall_cons_iff in Hne. destruct Hne as [Hc Hcs].
    change (Buffer_concat (c :: cs)) with (c ++ Buffer_concat cs) in Hall.
    destruct cs as [|c' cs].
    + (* the last chunk *)
      change (Buffer_concat []) with (@nil byte) in Hall. rewrite app_nil_r in Hall.
      split.
      * cbn [map run step].
        destruct (awaiting_last s received c Hpend Hmiss Hall Hget) as (s' & -> & Hs').
        exists s'. split; [reflexivity|exact Hs'].
      * intros before after Hsplit Hafter.
        destruct before as [|b before].
        -- exists s. repeat split.
        -- destruct before; destruct after; try discriminate; congruence.
    + (* more chunks follow *)
      assert (Hmore : buf_length (received ++ c) < buf_length payload).
      { rewrite <- Hall, !buf_length_app.
        pose proof (nonempty_chunks_length (c' :: cs) ltac:(discriminate) Hcs). lia. }
      destruct (awaiting_more s received c Hpend Hmiss Hmore)
        as (s1 & Hstep & Hpend1 & Hmiss1 & Hw1 & Hs1).
      assert (Hall1 : (received ++ c) ++ Buffer_concat (c' :: cs) = payload)
        by (rewrite <- app_assoc; exact Hall).
      assert (Hget1 : Map_get (map Byte.to_N nonce) (waiters s1) = Some waiter)
        by (rewrite Hw1; exact Hget).
      destruct (IH s1 (received ++ c) Hpend1 Hmiss1 Hmore Hall1 Hcs Hget1)
        as [(s' & Hrun & Hsettled & Hwaiters & Hrest) Hbefore].
      split.
      * exists s'. cbn [map run step]. rewrite Hstep.
        split; [exact Hrun|]. rewrite Hsettled, Hwaiters, Hs1, Hw1.
        split; [reflexivity|]. split; [reflexivity|exact Hrest].
      * intros before after Hsplit Hafter.
        destruct before as [|b before].
        -- exists s. repeat split.
        -- cbn [app] in Hsplit. inversion Hsplit; subst b.
           destruct (Hbefore before after H1 Hafter) as (s2 & Hrun2 & Hs2 & Hw2).
           exists s2. cbn [map run step]. rewrite Hstep.
           split; [exact Hrun2|]. split; congruence.
Qed.

End SplitPayload.

Section SplitPayloadClaim.
Context {RT : Runtime}.

(** X7.  A well-formed success frame whose header arrives whole in one
    chunk (while the parser holds no marker) and whose payload is cut
    anywhere into further non-empty chunks: every [data] handler
    returns; no callback is called and the waiter stays registered as
    long as a chunk is still to come; and with the last chunk the waiter
    of the nonce is resolved with the whole payload, the bytes of all
    chunks in their order, and the parser holds nothing. *)
Theorem payload_across_chunks fuel s nonce lengthField payload first cs waiter :
  indexOf (pending s) separator = -1 ->
  well_formed nonce lengthField (Buffer_from "0") payload ->
  first ++ Buffer_concat cs = payload ->
  Forall (fun c => c <> []) cs ->
  Map_get (map Byte.to_N nonce) (waiters s) = Some waiter ->
  (List.length nonce + List.length lengthField + 2 < fuel)%nat ->
  (exists s',
     run fuel s (StdoutData (frame nonce lengthField (Buffer_from "0") first)
                 :: map StdoutData cs) = Returned s'
     /\ settled s' = settled s ++ [(waiter, ResolveWith payload)]
     /\ waiters s' = Map_delete (map Byte.to_N nonce) (waiters s)
     /\ pending s' = [] /\ missingData s' = None)
  /\ (forall before after,
        cs = before ++ after -> after <> [] ->
        exists s1,
          run fuel s (StdoutData (frame nonce lengthField (Buffer_from "0") first)
                      :: map StdoutData before) = Returned s1
          /\ settled s1 = settled s /\ waiters s1 = waiters s).
Proof.
  intros Hnoise Hwf Hall Hne Hget Hfuel.
  destruct cs as [|c cs].
  - change (Buffer_concat []) with (@nil byte) in Hall. rewrite app_nil_r in Hall.
    subst first. split.
    + destruct (frame_in_one_chunk fuel s nonce lengthField payload waiter
                  Hnoise Hwf Hget Hfuel)
        as (s' & Hrun & Hsettled & Hwaiters & Hout & Hunp & Hmiss).
      exists s'. cbn [map run step]. rewrite Hrun.
      split; [reflexivity|]. split; [exact Hsettled|]. split; [exact Hwaiters|].
      split; [|exact Hmiss]. unfold pending. rewrite Hout, Hunp. reflexivity.
    + intros before after Hsplit Hafter.
      destruct before; destruct after; try discriminate; congruence.
  - assert (Hshort : buf_length first < buf_length payload).
    { rewrite <- Hall, buf_length_app.
      pose proof (nonempty_chunks_length (c :: cs) ltac:(discriminate) Hne). lia. }
    destruct Hwf as (Hn & Hdec & Hmax & Hst).
    assert (Hfirst : onStdoutData fuel (frame nonce lengthField (Buffer_from "0") first) s
                     = Returned
                         (set_missingData
                            (Some (Int (buf_length payload - buf_length first)))
                            (set_unprocessedBuffers []
                               (set_outputBuffer
                                  (pending s
                                   ++ frame nonce lengthField (Buffer_from "0") first) s)))).
    { rewrite onStdoutData_with_marker by (rewrite indexOf_frame; discriminate).
      destruct fuel as [|fuel']; [lia|].
      apply (processInput_short_payload fuel' _ (pending s) nonce lengthField
               (Buffer_from "0") first (buf_length payload) (Int 0));
        [ reflexivity | exact Hnoise | exact Hn
          | apply digits_no_colon; apply Hdec
          | repeat constructor
          | apply Number_decimal; assumption
          | reflexivity | exact Hshort | lia | lia | simpl; lia ]. }
    set (s1 := set_missingData _ _) in Hfirst.
    destruct (awaiting_chunks (pending s) nonce lengthField payload waiter fuel
                Hnoise (conj Hn (conj Hdec (conj Hmax Hst))) Hfuel
                (c :: cs) s1 first)
      as [(s' & Hrun & Hrest) Hbefore];
      [ apply pending_moved | reflexivity | exact Hshort | exact Hall | exact Hne
        | exact Hget | ].
    split.
    + exists s'. cbn [map run step] in *. rewrite Hfirst. split; [exact Hrun|exact Hrest].
    + intros before after Hsplit Hafter.
      destruct (Hbefore before after Hsplit Hafter) as (s2 & Hrun2 & Hs2).
      exists s2. cbn [map run step]. rewrite Hfirst. split; [exact Hrun2|exact Hs2].
Qed.

End SplitPayloadClaim.

(** X7 at work: the third scenario of the spec, a payload of ten bytes
    in ten chunks after the header. *)
Lemma payload_across_chunks_witness :
  exists s',
    run (RT := example_runtime) 40 (one_pending "abc")
      (StdoutData (frame (Buffer_from "abc") (Buffer_from "10") (Buffer_from "0") [])
       :: map StdoutData
            (map Buffer_from ["0"; "1"; "2"; "3"; "4"; "5"; "6"; "7"; "8"; "9"]%string))
    = Returned s'
    /\ settled s' = settled (one_pending "abc")
                    ++ [(O, ResolveWith (Buffer_from "0123456789"))]
    /\ waiters s' = Map_delete (map Byte.to_N (Buffer_from "abc"))
                      (waiters (one_pending "abc"))
    /\ pending s' = [] /\ missingData s' = None.
Proof.
  refine (proj1 (payload_across_chunks (RT := example_runtime) 40 (one_pending "abc")
                   (Buffer_from "abc") (Buffer_from "10") (Buffer_from "0123456789") []
                   (map Buffer_from ["0"; "1"; "2"; "3"; "4"; "5"; "6"; "7"; "8"; "9"]%string)
                   O _ _ _ _ _ _)).
  - vm_compute. reflexivity.
  - repeat split.
    + repeat constructor; discriminate.
    + discriminate.
    + vm_compute. discriminate.
    + left. reflexivity.
  - vm_compute. reflexivity.
  - repeat constructor; discriminate.
  - vm_compute. reflexivity.
  - simpl. lia.
Defined.

(** ** Commands, their lines and their waiters *)

Section Commands.
Context {RT : Runtime}.

Lemma run_quit_stdin fuel t s s' :
  runningStatus s <> running -> state_of (run fuel s t) = Some s' ->
  stdin s' = stdin s.
Proof.
  intros Hq H.
  assert (HP : runningStatus s' <> running /\ stdin s' = stdin s).
  { apply (run_keeps (fun x => runningStatus x <> running /\ stdin x = stdin s)
             (fun _ => true)) with (fuel := fuel) (t := t) (s := s); auto.
    - intros f x e x' [Hx1 Hx2] _ Hstep. split.
      + eapply step_stays_quit; eassumption.
      + rewrite (step_quit_stdin f x e x' Hx1 Hstep). exact Hx2.
    - apply forallb_all_true. }
  apply HP.
Qed.

Lemma step_running_stdin fuel s e s' :
  runningStatus s = running -> is_Close e = false ->
  state_of (step fuel s e) = Some s' ->
  stdin s' = stdin s ++ stdin_of [e].
Proof.
  intros Hr Hc H. destruct e; simpl in *; rewrite ?app_nil_r; try discriminate.
  - revert H. apply (onStdoutData_keeps (fun x => stdin x = stdin s)); auto.
    intros status nonce d x Hx.
    rewrite (proj2 (onMessage_stderr_stdin status nonce d x)). exact Hx.
  - inversion H; reflexivity.
  - unfold executeCommand in H. rewrite Hr in H. simpl in H. inversion H; reflexivity.
  - unfold finishCommands in H. rewrite Hr in H. simpl in H. inversion H; reflexivity.
  - inversion H; subst. unfold waitForDone, newPromise. simpl. rewrite Hr. reflexivity.
Qed.

(** X8.  What the child reads: in a run that starts with the child
    running, its stdin receives one line for every call of
    [executeCommand] (the composed command) and of [finishCommands]
    ([EOF]) made before the first [close] event, in the order of the
    calls, and nothing else; no event of the child and no call of
    [waitForDone] writes to it. *)
Theorem stdin_lines_in_call_order fuel t : forall s s',
  runningStatus s = running ->
  run fuel s t = Returned s' ->
  stdin s' = stdin s ++ stdin_of t.
Proof.
  induction t as [|e t IH]; intros s s' Hr H; simpl in H.
  - inversion H; subst. simpl. rewrite app_nil_r. reflexivity.
  - destruct (step fuel s e) as [s1|s1|] eqn:E; try discriminate.
    destruct (is_Close e) eqn:Hc.
    + destruct e; try discriminate. simpl in E. inversion E; subst s1.
      cbn [stdin_of]. rewrite app_nil_r.
      rewrite (run_quit_stdin fuel t (onClose code s) s').
      * apply onClose_stderr_stdin.
      * rewrite onClose_runningStatus. destruct (is_zero code); discriminate.
      * rewrite H. reflexivity.
    + assert (R : runningStatus s1 = running).
      { rewrite (step_runningStatus fuel s e s1 Hc); [exact Hr|rewrite E; reflexivity]. }
      rewrite (IH s1 s' R H), (step_running_stdin fuel s e s1 Hr Hc)
        by (rewrite E; reflexivity).
      rewrite <- app_assoc. f_equal. destruct e; try discriminate; reflexivity.
Qed.

(** *** A pending command is not forgotten *)

Lemma Map_get_set_other {V} (k k' : jsstring) (v : V) m :
  k <> k' -> Map_get k (Map_set k' v m) = Map_get k m.
Proof.
  intros Hne. induction m as [|[k0 v0] m IH]; simpl.
  - destruct (jsstring_eqb k k') eqn:E; [apply jsstring_eqb_eq in E; congruence|reflexivity].
  - destruct (jsstring_eqb k' k0) eqn:E1; simpl.
    + apply jsstring_eqb_eq in E1. subst k0.
      destruct (jsstring_eqb k k') eqn:E2;
        [apply jsstring_eqb_eq in E2; congruence|reflexivity].
    + destruct (jsstring_eqb k k0); [reflexivity|exact IH].
Qed.

Lemma Map_get_delete_other {V} (k k' : jsstring) (m : JsMap V) :
  k <> k' -> Map_get k (Map_delete k' m) = Map_get k m.
Proof.
  intros Hne. induction m as [|[k0 v0] m IH]; simpl; [reflexivity|].
  destruct (jsstring_eqb k' k0) eqn:E1; simpl.
  - apply jsstring_eqb_eq in E1. subst k0.
    destruct (jsstring_eqb k k') eqn:E2;
      [apply jsstring_eqb_eq in E2; congruence|reflexivity].
  - destruct (jsstring_eqb k k0); [reflexivity|exact IH].
Qed.

Lemma onMessage_no_waiter status nonce data s :
  Map_get nonce (waiters s) = None ->
  settled (onMessage status nonce data s) = settled s
  /\ waiters (onMessage status nonce data s) = waiters s.
Proof.
  intros Hget. unfold onMessage.
  destruct (jsstring_eqb nonce (js "0"));
    cbn [waiters verboseAdvanced set_verboseLog]; rewrite Hget; split; reflexivity.
Qed.

Lemma settled_ids_mono p fuel s e s' :
  In p (settled_ids s) -> state_of (step fuel s e) = Some s' -> In p (settled_ids s').
Proof.
  unfold settled_ids. intros Hin H. apply in_map_iff in Hin.
  destruct Hin as ([q c] & Hq & Hin). simpl in Hq. subst q.
  apply in_map_iff. exists (p, c). split; [reflexivity|].
  eapply step_settled_mono; eassumption.
Qed.

Lemma tracked_onMessage k w status nonce data s :
  Map_get k (waiters s) = Some w \/ In w (settled_ids s) ->
  Map_get k (waiters (onMessage status nonce data s)) = Some w
  \/ In w (settled_ids (onMessage status nonce data s)).
Proof.
  intros [Hget|Hin].
  - destruct (Map_get nonce (waiters s)) as [w'|] eqn:G.
    + destruct (onMessage_waiter status nonce data s w' G) as [Hs Hw].
      destruct (jsstring_eqb k nonce) eqn:E.
      * apply jsstring_eqb_eq in E. subst k. assert (w' = w) by congruence. subst w'.
        right. unfold settled_ids. rewrite Hs, map_app. apply in_or_app. right.
        left. reflexivity.
      * left. rewrite Hw, Map_get_delete_other; [exact Hget|].
        intros ->. rewrite (proj2 (jsstring_eqb_eq nonce nonce) eq_refl) in E. discriminate.
    + left. rewrite (proj2 (onMessage_no_waiter status nonce data s G)). exact Hget.
  - right. unfold settled_ids in *. apply in_map_iff in Hin.
    destruct Hin as ([q c] & Hq & Hin). simpl in Hq. subst q.
    apply in_map_iff. exists (w, c). split; [reflexivity|].
    apply onMessage_settled_mono, Hin.
Qed.

Lemma tracked_step k w fuel s e s' :
  uses_nonce k e = false ->
  Map_get k (waiters s) = Some w \/ In w (settled_ids s) ->
  state_of (step fuel s e) = Some s' ->
  Map_get k (waiters s') = Some w \/ In w (settled_ids s').
Proof.
  intros Hk [Hget|Hin] H; [|right; eapply settled_ids_mono; eassumption].
  destruct e; simpl in H.
  - revert H.
    apply (onStdoutData_keeps
             (fun x => Map_get k (waiters x) = Some w \/ In w (settled_ids x)));
      [ intros; apply tracked_onMessage; assumption
        | intros; assumption | intros; assumption | intros; assumption
        | left; exact Hget ].
  - inversion H; subst. left. exact Hget.
  - inversion H; subst. right. unfold settled_ids. rewrite onClose_settled, map_app.
    apply in_or_app. right. apply Map_get_In in Hget.
    destruct (is_zero code); rewrite map_app, map_fst_calls; apply in_or_app;
      [right|left]; exact Hget.
  - simpl in Hk. unfold executeCommand in H.
    destruct (runningStatus s); simpl in H; inversion H; subst s';
      left; try exact Hget.
    cbn [waiters set_waiters set_stdin set_nextPromise].
    rewrite Map_get_set_other; [exact Hget|].
    intros ->. rewrite (proj2 (jsstring_eqb_eq nonce nonce) eq_refl) in Hk. discriminate.
  - unfold finishCommands in H.
    destruct (runningStatus s); simpl in H; inversion H; subst s'; left; exact Hget.
  - inversion H; subst s'. left. unfold waitForDone, newPromise.
    cbn [runningStatus set_nextPromise]. destruct (runningStatus s); exact Hget.
Qed.

(** X9.  A pending command is not forgotten: a waiter registered under
    a nonce is, at every later point of every run in which no further
    command is sent under that nonce, either still registered under it
    or one of its callbacks has been called.  (This holds also where a
    handler is still running.) *)
Theorem pending_command_not_forgotten fuel t k w s s' :
  Map_get k (waiters s) = Some w ->
  forallb (fun e => negb (uses_nonce k e)) t = true ->
  state_of (run fuel s t) = Some s' ->
  Map_get k (waiters s') = Some w \/ In w (settled_ids s').
Proof.
  intros Hget Hok H.
  apply (run_keeps (fun x => Map_get k (waiters x) = Some w \/ In w (settled_ids x))
           (fun e => negb (uses_nonce k e))) with (fuel := fuel) (t := t) (s := s).
  - intros f x e x' HP He. apply tracked_step; [|exact HP].
    destruct (uses_nonce k e); [discriminate|reflexivity].
  - exact Hok.
  - left. exact Hget.
  - exact H.
Qed.

(** *** A nonce used twice *)

Lemma Map_set_replaces (k : jsstring) (v w : promise) m :
  Map_get k m = Some w -> NoDup (Map_values m) -> v <> w ->
  ~ In w (Map_values (Map_set k v m)).
Proof.
  intros Hget Hnd Hne. induction m as [|[k0 v0] m IH]; [discriminate|].
  simpl in Hget. unfold Map_values in *. simpl in Hnd. inversion Hnd as [|? ? Hv0 Hrest]; subst.
  simpl. destruct (jsstring_eqb k k0); simpl.
  - inversion Hget; subst v0. intros [E|Hin]; [congruence|contradiction].
  - intros [E|Hin].
    + subst v0. apply Hv0. apply (Map_get_In k m w Hget).
    + exact (IH Hget Hrest Hin).
Qed.

(** X10.  Why the nonces must be unique: when [executeCommand] is given
    a nonce under which a waiter is still registered, [waiters.set]
    replaces that waiter, and the promise of the earlier command is
    settled by nothing that happens afterwards: neither a frame with
    the nonce, nor the [close] event, calls one of its callbacks. *)
Theorem reused_nonce_abandons_waiter fuel t k w command params p s s1 s' :
  consistent s ->
  Map_get k (waiters s) = Some w ->
  executeCommand k command params s = inr (p, s1) ->
  state_of (run fuel s1 t) = Some s' ->
  fate w s' = None /\ ~ In w (Map_values (waiters s')).
Proof.
  intros (Hnd & Hold & Hwnd & Hw & Hh) Hget Hexec H.
  assert (Hin : In w (Map_values (waiters s))) by (apply (Map_get_In k), Hget).
  destruct (Hw w Hin) as [Hlt Hns].
  assert (HA : abandoned w s1).
  { unfold executeCommand in Hexec.
    destruct (runningStatus s); simpl in Hexec; inversion Hexec; subst p s1.
    unfold abandoned.
    cbn [nextPromise set_waiters waiters set_stdin set_nextPromise resolve reject].
    split; [lia|]. split; [apply Map_set_replaces; [exact Hget|exact Hwnd|lia]|].
    split; [intros E; apply (proj1 (proj2 (Hh w (or_introl E)))); exact Hin|].
    split; [intros E; apply (proj1 (proj2 (Hh w (or_intror E)))); exact Hin|].
    exact Hns. }
  assert (HA' : abandoned w s').
  { apply (run_keeps (abandoned w) (fun _ => true)) with (fuel := fuel) (t := t) (s := s1).
    - intros f x e x' Hx _. apply abandoned_step, Hx.
    - apply forallb_all_true.
    - exact HA.
    - exact H. }
  destruct HA' as (_ & Hnw & _ & _ & Hns').
  split; [apply fate_pending, Hns'|exact Hnw].
Qed.

End Commands.

(** ** Answers and the commands they belong to *)

Section Responses.
Context {RT : Runtime}.

Lemma to_N_injective (a b : Buffer) : map Byte.to_N a = map Byte.to_N b -> a = b.
Proof.
  revert b. induction a as [|x a IH]; intros [|y b] H; try discriminate; [reflexivity|].
  simpl in H. inversion H as [[Hx Hab]]. f_equal; [|apply IH, Hab].
  assert (E : Some x = Some y)
    by (rewrite <- (Byte.of_to_N x), <- (Byte.of_to_N y), Hx; reflexivity).
  inversion E; reflexivity.
Qed.

Lemma dispatch_waiter s f w :
  Map_get (map Byte.to_N (nonce_field f)) (waiters s) = Some w ->
  settled (dispatch s f) = settled s ++ [(w, frame_call f)]
  /\ waiters (dispatch s f) = Map_delete (map Byte.to_N (nonce_field f)) (waiters s).
Proof.
  intros Hget. unfold dispatch, frame_call.
  destruct (jsstring_eqb _ (js "1")).
  - exact (onMessage_waiter status_error _ _ s w Hget).
  - exact (onMessage_waiter status_success _ _ s w Hget).
Qed.

Lemma dispatch_settled_grows s g : exists l, settled (dispatch s g) = settled s ++ l.
Proof.
  unfold dispatch.
  set (st := if jsstring_eqb _ _ then status_error else status_success). clearbody st.
  destruct (Map_get (map Byte.to_N (nonce_field g)) (waiters s)) as [w'|] eqn:G.
  - eexists. apply (onMessage_waiter st _ _ s w' G).
  - exists []. rewrite app_nil_r. apply (onMessage_no_waiter st _ _ s G).
Qed.

Lemma find_call_first p (x : promise * call) (l l' : list (promise * call)) :
  find (fun c => Nat.eqb (fst c) p) l = Some x ->
  find (fun c => Nat.eqb (fst c) p) (l ++ l') = Some x.
Proof.
  induction l as [|y l IH]; simpl; [discriminate|].
  destruct (Nat.eqb _ p); [trivial|exact IH].
Qed.

Lemma fate_dispatch_all fs : forall s w c,
  fate w s = Some c -> fate w (fold_left dispatch fs s) = Some c.
Proof.
  induction fs as [|g fs IH]; intros s w c H; [exact H|].
  simpl. apply IH. unfold fate in *. destruct (dispatch_settled_grows s g) as [l ->].
  match type of H with
  | context [find ?f (settled s)] => destruct (find f (settled s)) as [x|] eqn:F
  end; [|discriminate].
  rewrite (find_call_first w x _ l F). exact H.
Qed.

Lemma fate_settled w c s : fate w s = Some c -> In w (settled_ids s).
Proof.
  unfold fate, settled_ids. intros H.
  match type of H with
  | context [find ?f (settled s)] => destruct (find f (settled s)) as [[q c']|] eqn:F
  end; [|discriminate].
  apply find_some in F. destruct F as [Hin Hq]. simpl in Hq.
  apply Nat.eqb_eq in Hq. subst q.
  apply in_map_iff. exists (w, c'). split; [reflexivity|exact Hin].
Qed.

Lemma consistent_dispatch_all fs : forall s,
  consistent s -> consistent (fold_left dispatch fs s).
Proof.
  induction fs as [|g fs IH]; intros s Hc; [exact Hc|].
  simpl. apply IH. unfold dispatch. apply consistent_onMessage, Hc.
Qed.

Lemma dispatch_others_registered before : forall s k w,
  Map_get k (waiters s) = Some w ->
  Forall (fun g => map Byte.to_N (nonce_field g) <> k) before ->
  Map_get k (waiters (fold_left dispatch before s)) = Some w.
Proof.
  induction before as [|g gs IH]; intros s k w Hget Hall; [exact Hget|].
  apply Forall_cons_iff in Hall. destruct Hall as [Hg Hgs]. simpl.
  apply IH; [|exact Hgs].
  unfold dispatch.
  set (st := if jsstring_eqb _ _ then status_error else status_success). clearbody st.
  destruct (Map_get (map Byte.to_N (nonce_field g)) (waiters s)) as [w'|] eqn:G.
  - rewrite (proj2 (onMessage_waiter st _ _ s w' G)), Map_get_delete_other;
      [exact Hget|congruence].
  - rewrite (proj2 (onMessage_no_waiter st _ _ s G)). exact Hget.
Qed.

(** X11.  Answers are matched to commands by their nonce, not by their
    order: when the chunks of stdout are made of whole well-formed
    frames, the waiter registered under a nonce gets the outcome of the
    first frame that carries this nonce (rejected for status 1,
    resolved with the payload otherwise), however many frames for other
    nonces come before it and whatever comes after it, and it is
    registered no more. *)
Theorem response_matched_by_nonce chunks before f after fuel s w :
  consistent s ->
  pending s = [] ->
  Forall (fun fs => fs <> [] /\ Forall well_formed_frame fs
                    /\ (List.length (Buffer_concat (map encode fs)) < fuel)%nat) chunks ->
  List.concat chunks = before ++ f :: after ->
  Forall (fun g => nonce_field g <> nonce_field f) before ->
  Map_get (map Byte.to_N (nonce_field f)) (waiters s) = Some w ->
  exists s',
    run fuel s (map (fun fs => StdoutData (Buffer_concat (map encode fs))) chunks)
    = Returned s'
    /\ fate w s' = Some (frame_call f)
    /\ ~ In w (Map_values (waiters s')).
Proof.
  intros Hc Hpend Hall Hsplit Hbefore Hget.
  rewrite (run_whole_frame_chunks chunks fuel s Hall Hpend).
  destruct chunks as [|c cs]; [destruct before; discriminate|].
  eexists. split; [reflexivity|].
  rewrite Hsplit, fold_left_app. cbn [fold_left].
  assert (Hget1 : Map_get (map Byte.to_N (nonce_field f))
                    (waiters (fold_left dispatch before s)) = Some w).
  { apply dispatch_others_registered; [exact Hget|].
    eapply Forall_impl; [|exact Hbefore]. intros g Hg E. apply Hg, to_N_injective, E. }
  pose proof (consistent_dispatch_all before s Hc) as Hc1.
  set (s1 := fold_left dispatch before s) in *.
  destruct (dispatch_waiter s1 f w Hget1) as [Hs Hw].
  assert (Hns : ~ In w (settled_ids s1)).
  { destruct Hc1 as (_ & _ & _ & Hwait & _). apply Hwait, (Map_get_In _ _ _ Hget1). }
  assert (Hf : fate w (dispatch s1 f) = Some (frame_call f)).
  { unfold fate. rewrite Hs, find_call_app by exact Hns.
    rewrite find_call_here. reflexivity. }
  assert (Hfinal : fate w (fold_left dispatch after (dispatch s1 f)) = Some (frame_call f))
    by (apply fate_dispatch_all, Hf).
  split; [exact Hfinal|].
  assert (Hc2 : consistent (fold_left dispatch after (dispatch s1 f))).
  { apply consistent_dispatch_all. unfold dispatch. apply consistent_onMessage, Hc1. }
  destruct Hc2 as (_ & _ & _ & Hwait & _).
  intros Hin. apply (proj2 (Hwait w Hin)). apply (fate_settled _ _ _ Hfinal).
Qed.

(** X12.  The status of a frame is read as a number: a whole frame that
    arrives in one chunk (while the parser holds no marker) and whose
    nonce has a waiter rejects the waiter exactly when [Number] of its
    status field is 1 (as for [1], [01], [1.0], [+1], [0x1] or [1]
    between white space), and resolves it with the payload for every
    other status field, be it another number, empty, or no number at
    all. *)
Theorem status_read_as_number fuel s nonce lengthField statusField payload waiter :
  indexOf (pending s) separator = -1 ->
  no_colon nonce ->
  decimal_of lengthField (buf_length payload) ->
  buf_length payload <= MAX_EXACT ->
  no_colon statusField ->
  Map_get (map Byte.to_N nonce) (waiters s) = Some waiter ->
  (List.length nonce + List.length lengthField + List.length statusField + 1 < fuel)%nat ->
  exists s',
    onStdoutData fuel (frame nonce lengthField statusField payload) s = Returned s'
    /\ settled s'
       = settled s
         ++ [(waiter, if is_one (Number (map Byte.to_N statusField))
                      then RejectWith (rejection_message payload)
                      else ResolveWith payload)]
    /\ waiters s' = Map_delete (map Byte.to_N nonce) (waiters s)
    /\ pending s' = [] /\ missingData s' = None.
Proof.
  intros Hnoise Hn Hdec Hmax Hst Hget Hfuel.
  set (data := frame nonce lengthField statusField payload).
  rewrite onStdoutData_with_marker by (unfold data; rewrite indexOf_frame; discriminate).
  set (s0 := set_unprocessedBuffers [] _).
  assert (Hbuf : outputBuffer s0 = pending s ++ data ++ []).
  { unfold s0. cbn [outputBuffer set_outputBuffer set_unprocessedBuffers].
    rewrite app_nil_r. reflexivity. }
  assert (Hw0 : waiters s0 = waiters s) by reflexivity.
  assert (Hs0 : settled s0 = settled s) by reflexivity.
  assert (Hu0 : unprocessedBuffers s0 = []) by reflexivity.
  clearbody s0.
  destruct fuel as [|fuel]; [lia|].
  rewrite (processInput_frame_status fuel s0 _ nonce lengthField statusField payload []
             Hbuf Hnoise Hn);
    [ | apply digits_no_colon; apply Hdec
      | exact Hst
      | apply Number_decimal; assumption
      | lia | lia | lia ].
  set (st := if is_one (Number (map Byte.to_N statusField))
             then status_error else status_success).
  destruct (onMessage_waiter st (map Byte.to_N nonce) payload s0 waiter)
    as [Hsettled Hwaiters]; [rewrite Hw0; exact Hget|].
  destruct fuel as [|fuel]; [lia|].
  eexists. split; [reflexivity|].
  unfold pending.
  cbn [settled waiters outputBuffer unprocessedBuffers missingData
         set_outputBuffer set_missingData].
  rewrite Hsettled, Hwaiters, Hs0, Hw0, onMessage_unprocessedBuffers, Hu0.
  split; [|repeat split].
  unfold st. destruct (is_one (Number (map Byte.to_N statusField))); reflexivity.
Qed.

End Responses.

(** X8 at work: two calls before the [close] event, one after it. *)
Lemma stdin_lines_in_call_order_witness :
  exists s',
    run (RT := example_runtime) 40 initial
      [ExecuteCommand (js "abc") (js "ExtractFrame") JNull;
       StdoutData (Buffer_from "remotion_buffer:abc:3:0:foo");
       FinishCommands;
       Close (Some 0);
       ExecuteCommand (js "def") (js "ExtractFrame") JNull] = Returned s'
    /\ stdin s' = stdin initial
                  ++ [ComposedLine (js "abc") (js "ExtractFrame") JNull; EOFLine].
Proof.
  eexists. split; [vm_compute; reflexivity|].
  apply (stdin_lines_in_call_order (RT := example_runtime) 40
           [ExecuteCommand (js "abc") (js "ExtractFrame") JNull;
            StdoutData (Buffer_from "remotion_buffer:abc:3:0:foo");
            FinishCommands;
            Close (Some 0);
            ExecuteCommand (js "def") (js "ExtractFrame") JNull] initial);
    vm_compute; reflexivity.
Defined.

(** X9 at work: the waiter of "abc" over another command, a frame for
    that command and a stderr chunk. *)
Lemma pending_command_not_forgotten_witness :
  exists s',
    state_of (run (RT := example_runtime) 40 (one_pending "abc")
                [ExecuteCommand (js "def") (js "ExtractFrame") JNull;
                 StdoutData (Buffer_from "remotion_buffer:def:2:0:ok");
                 StderrData (Buffer_from "warning")]) = Some s'
    /\ (Map_get (js "abc") (waiters s') = Some O \/ In O (settled_ids s')).
Proof.
  eexists. split; [vm_compute; reflexivity|].
  apply (pending_command_not_forgotten (RT := example_runtime) 40
           [ExecuteCommand (js "def") (js "ExtractFrame") JNull;
            StdoutData (Buffer_from "remotion_buffer:def:2:0:ok");
            StderrData (Buffer_from "warning")]
           (js "abc") O (one_pending "abc")); vm_compute; reflexivity.
Defined.

Lemma consistent_one_pending nonce : consistent (one_pending nonce).
Proof.
  unfold consistent, one_pending, settled_ids, Map_values. cbn.
  split; [constructor|]. split; [intros p []|].
  split; [repeat constructor; intros []|].
  split; [intros p [<-|[]]; split; [lia|intros []]|].
  intros p [H|H]; discriminate.
Qed.

(** X10 at work: "abc" is used again while its first command is
    pending; the answer and the [close] event leave the first promise
    pending. *)
Lemma reused_nonce_abandons_waiter_witness :
  exists s1 s',
    executeCommand (js "abc") (js "ExtractFrame") JNull (one_pending "abc")
    = inr (1%nat, s1)
    /\ state_of (run (RT := example_runtime) 40 s1
                   [StdoutData (Buffer_from "remotion_buffer:abc:3:0:foo");
                    Close (Some 0)]) = Some s'
    /\ fate O s' = None /\ ~ In O (Map_values (waiters s')).
Proof.
  eexists. eexists. split; [vm_compute; reflexivity|].
  split; [vm_compute; reflexivity|].
  eapply (reused_nonce_abandons_waiter (RT := example_runtime) 40
           [StdoutData (Buffer_from "remotion_buffer:abc:3:0:foo"); Close (Some 0)]
           (js "abc") O (js "ExtractFrame") JNull 1%nat (one_pending "abc"));
    [apply consistent_one_pending|reflexivity|vm_compute; reflexivity
     |vm_compute; reflexivity].
Defined.

Lemma consistent_two_pending :
  consistent (set_waiters [(js "a", O); (js "b", 1%nat)] (set_nextPromise 2%nat initial)).
Proof.
  unfold consistent, settled_ids, Map_values. cbn.
  split; [constructor|]. split; [intros p []|].
  split; [apply NoDup_cons;
            [intros [H|[]]; discriminate|apply NoDup_cons; [intros []|constructor]]|].
  split; [intros p [<-|[<-|[]]]; split; try lia; intros []|].
  intros p [H|H]; discriminate.
Qed.

(** X11 at work: the answer to "b" and a diagnostic come before the
    answer to "a". *)
Lemma response_matched_by_nonce_witness :
  exists s',
    run (RT := example_runtime) 60
      (set_waiters [(js "a", O); (js "b", 1%nat)] (set_nextPromise 2%nat initial))
      (map (fun fs => StdoutData (Buffer_concat (map encode fs)))
         [ [ {| noise_before := []; nonce_field := Buffer_from "b";
                length_field := Buffer_from "1"; status_field := Buffer_from "0";
                payload_bytes := Buffer_from "Y" |};
             {| noise_before := []; nonce_field := Buffer_from "0";
                length_field := Buffer_from "2"; status_field := Buffer_from "0";
                payload_bytes := Buffer_from "hi" |} ];
           [ {| noise_before := []; nonce_field := Buffer_from "a";
                length_field := Buffer_from "1"; status_field := Buffer_from "0";
                payload_bytes := Buffer_from "X" |} ] ])
    = Returned s'
    /\ fate O s'
       = Some (frame_call (RT := example_runtime)
                 {| noise_before := []; nonce_field := Buffer_from "a";
                    length_field := Buffer_from "1"; status_field := Buffer_from "0";
                    payload_bytes := Buffer_from "X" |})
    /\ ~ In O (Map_values (waiters s')).
Proof.
  apply (response_matched_by_nonce (RT := example_runtime)
           [ [ {| noise_before := []; nonce_field := Buffer_from "b";
                  length_field := Buffer_from "1"; status_field := Buffer_from "0";
                  payload_bytes := Buffer_from "Y" |};
               {| noise_before := []; nonce_field := Buffer_from "0";
                  length_field := Buffer_from "2"; status_field := Buffer_from "0";
                  payload_bytes := Buffer_from "hi" |} ];
             [ {| noise_before := []; nonce_field := Buffer_from "a";
                  length_field := Buffer_from "1"; status_field := Buffer_from "0";
                  payload_bytes := Buffer_from "X" |} ] ]
           [ {| noise_before := []; nonce_field := Buffer_from "b";
                length_field := Buffer_from "1"; status_field := Buffer_from "0";
                payload_bytes := Buffer_from "Y" |};
             {| noise_before := []; nonce_field := Buffer_from "0";
                length_field := Buffer_from "2"; status_field := Buffer_from "0";
                payload_bytes := Buffer_from "hi" |} ]
           {| noise_before := []; nonce_field := Buffer_from "a";
              length_field := Buffer_from "1"; status_field := Buffer_from "0";
              payload_bytes := Buffer_from "X" |}
           []
           60
           (set_waiters [(js "a", O); (js "b", 1%nat)] (set_nextPromise 2%nat initial))
           O).
  - apply consistent_two_pending.
  - reflexivity.
  - repeat constructor; try discriminate; try (vm_compute; discriminate); simpl; lia.
  - reflexivity.
  - repeat constructor; discriminate.
  - reflexivity.
Defined.

(** X12 at work: the status fields [1.0], which is 1, and [ok], which
    is no number. *)
Lemma status_read_as_number_witness :
  (exists s',
     onStdoutData (RT := example_runtime) 40
       (frame (Buffer_from "abc") (Buffer_from "3") (Buffer_from "1.0") (Buffer_from "foo"))
       (one_pending "abc") = Returned s'
     /\ settled s'
        = settled (one_pending "abc")
          ++ [(O, RejectWith (rejection_message (RT := example_runtime) (Buffer_from "foo")))]
     /\ waiters s' = Map_delete (map Byte.to_N (Buffer_from "abc"))
                       (waiters (one_pending "abc"))
     /\ pending s' = [] /\ missingData s' = None)
  /\ (exists s',
        onStdoutData (RT := example_runtime) 40
          (frame (Buffer_from "abc") (Buffer_from "3") (Buffer_from "ok") (Buffer_from "foo"))
          (one_pending "abc") = Returned s'
        /\ settled s' = settled (one_pending "abc") ++ [(O, ResolveWith (Buffer_from "foo"))]
        /\ waiters s' = Map_delete (map Byte.to_N (Buffer_from "abc"))
                          (waiters (one_pending "abc"))
        /\ pending s' = [] /\ missingData s' = None).
Proof.
  split.
  - refine (status_read_as_number (RT := example_runtime) 40 (one_pending "abc")
              (Buffer_from "abc") (Buffer_from "3") (Buffer_from "1.0") (Buffer_from "foo")
              O _ _ _ _ _ _ _).
    + reflexivity.
    + repeat constructor.
    + repeat split. discriminate.
    + vm_compute. discriminate.
    + repeat constructor.
    + reflexivity.
    + simpl. lia.
  - refine (status_read_as_number (RT := example_runtime) 40 (one_pending "abc")
              (Buffer_from "abc") (Buffer_from "3") (Buffer_from "ok") (Buffer_from "foo")
              O _ _ _ _ _ _ _).
    + reflexivity.
    + repeat constructor.
    + repeat split. discriminate.
    + vm_compute. discriminate.
    + repeat constructor.
    + reflexivity.
    + simpl. lia.
Defined.

(** ** Answers that nobody waits for *)

Section UnknownNonce.
Context {RT : Runtime}.

Lemma dispatch_unknown s f :
  Map_get (map Byte.to_N (nonce_field f)) (waiters s) = None ->
  map Byte.to_N (nonce_field f) <> js "0" ->
  dispatch s f = s.
Proof.
  intros Hget Hnonce. unfold dispatch, onMessage.
  destruct (jsstring_eqb (map Byte.to_N (nonce_field f)) (js "0")) eqn:E;
    [apply jsstring_eqb_eq in E; contradiction|].
  rewrite Hget. reflexivity.
Qed.

Lemma dispatch_all_unknown fs : forall s,
  Forall (fun f => Map_get (map Byte.to_N (nonce_field f)) (waiters s) = None
                   /\ map Byte.to_N (nonce_field f) <> js "0") fs ->
  fold_left dispatch fs s = s.
Proof.
  induction fs as [|f fs IH]; intros s Hall; [reflexivity|].
  apply Forall_cons_iff in Hall. destruct Hall as [[Hget Hnonce] Hrest].
  simpl. rewrite (dispatch_unknown s f Hget Hnonce). apply IH, Hrest.
Qed.

(** X13.  Answers that nobody waits for are dropped without a trace:
    when the chunks of stdout are made of whole well-formed frames whose
    nonces have no waiter and are not "0", every [data] handler returns
    and nothing has changed but that the parser holds nothing: no
    callback is called, no waiter is removed, nothing is logged and the
    lifecycle is what it was. *)
Theorem unknown_nonces_ignored chunks fuel s :
  chunks <> [] ->
  Forall (fun fs => fs <> [] /\ Forall well_formed_frame fs
                    /\ (List.length (Buffer_concat (map encode fs)) < fuel)%nat) chunks ->
  pending s = [] ->
  Forall (fun f => Map_get (map Byte.to_N (nonce_field f)) (waiters s) = None
                   /\ map Byte.to_N (nonce_field f) <> js "0") (List.concat chunks) ->
  run fuel s (map (fun fs => StdoutData (Buffer_concat (map encode fs))) chunks)
  = Returned (drained s).
Proof.
  intros Hne Hall Hpend Hunknown.
  rewrite (run_whole_frame_chunks chunks fuel s Hall Hpend).
  destruct chunks as [|c cs]; [congruence|].
  rewrite (dispatch_all_unknown _ s Hunknown). reflexivity.
Qed.

End UnknownNonce.

(** X13 at work: an answer to "zzz" while only "abc" is pending. *)
Lemma unknown_nonces_ignored_witness :
  run (RT := example_runtime) 60 (one_pending "abc")
    (map (fun fs => StdoutData (Buffer_concat (map encode fs)))
       [ [ {| noise_before := Buffer_from "noise"; nonce_field := Buffer_from "zzz";
              length_field := Buffer_from "3"; status_field := Buffer_from "1";
              payload_bytes := Buffer_from "foo" |} ] ])
  = Returned (drained (one_pending "abc")).
Proof.
  apply (unknown_nonces_ignored (RT := example_runtime)
           [ [ {| noise_before := Buffer_from "noise"; nonce_field := Buffer_from "zzz";
                  length_field := Buffer_from "3"; status_field := Buffer_from "1";
                  payload_bytes := Buffer_from "foo" |} ] ]
           60 (one_pending "abc")).
  - discriminate.
  - repeat constructor; try discriminate; try (vm_compute; discriminate); simpl; lia.
  - reflexivity.
  - repeat constructor; vm_compute; discriminate.
Defined.

(** ** A length field that is no number *)

Section MalformedLength.
Context {RT : Runtime}.







End MalformedLength.


(** ** Diagnostics *)

Section Diagnostics.
Context {RT : Runtime}.

Lemma Map_get_delete_none {V} (k k' : jsstring) (m : JsMap V) :
  Map_get k m = None -> Map_get k (Map_delete k' m) = None.
Proof.
  induction m as [|[k0 v0] m IH]; simpl; [reflexivity|].
  destruct (jsstring_eqb k k0) eqn:E; [discriminate|]. intros H.
  destruct (jsstring_eqb k' k0); [exact H|]. simpl. rewrite E. apply IH, H.
Qed.

Lemma no_waiter_onMessage k status nonce data s :
  Map_get k (waiters s) = None ->
  Map_get k (waiters (onMessage status nonce data s)) = None.
Proof.
  intros H. destruct (Map_get nonce (waiters s)) as [w|] eqn:G.
  - rewrite (proj2 (onMessage_waiter status nonce data s w G)).
    apply Map_get_delete_none, H.
  - rewrite (proj2 (onMessage_no_waiter status nonce data s G)). exact H.
Qed.

Lemma no_waiter_step k fuel s e s' :
  uses_nonce k e = false ->
  Map_get k (waiters s) = None ->
  state_of (step fuel s e) = Some s' ->
  Map_get k (waiters s') = None.
Proof.
  intros Hk Hget H. destruct e; simpl in H.
  - revert H.
    apply (onStdoutData_keeps (fun x => Map_get k (waiters x) = None));
      [ intros; apply no_waiter_onMessage; assumption
        | intros; assumption | intros; assumption | intros; assumption
        | exact Hget ].
  - inversion H; subst. exact Hget.
  - inversion H; subst. rewrite onClose_waiters. reflexivity.
  - simpl in Hk. unfold executeCommand in H.
    destruct (runningStatus s); simpl in H; inversion H; subst s'; try exact Hget.
    cbn [waiters set_waiters set_stdin set_nextPromise].
    rewrite Map_get_set_other; [exact Hget|].
    intros ->. rewrite (proj2 (jsstring_eqb_eq nonce nonce) eq_refl) in Hk. discriminate.
  - unfold finishCommands in H.
    destruct (runningStatus s); simpl in H; inversion H; subst s'; exact Hget.
  - inversion H; subst s'. unfold waitForDone, newPromise.
    cbn [runningStatus set_nextPromise]. destruct (runningStatus s); exact Hget.
Qed.

(** C9.  The nonce "0" is the one of diagnostics, which no command is
    sent under.  In every state that the compositor gets into from its
    start, by whatever events and calls, a frame with nonce "0" makes
    [onMessage] add one verbose log entry, tagged [compositor], with
    the payload decoded as UTF-8, and leaves the waiters as they are: no
    waiter is removed and no callback is called. *)
Theorem diagnostic_frame fuel t s status data :
  forallb (fun e => negb (uses_nonce (js "0") e)) t = true ->
  state_of (run fuel initial t) = Some s ->
  verboseLog (onMessage status (js "0") data s)
  = verboseLog s ++ [{| tag := js "compositor"; message := toString_utf8 data |}]
  /\ waiters (onMessage status (js "0") data s) = waiters s
  /\ settled (onMessage status (js "0") data s) = settled s.
Proof.
  intros Hok Hrun.
  assert (Hnone : Map_get (js "0") (waiters s) = None).
  { apply (run_keeps (fun x => Map_get (js "0") (waiters x) = None)
             (fun e => negb (uses_nonce (js "0") e)))
      with (fuel := fuel) (t := t) (s := initial).
    - intros f x e x' HP He. apply no_waiter_step; [|exact HP].
      destruct (uses_nonce (js "0") e); [discriminate|reflexivity].
    - exact Hok.
    - reflexivity.
    - exact Hrun. }
  destruct (onMessage_diagnostic status data s) as [Hlog Hrest].
  split; [exact Hlog|]. apply Hrest, Hnone.
Qed.

End Diagnostics.

(** C9 at work: a diagnostic while the command [abc] is pending. *)
Lemma diagnostic_frame_witness :
  exists s,
    state_of (run (RT := example_runtime) 40 initial
                [ExecuteCommand (js "abc") (js "ExtractFrame") JNull;
                 StderrData (Buffer_from "warning")]) = Some s
    /\ verboseLog (onMessage (RT := example_runtime) status_success (js "0")
                     (Buffer_from "hello") s)
       = verboseLog s ++ [{| tag := js "compositor"; message := js "hello" |}]
    /\ waiters (onMessage (RT := example_runtime) status_success (js "0")
                  (Buffer_from "hello") s) = waiters s
    /\ settled (onMessage (RT := example_runtime) status_success (js "0")
                  (Buffer_from "hello") s) = settled s.
Proof.
  eexists. split; [vm_compute; reflexivity|].
  apply (diagnostic_frame (RT := example_runtime) 40
           [ExecuteCommand (js "abc") (js "ExtractFrame") JNull;
            StderrData (Buffer_from "warning")]);
    vm_compute; reflexivity.
Defined.

(** * The codemod [update-default-props] *)

(** ** Searching a string *)

Lemma str_search_found value : forall s i n,
  str_search value s i = n -> n <> -1 -> 0 <= i ->
  i <= n <= i + str_length s
  /\ str_prefix value (skipn (Z.to_nat (n - i)) s) = true
  /\ forall j, (j < Z.to_nat (n - i))%nat -> str_prefix value (skipn j s) = false.
Proof.
  induction s as [|c cs IH]; intros i n H Hn Hi; cbn [str_search] in H.
  - destruct (str_prefix value []) eqn:E; [|congruence]. subst n.
    rewrite Z.sub_diag. unfold str_length. simpl.
    split; [lia|]. split; [exact E|intros j Hj; lia].
  - destruct (str_prefix value (c :: cs)) eqn:E.
    + subst n. rewrite Z.sub_diag. change (Z.to_nat 0) with O.
      split; [unfold str_length; simpl List.length; lia|].
      split; [exact E|intros j Hj; lia].
    + destruct (IH (i + 1) n H Hn ltac:(lia)) as (Hb & Hp & Hbefore).
      assert (Hsucc : Z.to_nat (n - i) = S (Z.to_nat (n - (i + 1)))) by lia.
      rewrite Hsucc.
      split; [unfold str_length in *; simpl List.length; lia|].
      split; [exact Hp|].
      intros [|j] Hj; [exact E|]. apply Hbefore. lia.
Qed.

Lemma str_search_none value : forall s i,
  0 <= i -> str_search value s i = -1 ->
  forall j : nat, str_prefix value (skipn j s) = false.
Proof.
  induction s as [|c cs IH]; intros i Hi H j; cbn [str_search] in H.
  - destruct (str_prefix value []) eqn:E; [lia|]. destruct j; exact E.
  - destruct (str_prefix value (c :: cs)) eqn:E; [lia|].
    destruct j as [|j]; [exact E|]. simpl. apply (IH (i + 1)); [lia|exact H].
Qed.

Lemma str_search_range value : forall s i,
  0 <= i -> str_search value s i = -1 \/ i <= str_search value s i.
Proof.
  induction s as [|c cs IH]; intros i Hi; cbn [str_search].
  - destruct (str_prefix value []); [right; lia|left; reflexivity].
  - destruct (str_prefix value (c :: cs)); [right; lia|].
    destruct (IH (i + 1) ltac:(lia)) as [H|H]; [left; exact H|right; lia].
Qed.

(** [indexOf] returns the first place at or after the start of the
    search at which the value stands. *)
Lemma String_indexOf_found s value p n :
  String_indexOf s value p = n -> n <> -1 ->
  Z.min (Z.max p 0) (str_length s) <= n <= str_length s
  /\ str_prefix value (skipn (Z.to_nat n) s) = true
  /\ forall j, Z.min (Z.max p 0) (str_length s) <= j < n ->
       str_prefix value (skipn (Z.to_nat j) s) = false.
Proof.
  unfold String_indexOf. set (start := Z.min (Z.max p 0) (str_length s)).
  intros H Hn.
  assert (Hs : 0 <= start <= str_length s) by (unfold start, str_length; lia).
  destruct (str_search_found value _ start n H Hn (proj1 Hs)) as (Hb & Hp & Hbefore).
  rewrite skipn_skipn in Hp.
  replace (Z.to_nat (n - start) + Z.to_nat start)%nat with (Z.to_nat n) in Hp by lia.
  split; [|split; [exact Hp|]].
  - unfold str_length in *. rewrite length_skipn in Hb. lia.
  - intros j Hj. specialize (Hbefore (Z.to_nat (j - start)) ltac:(lia)).
    rewrite skipn_skipn in Hbefore.
    replace (Z.to_nat (j - start) + Z.to_nat start)%nat with (Z.to_nat j) in Hbefore by lia.
    exact Hbefore.
Qed.

Lemma String_indexOf_none s value p :
  String_indexOf s value p = -1 ->
  forall j, Z.min (Z.max p 0) (str_length s) <= j ->
    str_prefix value (skipn (Z.to_nat j) s) = false.
Proof.
  unfold String_indexOf. set (start := Z.min (Z.max p 0) (str_length s)).
  intros H j Hj.
  assert (Hs : 0 <= start) by (unfold start, str_length; lia).
  pose proof (str_search_none value _ start Hs H (Z.to_nat (j - start))) as Hp.
  rewrite skipn_skipn in Hp.
  replace (Z.to_nat (j - start) + Z.to_nat start)%nat with (Z.to_nat j) in Hp by lia.
  exact Hp.
Qed.

Lemma String_indexOf_range s value p :
  String_indexOf s value p = -1 \/ 0 <= String_indexOf s value p.
Proof.
  unfold String_indexOf. set (start := Z.min (Z.max p 0) (str_length s)).
  assert (Hs : 0 <= start) by (unfold start, str_length; lia).
  destruct (str_search_range value (skipn (Z.to_nat start) s) start Hs) as [H|H];
    [left; exact H|right; lia].
Qed.

(** The two outcomes of a search from the start of a string, as the
    tests [> -1] of the codemod see them. *)
Lemma String_indexOf_whole s value :
  ((-1 <? String_indexOf s value 0) = true
   /\ 0 <= String_indexOf s value 0 <= str_length s
   /\ str_prefix value (skipn (Z.to_nat (String_indexOf s value 0)) s) = true
   /\ forall j, 0 <= j < String_indexOf s value 0 ->
        str_prefix value (skipn (Z.to_nat j) s) = false)
  \/ ((-1 <? String_indexOf s value 0) = false
      /\ forall j : nat, str_prefix value (skipn j s) = false).
Proof.
  assert (Hstart : Z.min (Z.max 0 0) (str_length s) = 0) by (unfold str_length; lia).
  destruct (String_indexOf_range s value 0) as [H|H].
  - right. split; [rewrite H; reflexivity|].
    intros j. pose proof (String_indexOf_none s value 0 H (Z.of_nat j)) as Hp.
    rewrite Hstart, Nat2Z.id in Hp. apply Hp. lia.
  - left. split; [apply Z.ltb_lt; lia|].
    destruct (String_indexOf_found s value 0 _ eq_refl ltac:(lia)) as (Hb & Hp & Hbefore).
    rewrite Hstart in Hb, Hbefore. split; [lia|]. split; [exact Hp|exact Hbefore].
Qed.

Lemma braces_at s n :
  0 <= n -> str_prefix (js "}}") (skipn (Z.to_nat n) s) = true ->
  char_at s n = Some 125%N /\ char_at s (n + 1) = Some 125%N /\ n + 1 < str_length s.
Proof.
  intros Hn H. change (js "}}") with [125%N; 125%N] in H.
  unfold char_at.
  destruct (Z.ltb_spec n 0) as [|_]; [lia|].
  destruct (Z.ltb_spec (n + 1) 0) as [|_]; [lia|].
  pose proof (nth_error_skipn (Z.to_nat n) s 0) as H0.
  pose proof (nth_error_skipn (Z.to_nat n) s 1) as H1.
  pose proof (length_skipn (Z.to_nat n) s) as Hlen.
  destruct (skipn (Z.to_nat n) s) as [|a [|b r]]; cbn [str_prefix] in H;
    try discriminate; [rewrite andb_false_r in H; discriminate|].
  apply andb_prop in H. destruct H as [Ha Hb].
  apply andb_prop in Hb. destruct Hb as [Hb _].
  apply N.eqb_eq in Ha, Hb. subst a b.
  simpl in H0, H1, Hlen. rewrite Nat.add_0_r in H0.
  replace (Z.to_nat (n + 1)) with (Z.to_nat n + 1)%nat by lia.
  rewrite <- H0, <- H1. unfold str_length. repeat split. lia.
Qed.

Lemma substring_to s e :
  0 <= e <= str_length s -> substring s 0 (Some e) = firstn (Z.to_nat e) s.
Proof.
  intros He. unfold substring.
  replace (Z.min (Z.max 0 0) (str_length s)) with 0 by (unfold str_length; lia).
  replace (Z.min (Z.max e 0) (str_length s)) with e by lia.
  replace (Z.min 0 e) with 0 by lia. replace (Z.max 0 e - 0) with e by lia.
  reflexivity.
Qed.

Lemma substring_from s e :
  0 <= e <= str_length s -> substring s e None = skipn (Z.to_nat e) s.
Proof.
  intros He. unfold substring.
  replace (Z.min (Z.max e 0) (str_length s)) with e by lia.
  replace (Z.min e (str_length s)) with e by lia.
  replace (Z.max e (str_length s)) with (str_length s) by lia.
  apply firstn_all2. rewrite length_skipn. unfold str_length in *. lia.
Qed.

(** ** The finders *)

Lemma findEnder_once fuel input position maxPosition :
  (0 < fuel)%nat ->
  findEnder fuel input position maxPosition
  = (if below position maxPosition then
       if String_indexOf input (js "}}") (position + 1) =? -1
       then Throws (js "Could not find end of defaultProps")
       else Value (position, String_indexOf input (js "}}") (position + 1) + 1)
     else Throws (js "did not find string"))
  /\ (String_indexOf input (js "}}") (position + 1) <> -1 ->
      let next := String_indexOf input (js "}}") (position + 1) in
      position < next /\ 0 <= next /\ next + 1 < str_length input
      /\ char_at input next = Some 125%N
      /\ char_at input (next + 1) = Some 125%N
      /\ forall j, 0 <= j -> position < j < next ->
           str_prefix (js "}}") (skipn (Z.to_nat j) input) = false).
Proof.
  intros Hfuel.
  assert (Hnext : String_indexOf input (js "}}") (position + 1) <> -1 ->
                  let next := String_indexOf input (js "}}") (position + 1) in
                  position < next /\ 0 <= next /\ next + 1 < str_length input
                  /\ char_at input next = Some 125%N
                  /\ char_at input (next + 1) = Some 125%N
                  /\ forall j, 0 <= j -> position < j < next ->
                       str_prefix (js "}}") (skipn (Z.to_nat j) input) = false).
  { intros Hn next.
    destruct (String_indexOf_found input (js "}}") (position + 1) next eq_refl Hn)
      as (Hb & Hp & Hbefore).
    assert (H0 : 0 <= next) by (unfold str_length in *; lia).
    destruct (braces_at input next H0 Hp) as (Hc1 & Hc2 & Hlen).
    split; [lia|]. split; [exact H0|]. split; [exact Hlen|].
    split; [exact Hc1|]. split; [exact Hc2|].
    intros j Hj0 Hj. apply Hbefore. lia. }
  split; [|exact Hnext].
  unfold findEnder. destruct fuel as [|fuel]; [lia|]. cbn [findEnder_from].
  destruct (below position maxPosition); [|reflexivity].
  destruct (Z.eqb_spec (String_indexOf input (js "}}") (position + 1)) (-1)) as [|Hn];
    [reflexivity|].
  destruct (Hnext Hn) as (_ & _ & _ & _ & Hc2 & _).
  rewrite Hc2. reflexivity.
Qed.

Lemma findStarter_spec input compositionId :
  match findStarter input compositionId with
  | Value r =>
      0 <= r <= str_length input
      /\ exists k spelling,
           nth_error (id_spellings compositionId) k = Some spelling
           /\ str_prefix spelling (skipn (Z.to_nat r) input) = true
           /\ (forall j, 0 <= j < r ->
                 str_prefix spelling (skipn (Z.to_nat j) input) = false)
           /\ (forall k' earlier, (k' < k)%nat ->
                 nth_error (id_spellings compositionId) k' = Some earlier ->
                 forall j : nat, str_prefix earlier (skipn j input) = false)
  | Throws message =>
      message = js "Could not find composition ID " ++ compositionId ++ js " in file"
      /\ forall spelling, In spelling (id_spellings compositionId) ->
           forall j : nat, str_prefix spelling (skipn j input) = false
  | StillLooping => False
  end.
Proof.
  unfold findStarter.
  destruct (String_indexOf_whole input (js "id=" ++ js quote ++ compositionId ++ js quote))
    as [(-> & Hr & Hp & Hb)|[-> N1]].
  { split; [exact Hr|]. exists 0%nat. eexists. split; [reflexivity|].
    split; [exact Hp|]. split; [exact Hb|]. intros k' e Hk; lia. }
  destruct (String_indexOf_whole input (js "id='" ++ compositionId ++ js "'"))
    as [(-> & Hr & Hp & Hb)|[-> N2]].
  { split; [exact Hr|]. exists 1%nat. eexists. split; [reflexivity|].
    split; [exact Hp|]. split; [exact Hb|].
    intros k' e Hk He. destruct k' as [|k']; [|lia].
    inversion He; subst e. exact N1. }
  destruct (String_indexOf_whole input (js "id={'" ++ compositionId ++ js "'}"))
    as [(-> & Hr & Hp & Hb)|[-> N3]].
  { split; [exact Hr|]. exists 2%nat. eexists. split; [reflexivity|].
    split; [exact Hp|]. split; [exact Hb|].
    intros k' e Hk He. destruct k' as [|[|k']]; [| |lia]; inversion He; subst e;
      assumption. }
  destruct (String_indexOf_whole input
              (js "id={" ++ js quote ++ compositionId ++ js quote ++ js "}"))
    as [(-> & Hr & Hp & Hb)|[-> N4]].
  { split; [exact Hr|]. exists 3%nat. eexists. split; [reflexivity|].
    split; [exact Hp|]. split; [exact Hb|].
    intros k' e Hk He. destruct k' as [|[|[|k']]]; [| | |lia]; inversion He; subst e;
      assumption. }
  destruct (String_indexOf_whole input (js "id={`" ++ compositionId ++ js "`"))
    as [(-> & Hr & Hp & Hb)|[-> N5]].
  { split; [exact Hr|]. exists 4%nat. eexists. split; [reflexivity|].
    split; [exact Hp|]. split; [exact Hb|].
    intros k' e Hk He. destruct k' as [|[|[|[|k']]]]; [| | | |lia]; inversion He; subst e;
      assumption. }
  split; [reflexivity|].
  intros spelling Hin. cbn [id_spellings In] in Hin.
  destruct Hin as [<-|[<-|[<-|[<-|[<-|[]]]]]]; assumption.
Qed.

(** X14.  [findStarter] returns the first place of the first of the five
    spellings of the [id] attribute that occurs in the file at all: a
    spelling earlier in the list wins over one that stands earlier in
    the file.  It throws exactly when none of the five occurs. *)
Theorem findStarter_first_spelling input compositionId :
  match findStarter input compositionId with
  | Value r =>
      0 <= r <= str_length input
      /\ exists k spelling,
           nth_error (id_spellings compositionId) k = Some spelling
           /\ str_prefix spelling (skipn (Z.to_nat r) input) = true
           /\ (forall j, 0 <= j < r ->
                 str_prefix spelling (skipn (Z.to_nat j) input) = false)
           /\ (forall k' earlier, (k' < k)%nat ->
                 nth_error (id_spellings compositionId) k' = Some earlier ->
                 forall j : nat, str_prefix earlier (skipn j input) = false)
  | Throws message =>
      message = js "Could not find composition ID " ++ compositionId ++ js " in file"
      /\ forall spelling, In spelling (id_spellings compositionId) ->
           forall j : nat, str_prefix spelling (skipn j input) = false
  | StillLooping => False
  end.
Proof. apply findStarter_spec. Qed.

(** X15.  The loop of [findEnder] runs at most once: the character it
    tests for a comma is the second of the two braces it has just
    found, so the [continue] is never taken.  For a position below
    [maxPosition] the function returns the position together with the
    index of the second brace of the first [}}] behind the position, also when
    that lies beyond [maxPosition]; it throws when there is no [}}], or
    when the position is not below [maxPosition]. *)
Theorem findEnder_first_closing_braces fuel input position maxPosition :
  (0 < fuel)%nat ->
  findEnder fuel input position maxPosition
  = (if below position maxPosition then
       if String_indexOf input (js "}}") (position + 1) =? -1
       then Throws (js "Could not find end of defaultProps")
       else Value (position, String_indexOf input (js "}}") (position + 1) + 1)
     else Throws (js "did not find string"))
  /\ (String_indexOf input (js "}}") (position + 1) <> -1 ->
      let next := String_indexOf input (js "}}") (position + 1) in
      position < next /\ 0 <= next /\ next + 1 < str_length input
      /\ char_at input next = Some 125%N
      /\ char_at input (next + 1) = Some 125%N
      /\ forall j, 0 <= j -> position < j < next ->
           str_prefix (js "}}") (skipn (Z.to_nat j) input) = false).
Proof. apply findEnder_once. Qed.

(** X16.  The new file: whenever [updateDefaultProps] gets as far as
    [newFile], the text is the old one with the range from [startPos] to
    [endPos] replaced by the stringified props, where [defaultProps={]
    stands right before [startPos], a closing brace stands at [endPos]
    and another right before it, and no [}}] lies in between: the text
    up to and including [defaultProps={] and the text from the closing
    brace of the attribute on are kept as they are.  Otherwise one of
    four Errors is thrown; no loop is left running. *)
Theorem newFile_splices fuel input compositionId stringified :
  (0 < fuel)%nat ->
  match newFile fuel input compositionId stringified with
  | Value (file, startPos, endPos) =>
      str_length START_TOKEN <= startPos
      /\ startPos < endPos < str_length input
      /\ str_prefix START_TOKEN
           (skipn (Z.to_nat (startPos - str_length START_TOKEN)) input) = true
      /\ char_at input (endPos - 1) = Some 125%N
      /\ char_at input endPos = Some 125%N
      /\ (forall j, startPos < j < endPos - 1 ->
            str_prefix (js "}}") (skipn (Z.to_nat j) input) = false)
      /\ file = firstn (Z.to_nat startPos) input
                ++ stringified ++ skipn (Z.to_nat endPos) input
  | Throws message =>
      In message
        [js "Could not find composition ID " ++ compositionId ++ js " in file";
         js "Could not find defaultProps in <Composition> tag";
         js "Could not find end of defaultProps";
         js "did not find string"]
  | StillLooping => False
  end.
Proof.
  intros Hfuel. unfold newFile.
  pose proof (findStarter_spec input compositionId) as HS.
  destruct (findStarter input compositionId) as [starter|message|]; [| |exact HS].
  2:{ destruct HS as [-> _]. left. reflexivity. }
  destruct HS as [Hstarter _].
  destruct (Z.eqb_spec (String_indexOf input START_TOKEN starter) (-1)) as [|Hn];
    [right; left; reflexivity|].
  destruct (String_indexOf_found input START_TOKEN starter _ eq_refl Hn)
    as (Hb & Hp & _).
  set (start := String_indexOf input START_TOKEN starter) in *.
  assert (Hlen : str_length START_TOKEN = 14) by reflexivity.
  destruct (findEnder_once fuel input (start + str_length START_TOKEN)
              (findTerminators input starter) Hfuel) as [-> Hnext].
  destruct (below (start + str_length START_TOKEN) (findTerminators input starter));
    [|right; right; right; left; reflexivity].
  destruct (Z.eqb_spec
              (String_indexOf input (js "}}") (start + str_length START_TOKEN + 1)) (-1))
    as [|Hn2]; [right; right; left; reflexivity|].
  destruct (Hnext Hn2) as (Hlt & H0 & Hlast & Hc1 & Hc2 & Hbetween).
  set (next := String_indexOf input (js "}}") (start + str_length START_TOKEN + 1)) in *.
  assert (Hs0 : 0 <= start) by lia.
  split; [lia|]. split; [lia|].
  split; [replace (start + str_length START_TOKEN - str_length START_TOKEN) with start by lia;
          exact Hp|].
  split; [replace (next + 1 - 1) with next by lia; exact Hc1|].
  split; [exact Hc2|].
  split; [intros j Hj; apply Hbetween; lia|].
  rewrite substring_to, substring_from by lia. reflexivity.
Qed.

(** X15 at work. *)
Lemma findEnder_first_closing_braces_witness :
  findEnder 1 (js "defaultProps={{a: 1}} />") 14 Infinity = Value (14, 20).
Proof.
  apply (proj1 (findEnder_first_closing_braces 1 (js "defaultProps={{a: 1}} />") 14
                  Infinity ltac:(lia))).
Defined.

(** X16 at work: new props for the composition [my-comp]. *)
Lemma newFile_splices_witness :
  match newFile 1
          (js "<Composition id='my-comp' defaultProps={{a: 1}} />")
          (js "my-comp") (js "{b: 2}") with
  | Value (file, startPos, endPos) =>
      str_length START_TOKEN <= startPos
      /\ startPos < endPos < str_length (js "<Composition id='my-comp' defaultProps={{a: 1}} />")
      /\ str_prefix START_TOKEN
           (skipn (Z.to_nat (startPos - str_length START_TOKEN))
              (js "<Composition id='my-comp' defaultProps={{a: 1}} />")) = true
      /\ char_at (js "<Composition id='my-comp' defaultProps={{a: 1}} />") (endPos - 1)
         = Some 125%N
      /\ char_at (js "<Composition id='my-comp' defaultProps={{a: 1}} />") endPos
         = Some 125%N
      /\ (forall j, startPos < j < endPos - 1 ->
            str_prefix (js "}}")
              (skipn (Z.to_nat j)
                 (js "<Composition id='my-comp' defaultProps={{a: 1}} />")) = false)
      /\ file = firstn (Z.to_nat startPos)
                  (js "<Composition id='my-comp' defaultProps={{a: 1}} />")
                ++ js "{b: 2}"
                ++ skipn (Z.to_nat endPos)
                     (js "<Composition id='my-comp' defaultProps={{a: 1}} />")
  | Throws message =>
      In message
        [js "Could not find composition ID " ++ js "my-comp" ++ js " in file";
         js "Could not find defaultProps in <Composition> tag";
         js "Could not find end of defaultProps";
         js "did not find string"]
  | StillLooping => False
  end.
Proof.
  apply (newFile_splices 1 (js "<Composition id='my-comp' defaultProps={{a: 1}} />")
           (js "my-comp") (js "{b: 2}")). lia.
Defined.

(** The same run, evaluated. *)
Lemma newFile_example :
  newFile 1 (js "<Composition id='my-comp' defaultProps={{a: 1}} />")
    (js "my-comp") (js "{b: 2}")
  = Value (js "<Composition id='my-comp' defaultProps={{b: 2}} />", 40, 46).
Proof. vm_compute. reflexivity. Qed.

(** X17.  The props that are replaced belong to the composition that
    was asked for, as far as the finders check it: [startPos] is right
    behind the first [defaultProps={] that follows the [id] attribute,
    and no [<Composition] begins between the attribute and [startPos].
    (Nothing of the kind is checked for [endPos].) *)
Theorem newFile_stays_in_tag fuel input compositionId stringified file startPos endPos :
  newFile fuel input compositionId stringified = Value (file, startPos, endPos) ->
  exists starter,
    findStarter input compositionId = Value starter
    /\ 0 <= starter <= startPos - str_length START_TOKEN
    /\ str_prefix START_TOKEN
         (skipn (Z.to_nat (startPos - str_length START_TOKEN)) input) = true
    /\ (forall j, starter <= j < startPos - str_length START_TOKEN ->
          str_prefix START_TOKEN (skipn (Z.to_nat j) input) = false)
    /\ (forall j, starter <= j <= startPos ->
          str_prefix (js "<Composition") (skipn (Z.to_nat j) input) = false).
Proof.
  unfold newFile. intros H.
  pose proof (findStarter_spec input compositionId) as HS.
  destruct (findStarter input compositionId) as [starter|message|]; try discriminate.
  destruct HS as [Hstarter _].
  destruct (Z.eqb_spec (String_indexOf input START_TOKEN starter) (-1)) as [|Hn];
    [discriminate|].
  destruct (String_indexOf_found input START_TOKEN starter _ eq_refl Hn)
    as (Hb & Hp & Hbefore).
  set (start := String_indexOf input START_TOKEN starter) in *.
  replace (Z.min (Z.max starter 0) (str_length input)) with starter in * by lia.
  destruct fuel as [|fuel]; [discriminate|].
  destruct (findEnder_once (S fuel) input (start + str_length START_TOKEN)
              (findTerminators input starter) ltac:(lia)) as [E _].
  rewrite E in H. clear E.
  destruct (below (start + str_length START_TOKEN) (findTerminators input starter))
    eqn:Hbelow; [|discriminate].
  destruct (String_indexOf input (js "}}") (start + str_length START_TOKEN + 1) =? -1);
    [discriminate|].
  inversion H; subst file startPos endPos. clear H.
  exists starter. split; [reflexivity|].
  replace (start + str_length START_TOKEN - str_length START_TOKEN) with start by lia.
  split; [lia|]. split; [exact Hp|]. split; [exact Hbefore|].
  intros j Hj. unfold findTerminators in Hbelow.
  destruct (String_indexOf_range input (js "<Composition") starter) as [Hnone|Hsome].
  - apply (String_indexOf_none input (js "<Composition") starter Hnone). lia.
  - destruct (String_indexOf_found input (js "<Composition") starter _ eq_refl ltac:(lia))
      as (_ & _ & Hfree).
    destruct (Z.ltb_spec (-1) (String_indexOf input (js "<Composition") starter)) as [_|];
      [|lia].
    cbn [below] in Hbelow. apply Z.ltb_lt in Hbelow.
    apply Hfree. lia.
Qed.

(** X17 at work: the second of two compositions. *)
Lemma newFile_stays_in_tag_witness :
  exists starter,
    findStarter (js "<Composition id='a' defaultProps={{}} /><Composition id='b' defaultProps={{x: 1}} />")
      (js "b") = Value starter
    /\ 0 <= starter <= 74 - str_length START_TOKEN
    /\ str_prefix START_TOKEN
         (skipn (Z.to_nat (74 - str_length START_TOKEN))
            (js "<Composition id='a' defaultProps={{}} /><Composition id='b' defaultProps={{x: 1}} />"))
       = true
    /\ (forall j, starter <= j < 74 - str_length START_TOKEN ->
          str_prefix START_TOKEN
            (skipn (Z.to_nat j)
               (js "<Composition id='a' defaultProps={{}} /><Composition id='b' defaultProps={{x: 1}} />"))
          = false)
    /\ (forall j, starter <= j <= 74 ->
          str_prefix (js "<Composition")
            (skipn (Z.to_nat j)
               (js "<Composition id='a' defaultProps={{}} /><Composition id='b' defaultProps={{x: 1}} />"))
          = false).
Proof.
  apply (newFile_stays_in_tag 1
           (js "<Composition id='a' defaultProps={{}} /><Composition id='b' defaultProps={{x: 1}} />")
           (js "b") (js "{y: 2}")
           (js "<Composition id='a' defaultProps={{}} /><Composition id='b' defaultProps={{y: 2}} />")
           74 80).
  vm_compute. reflexivity.
Defined.
